(** * Semaphores, locks and condition variables of kern/thread/synch.c

    The C functions are embedded as programs of a small resumption monad
    whose commands are the accesses to kernel memory and the calls into
    the interrupt-level, wait-channel and allocator interfaces.  A program
    is run one command at a time by [step]; [run] iterates [step] for one
    thread on its own, and the machine of [mstep] interleaves the threads
    of a pool on one processor, switching only where the interrupt
    priority level allows it. *)

From stdpp Require Import gmap strings list.
From Stdlib Require Import ZArith Lia.

Local Open Scope Z_scope.

(** ** C data *)

Definition NULL : Z := 0.

Definition INT_MIN : Z := -2147483648.
Definition INT_MAX : Z := 2147483647.

(** Arithmetic on [int] wraps around at 32 bits, two's complement. *)
Definition wrap_int (z : Z) : Z := (z + 2147483648) mod 4294967296 - 2147483648.

(** C comparison operators, yielding an [int]. *)
Definition c_eq (a b : Z) : Z := if a =? b then 1 else 0.
Definition c_ne (a b : Z) : Z := if a =? b then 0 else 1.
Definition c_gt (a b : Z) : Z := if b <? a then 1 else 0.

(** Truth of a C scalar. *)
Definition c_true (v : Z) : bool := negb (v =? 0).

(** The structures of synch.h, and the strings made by [kstrdup]. *)
Inductive ctype := struct_semaphore | struct_lock | struct_cv.

Inductive obj :=
| OSem (name : Z) (count : Z)
| OLock (name : Z) (holder : Z)
| OCv (name : Z)
| OStr (s : string).

Inductive field := sem_name | sem_count | lock_name | lk_holder | cv_name.

Inductive loc :=
| Field (p : Z) (f : field)      (* p->f *)
| G_curthread                    (* the global curthread *)
| G_in_interrupt.                (* the global in_interrupt *)

Definition read_field (o : obj) (f : field) : option Z :=
  match o, f with
  | OSem n _, sem_name => Some n
  | OSem _ c, sem_count => Some c
  | OLock n _, lock_name => Some n
  | OLock _ h, lk_holder => Some h
  | OCv n, cv_name => Some n
  | _, _ => None
  end.

Definition write_field (o : obj) (f : field) (v : Z) : option obj :=
  match o, f with
  | OSem _ c, sem_name => Some (OSem v c)
  | OSem n _, sem_count => Some (OSem n v)
  | OLock _ h, lock_name => Some (OLock v h)
  | OLock n _, lk_holder => Some (OLock n v)
  | OCv _, cv_name => Some (OCv v)
  | _, _ => None
  end.

Definition blank (t : ctype) : obj :=
  match t with
  | struct_semaphore => OSem 0 0
  | struct_lock => OLock 0 0
  | struct_cv => OCv 0
  end.

(** ** Kernel state *)

(** What a thread did to the world outside its own variables: the calls
    into the collaborating subsystems and the stores to memory, in order.
    The log is ghost state: no command reads it. *)
Inductive event :=
| EvSplhigh
| EvSplx (spl : Z)
| EvSleep (chan : Z)
| EvWakeup (chan : Z)
| EvWakeone (chan : Z)
| EvHassleepers (chan : Z)
| EvKmalloc (p : Z)
| EvKfree (p : Z)
| EvStore (l : loc) (v : Z).

Record kstate := mkK {
  heap : gmap Z obj;          (* live heap blocks, by address *)
  brk : Z;                    (* the address the next allocation gets *)
  kfree_left : nat;           (* allocations the heap can still serve *)
  curspl : Z;                 (* interrupt priority level, 0 = enabled *)
  in_interrupt : Z;
  curthread : Z;
  sleepers : list (Z * Z);    (* (thread, wait channel), oldest first *)
  klog : list (Z * event)     (* (thread, what it did) *)
}.

Definition emit (e : event) (s : kstate) : kstate :=
  mkK (heap s) (brk s) (kfree_left s) (curspl s) (in_interrupt s)
      (curthread s) (sleepers s) (klog s ++ [(curthread s, e)]).

Definition set_heap (h : gmap Z obj) (s : kstate) : kstate :=
  mkK h (brk s) (kfree_left s) (curspl s) (in_interrupt s)
      (curthread s) (sleepers s) (klog s).

Definition set_spl (l : Z) (s : kstate) : kstate :=
  mkK (heap s) (brk s) (kfree_left s) l (in_interrupt s)
      (curthread s) (sleepers s) (klog s).

Definition set_sleepers (q : list (Z * Z)) (s : kstate) : kstate :=
  mkK (heap s) (brk s) (kfree_left s) (curspl s) (in_interrupt s)
      (curthread s) q (klog s).

Definition set_alloc (b : Z) (n : nat) (s : kstate) : kstate :=
  mkK (heap s) b n (curspl s) (in_interrupt s)
      (curthread s) (sleepers s) (klog s).

Definition set_curthread (t : Z) (s : kstate) : kstate :=
  mkK (heap s) (brk s) (kfree_left s) (curspl s) (in_interrupt s)
      t (sleepers s) (klog s).

(** ** The collaborating subsystems *)

(** Modelled from the spec: machine/spl.h is not part of the sources.
    [splhigh] is the spec's raise_priority: it blocks every maskable
    interrupt and hands back the previous level; a level of 0 means that
    interrupts are enabled. *)
Definition SPL_HIGH : Z := 15.

Definition do_splhigh (s : kstate) : Z * kstate :=
  (curspl s, set_spl SPL_HIGH (emit EvSplhigh s)).

(** Modelled from the spec: [splx] is the spec's restore_priority. *)
Definition do_splx (l : Z) (s : kstate) : Z * kstate :=
  (0, set_spl l (emit (EvSplx l) s)).

(** Modelled from the spec: thread.h and thread.c are not part of the
    sources.  [thread_sleep] is the spec's sleep(channel): the calling
    thread is put on the wait channel and stays there until woken. *)
Definition do_thread_sleep (chan : Z) (s : kstate) : Z * kstate :=
  (0, set_sleepers (sleepers s ++ [(curthread s, chan)]) (emit (EvSleep chan) s)).

Definition on_chan (chan : Z) (e : Z * Z) : bool := e.2 =? chan.

(** Modelled from the spec: [thread_wakeup] is the spec's
    wake_all(channel). *)
Definition do_thread_wakeup (chan : Z) (s : kstate) : Z * kstate :=
  (0, set_sleepers (filter (fun e => negb (on_chan chan e)) (sleepers s))
        (emit (EvWakeup chan) s)).

Fixpoint remove_first (chan : Z) (q : list (Z * Z)) : list (Z * Z) :=
  match q with
  | [] => []
  | e :: q' => if on_chan chan e then q' else e :: remove_first chan q'
  end.

(** Modelled from the spec: [thread_wakeone] is the spec's
    wake_one(channel); the oldest sleeper is taken, an order the spec
    leaves to the wait-channel subsystem. *)
Definition do_thread_wakeone (chan : Z) (s : kstate) : Z * kstate :=
  (0, set_sleepers (remove_first chan (sleepers s)) (emit (EvWakeone chan) s)).

(** Modelled from the spec: [thread_hassleepers] answers the spec's
    count_sleepers(channel) as a truth value. *)
Definition do_thread_hassleepers (chan : Z) (s : kstate) : Z * kstate :=
  (if existsb (on_chan chan) (sleepers s) then 1 else 0,
   emit (EvHassleepers chan) s).

(** Modelled from the spec: the allocator of lib.h is not part of the
    sources.  An allocation fails with NULL when the heap is exhausted and
    otherwise returns the next fresh address. *)
Definition do_alloc (o : obj) (s : kstate) : Z * kstate :=
  match kfree_left s with
  | O => (NULL, emit (EvKmalloc NULL) s)
  | S n =>
      (brk s,
       set_alloc (brk s + 1) n
         (set_heap (<[brk s := o]> (heap s)) (emit (EvKmalloc (brk s)) s)))
  end.

Definition do_kfree (p : Z) (s : kstate) : option (Z * kstate) :=
  match heap s !! p with
  | Some _ =>
      Some (0, set_alloc (brk s) (S (kfree_left s))
                (set_heap (delete p (heap s)) (emit (EvKfree p) s)))
  | None => None
  end.

(** ** Memory *)

Definition do_load (l : loc) (s : kstate) : option (Z * kstate) :=
  match l with
  | Field p f =>
      match heap s !! p with
      | Some o => match read_field o f with Some v => Some (v, s) | None => None end
      | None => None
      end
  | G_curthread => Some (curthread s, s)
  | G_in_interrupt => Some (in_interrupt s, s)
  end.

Definition do_store (l : loc) (v : Z) (s : kstate) : option (Z * kstate) :=
  match l with
  | Field p f =>
      match heap s !! p with
      | Some o =>
          match write_field o f v with
          | Some o' => Some (0, set_heap (<[p := o']> (heap s)) (emit (EvStore l v) s))
          | None => None
          end
      | None => None
      end
  | _ => None
  end.

(** ** Programs *)

Inductive cmd :=
| Splhigh
| Splx (spl : Z)
| ThreadSleep (chan : Z)
| ThreadWakeup (chan : Z)
| ThreadWakeone (chan : Z)
| ThreadHassleepers (chan : Z)
| Kmalloc (t : ctype)
| Kstrdup (str : string)
| Kfree (p : Z)
| Load (l : loc)
| Store (l : loc) (v : Z).

(** [None] is a memory fault: an access through a pointer that is not a
    live block of the right structure. *)
Definition exec_cmd (c : cmd) (s : kstate) : option (Z * kstate) :=
  match c with
  | Splhigh => Some (do_splhigh s)
  | Splx l => Some (do_splx l s)
  | ThreadSleep ch => Some (do_thread_sleep ch s)
  | ThreadWakeup ch => Some (do_thread_wakeup ch s)
  | ThreadWakeone ch => Some (do_thread_wakeone ch s)
  | ThreadHassleepers ch => Some (do_thread_hassleepers ch s)
  | Kmalloc t => Some (do_alloc (blank t) s)
  | Kstrdup str => Some (do_alloc (OStr str) s)
  | Kfree p => do_kfree p s
  | Load l => do_load l s
  | Store l v => do_store l v s
  end.

(** A C function body: a value, a command and the rest, an assertion, or a
    [while] loop followed by the rest.  Every value is a C scalar. *)
Inductive prog : Type :=
| Ret (v : Z)
| Do (c : cmd) (k : Z -> prog)
| Assert (b : bool) (k : prog)
| While (cond : prog) (body : prog) (k : prog).

Fixpoint bind (p : prog) (f : Z -> prog) : prog :=
  match p with
  | Ret v => f v
  | Do c k => Do c (fun x => bind (k x) f)
  | Assert b k => Assert b (bind k f)
  | While c b k => While c b (bind k f)
  end.

Declare Scope prog_scope.
Delimit Scope prog_scope with prog.
Bind Scope prog_scope with prog.

Notation "x <- p ;; q" := (bind p (fun x => q%prog))
  (at level 100, p at next level, right associativity) : prog_scope.
Notation "p ;; q" := (bind p (fun _ => q%prog))
  (at level 100, right associativity) : prog_scope.

Local Open Scope prog_scope.

Definition splhigh : prog := Do Splhigh Ret.
Definition splx (spl : Z) : prog := Do (Splx spl) Ret.
Definition thread_sleep (chan : Z) : prog := Do (ThreadSleep chan) Ret.
Definition thread_wakeup (chan : Z) : prog := Do (ThreadWakeup chan) Ret.
Definition thread_wakeone (chan : Z) : prog := Do (ThreadWakeone chan) Ret.
Definition thread_hassleepers (chan : Z) : prog := Do (ThreadHassleepers chan) Ret.
Definition kmalloc (t : ctype) : prog := Do (Kmalloc t) Ret.
Definition kstrdup (str : string) : prog := Do (Kstrdup str) Ret.
Definition kfree (p : Z) : prog := Do (Kfree p) Ret.
Definition load (l : loc) : prog := Do (Load l) Ret.
Definition store (l : loc) (v : Z) : prog := Do (Store l v) Ret.
Definition assert (e : Z) : prog := Assert (c_true e) (Ret 0).
Definition while (cond body : prog) : prog := While cond body (Ret 0).

Notation "p '->>' f" := (Field p f) (at level 20, no associativity).

(** ** Semaphore *)

Definition sem_create (namearg : string) (initial_count : Z) : prog :=
  sem <- kmalloc struct_semaphore ;;
  if sem =? NULL then Ret NULL else
  nm <- kstrdup namearg ;;
  store (sem ->> sem_name) nm ;;
  nm' <- load (sem ->> sem_name) ;;
  if nm' =? NULL then (kfree sem ;; Ret NULL) else
  store (sem ->> sem_count) initial_count ;;
  Ret sem.

Definition sem_destroy (sem : Z) : prog :=
  assert (c_ne sem NULL) ;;
  spl <- splhigh ;;
  n <- thread_hassleepers sem ;;
  assert (c_eq n 0) ;;
  splx spl ;;
  nm <- load (sem ->> sem_name) ;;
  kfree nm ;;
  kfree sem.

Definition P (sem : Z) : prog :=
  assert (c_ne sem NULL) ;;
  ii <- load G_in_interrupt ;;
  assert (c_eq ii 0) ;;
  spl <- splhigh ;;
  while (c <- load (sem ->> sem_count) ;; Ret (c_eq c 0))
        (thread_sleep sem) ;;
  c <- load (sem ->> sem_count) ;;
  assert (c_gt c 0) ;;
  c <- load (sem ->> sem_count) ;;
  store (sem ->> sem_count) (wrap_int (c - 1)) ;;
  splx spl.

Definition V (sem : Z) : prog :=
  assert (c_ne sem NULL) ;;
  spl <- splhigh ;;
  c <- load (sem ->> sem_count) ;;
  store (sem ->> sem_count) (wrap_int (c + 1)) ;;
  c <- load (sem ->> sem_count) ;;
  assert (c_gt c 0) ;;
  thread_wakeup sem ;;
  splx spl.

(** ** Lock *)

Definition lock_create (name : string) : prog :=
  lock <- kmalloc struct_lock ;;
  if lock =? NULL then Ret NULL else
  nm <- kstrdup name ;;
  store (lock ->> lock_name) nm ;;
  nm' <- load (lock ->> lock_name) ;;
  if nm' =? NULL then (kfree lock ;; Ret NULL) else
  store (lock ->> lk_holder) NULL ;;
  Ret lock.

Definition lock_destroy (lock : Z) : prog :=
  assert (c_ne lock NULL) ;;
  nm <- load (lock ->> lock_name) ;;
  kfree nm ;;
  kfree lock.

Definition lock_acquire (lock : Z) : prog :=
  assert (c_ne lock NULL) ;;
  spl <- splhigh ;;
  while (h <- load (lock ->> lk_holder) ;; Ret (c_ne h NULL))
        (thread_sleep lock) ;;
  me <- load G_curthread ;;
  store (lock ->> lk_holder) me ;;
  splx spl.

Definition lock_release (lock : Z) : prog :=
  assert (c_ne lock NULL) ;;
  spl <- splhigh ;;
  store (lock ->> lk_holder) NULL ;;
  thread_wakeup lock ;;
  splx spl.

Definition lock_do_i_hold (lock : Z) : prog :=
  h <- load (lock ->> lk_holder) ;;
  me <- load G_curthread ;;
  Ret (c_eq h me).

(** ** Condition variable *)

Definition cv_create (name : string) : prog :=
  cv <- kmalloc struct_cv ;;
  if cv =? NULL then Ret NULL else
  nm <- kstrdup name ;;
  store (cv ->> cv_name) nm ;;
  nm' <- load (cv ->> cv_name) ;;
  if nm' =? NULL then (kfree cv ;; Ret NULL) else
  Ret cv.

Definition cv_destroy (cv : Z) : prog :=
  assert (c_ne cv NULL) ;;
  nm <- load (cv ->> cv_name) ;;
  kfree nm ;;
  kfree cv.

Definition cv_wait (cv lock : Z) : prog :=
  assert (c_ne cv NULL) ;;
  assert (c_ne lock NULL) ;;
  held <- lock_do_i_hold lock ;;
  assert held ;;
  spl <- splhigh ;;
  lock_release lock ;;
  thread_sleep cv ;;
  splx spl ;;
  lock_acquire lock.

Definition cv_signal (cv lock : Z) : prog :=
  assert (c_ne cv NULL) ;;
  assert (c_ne lock NULL) ;;
  held <- lock_do_i_hold lock ;;
  assert held ;;
  thread_wakeone cv.

Definition cv_broadcast (cv lock : Z) : prog :=
  assert (c_ne cv NULL) ;;
  assert (c_ne lock NULL) ;;
  held <- lock_do_i_hold lock ;;
  assert held ;;
  spl <- splhigh ;;
  thread_wakeup cv ;;
  splx spl.

(** ** Running one thread *)

Definition is_sleep (c : cmd) : bool :=
  match c with ThreadSleep _ => true | _ => false end.

Inductive sres :=
| SDone (v : Z)                       (* the program has returned *)
| SNext (s : kstate) (p : prog)       (* one command done *)
| SYield (s : kstate) (p : prog)      (* gone to sleep, p is left to do *)
| SPanic                              (* an assertion failed *)
| SFault.                             (* an access to invalid memory *)

Definition step (p : prog) (s : kstate) : sres :=
  match p with
  | Ret v => SDone v
  | Do c k =>
      match exec_cmd c s with
      | Some (v, s') => if is_sleep c then SYield s' (k v) else SNext s' (k v)
      | None => SFault
      end
  | Assert b k => if b then SNext s k else SPanic
  | While c b k =>
      SNext s (r <- c ;; if c_true r then (b ;; While c b k) else k)
  end.

Inductive outcome :=
| Done (v : Z) (s : kstate)        (* returned v *)
| Panic (s : kstate)               (* halted by a failed assertion *)
| Fault (s : kstate)
| Blocked (s : kstate) (p : prog)  (* asleep on a wait channel *)
| Timeout.

(** The calling thread runs alone until it returns, halts or goes to
    sleep. *)
Fixpoint run (fuel : nat) (p : prog) (s : kstate) : outcome :=
  match fuel with
  | O => Timeout
  | S n =>
      match step p s with
      | SDone v => Done v s
      | SNext s' p' => run n p' s'
      | SYield s' p' => Blocked s' p'
      | SPanic => Panic s
      | SFault => Fault s
      end
  end.

(** ** One processor, many threads *)

(** What a thread asks of this module. *)
Inductive call :=
| CSemCreate (name : string) (initial_count : Z)
| CSemDestroy (sem : Z)
| CP (sem : Z)
| CV (sem : Z)
| CLockCreate (name : string)
| CLockDestroy (lock : Z)
| CLockAcquire (lock : Z)
| CLockRelease (lock : Z)
| CLockDoIHold (lock : Z)
| CCvCreate (name : string)
| CCvDestroy (cv : Z)
| CCvWait (cv lock : Z)
| CCvSignal (cv lock : Z)
| CCvBroadcast (cv lock : Z).

Definition call_prog (c : call) : prog :=
  match c with
  | CSemCreate n i => sem_create n i
  | CSemDestroy s => sem_destroy s
  | CP s => P s
  | CV s => V s
  | CLockCreate n => lock_create n
  | CLockDestroy l => lock_destroy l
  | CLockAcquire l => lock_acquire l
  | CLockRelease l => lock_release l
  | CLockDoIHold l => lock_do_i_hold l
  | CCvCreate n => cv_create n
  | CCvDestroy c => cv_destroy c
  | CCvWait c l => cv_wait c l
  | CCvSignal c l => cv_signal c l
  | CCvBroadcast c l => cv_broadcast c l
  end.

(** A thread is in the middle of one call: [t_code] is what is left of
    it, a [Ret] once it has returned and before the first call.  It has
    further calls to make, and its interrupt level is kept in [t_spl]
    while another thread has the processor. *)
Record thread := mkT {
  t_call : option call;
  t_code : prog;
  t_todo : list call;
  t_spl : Z
}.

Record machine := mkM {
  m_k : kstate;
  m_pool : gmap Z thread
}.

Definition asleep (t : Z) (s : kstate) : bool :=
  existsb (fun e => e.1 =? t) (sleepers s).

Definition finished (th : thread) : bool :=
  match t_code th, t_todo th with
  | Ret _, [] => true
  | _, _ => false
  end.

Inductive decision :=
| Run               (* the current thread does its next command *)
| Switch (t : Z).   (* the processor is given to thread t *)

Inductive mres :=
| MOk (m : machine)
| MPanic
| MFault
| MStuck.

Definition set_code (th : thread) (p : prog) : thread :=
  mkT (t_call th) p (t_todo th) (t_spl th).

(** Modelled from the spec: the scheduler is not part of the sources.
    There is one processor and scheduling is preemptive: the processor
    changes hands only when interrupts are enabled, or when the current
    thread has gone to sleep or has nothing left to do; the thread that
    gets it must be awake.  Each thread finds the interrupt level it
    left.  A failed assertion halts the kernel. *)
Definition mstep (d : decision) (m : machine) : mres :=
  let k := m_k m in
  let cur := curthread k in
  match m_pool m !! cur with
  | None => MStuck
  | Some th =>
      match d with
      | Run =>
          if asleep cur k then MStuck else
          match step (t_code th) k with
          | SDone _ =>
              match t_todo th with
              | [] => MStuck
              | c :: rest =>
                  MOk (mkM k (<[cur := mkT (Some c) (call_prog c) rest (t_spl th)]> (m_pool m)))
              end
          | SNext k' p' => MOk (mkM k' (<[cur := set_code th p']> (m_pool m)))
          | SYield k' p' => MOk (mkM k' (<[cur := set_code th p']> (m_pool m)))
          | SPanic => MPanic
          | SFault => MFault
          end
      | Switch r =>
          match m_pool m !! r with
          | None => MStuck
          | Some thr =>
              if (r =? cur) || asleep r k then MStuck else
              if (curspl k =? 0) || asleep cur k || finished th then
                MOk (mkM (set_spl (t_spl thr) (set_curthread r k))
                         (<[cur := mkT (t_call th) (t_code th) (t_todo th) (curspl k)]>
                            (m_pool m)))
              else MStuck
          end
      end
  end.

Fixpoint mrun (sched : list decision) (m : machine) : mres :=
  match sched with
  | [] => MOk m
  | d :: sched' =>
      match mstep d m with
      | MOk m' => mrun sched' m'
      | r => r
      end
  end.

Definition reachable (m0 m : machine) : Prop :=
  exists sched, mrun sched m0 = MOk m.

(** ** Queries, programs that only read *)

Fixpoint only_loads (p : prog) : Prop :=
  match p with
  | Ret _ => True
  | Do c k => (exists l, c = Load l) /\ forall v, only_loads (k v)
  | Assert _ k => only_loads k
  | While c b k => only_loads c /\ only_loads b /\ only_loads k
  end.

(** ** A small kernel to evaluate on

    A semaphore at 10 with count 1, a lock at 20 held by thread 7, a
    condition variable at 30, their names, and four sleeping threads;
    thread 1 has the processor, with interrupts enabled. *)
Definition ex_heap : gmap Z obj :=
  <[10 := OSem 11 1]> (<[11 := OStr "sem"]>
  (<[20 := OLock 21 7]> (<[21 := OStr "lock"]>
  (<[30 := OCv 31]> (<[31 := OStr "cv"]> ∅))))).

Definition ex_state : kstate :=
  mkK ex_heap 100 5 0 0 1 [(2, 20); (3, 10); (4, 30); (5, 30)] [].

(** The same kernel with nobody asleep and the lock free. *)
Definition ex_quiet : kstate :=
  mkK (<[20 := OLock 21 NULL]> ex_heap) 100 5 0 0 1 [] [].

(** The same kernel with the lock held by thread 1, the current thread. *)
Definition ex_held : kstate :=
  mkK (<[20 := OLock 21 1]> ex_heap) 100 5 0 0 1 [(4, 30); (5, 30)] [].

(** Both again, entered from an interrupt handler. *)
Definition ex_intr : kstate :=
  mkK (<[20 := OLock 21 NULL]> ex_heap) 100 5 SPL_HIGH 1 1 [] [].

Definition ex_intr_held : kstate :=
  mkK (<[20 := OLock 21 1]> ex_heap) 100 5 SPL_HIGH 1 1 [] [].

(** A semaphore whose count is the largest [int]. *)
Definition ex_full : kstate :=
  mkK (<[10 := OSem 11 INT_MAX]> ex_heap) 100 5 0 0 1 [] [].

(** ** Machines to start from *)

Definition is_ret (p : prog) : bool :=
  match p with Ret _ => true | _ => false end.

Definition map_all {A} (f : A -> bool) (m : gmap Z A) : bool :=
  forallb (fun e => f e.2) (map_to_list m).

(** Every thread is between two calls. *)
Definition idle_pool (pool : gmap Z thread) : bool :=
  map_all (fun th => is_ret (t_code th)) pool.

Definition is_pv (c : call) : bool :=
  match c with CP _ | CV _ => true | _ => false end.

(** Every thread is between two calls and has only [P] and [V] to do. *)
Definition pv_pool (pool : gmap Z thread) : bool :=
  map_all (fun th => is_ret (t_code th) && forallb is_pv (t_todo th)) pool.

(** The counts of the semaphores are those of semaphores created with a
    count that is not negative. *)
Definition count_in_range (o : obj) : bool :=
  match o with
  | OSem _ c => (0 <=? c) && (c <=? INT_MAX)
  | _ => true
  end.

Definition pv_boot (m : machine) : bool :=
  pv_pool (m_pool m) && map_all count_in_range (heap (m_k m)).

Definition counts_ok (k : kstate) : Prop :=
  forall sem nm c, heap k !! sem = Some (OSem nm c) -> 0 <= c <= INT_MAX.

(** The kernel is about to halt: no other thread can get the processor,
    and the current thread fails an assertion at its next command, or at
    the one after. *)
Definition halts_now (m : machine) : Prop :=
  mstep Run m = MPanic /\ forall r, mstep (Switch r) m = MStuck.

Definition halting (m : machine) : Prop :=
  halts_now m \/
  ((forall r, mstep (Switch r) m = MStuck) /\
   exists m', mstep Run m = MOk m' /\ halts_now m').

(** ** Program points of [P] and [V] *)

Definition P_cond (sem : Z) : prog :=
  c <- load (sem ->> sem_count) ;; Ret (c_eq c 0).

Definition P_decr (sem spl : Z) : prog :=
  c <- load (sem ->> sem_count) ;;
  store (sem ->> sem_count) (wrap_int (c - 1)) ;;
  splx spl.

Definition P_tail (sem spl : Z) : prog :=
  c <- load (sem ->> sem_count) ;;
  assert (c_gt c 0) ;;
  P_decr sem spl.

Definition P_loop (sem spl : Z) : prog :=
  While (P_cond sem) (thread_sleep sem) (P_tail sem spl).

Definition V_check (sem spl : Z) : prog :=
  c <- load (sem ->> sem_count) ;;
  assert (c_gt c 0) ;;
  thread_wakeup sem ;;
  splx spl.

Inductive pvpt :=
| P0 | P1 | P2 (ii : Z) | P3
| P4 (spl : Z) | P5 (spl : Z) | P6 (spl : Z) | P7 (spl : Z)
| P8 (spl c : Z) | P9 (spl : Z) | P10 (spl c : Z) | P11 (spl : Z)
| V0 | V1 | V2 (spl : Z) | V3 (spl c : Z) | V4 (spl : Z)
| V5 (spl c : Z) | V6 (spl : Z) | V7 (spl : Z)
| PVret (v : Z).

(** What is left of the call at each point. *)
Definition pv_code (sem : Z) (pt : pvpt) : prog :=
  match pt with
  | P0 => P sem
  | P1 => ii <- load G_in_interrupt ;; assert (c_eq ii 0) ;;
          spl <- splhigh ;; P_loop sem spl
  | P2 ii => assert (c_eq ii 0) ;; spl <- splhigh ;; P_loop sem spl
  | P3 => spl <- splhigh ;; P_loop sem spl
  | P4 spl => P_loop sem spl
  | P5 spl => c <- load (sem ->> sem_count) ;;
              if c_true (c_eq c 0) then (thread_sleep sem ;; P_loop sem spl)
              else P_tail sem spl
  | P6 spl => thread_sleep sem ;; P_loop sem spl
  | P7 spl => P_tail sem spl
  | P8 spl c => assert (c_gt c 0) ;; P_decr sem spl
  | P9 spl => P_decr sem spl
  | P10 spl c => store (sem ->> sem_count) (wrap_int (c - 1)) ;; splx spl
  | P11 spl => splx spl
  | V0 => V sem
  | V1 => spl <- splhigh ;;
          c <- load (sem ->> sem_count) ;;
          store (sem ->> sem_count) (wrap_int (c + 1)) ;;
          V_check sem spl
  | V2 spl => c <- load (sem ->> sem_count) ;;
              store (sem ->> sem_count) (wrap_int (c + 1)) ;;
              V_check sem spl
  | V3 spl c => store (sem ->> sem_count) (wrap_int (c + 1)) ;; V_check sem spl
  | V4 spl => V_check sem spl
  | V5 spl c => assert (c_gt c 0) ;; thread_wakeup sem ;; splx spl
  | V6 spl => thread_wakeup sem ;; splx spl
  | V7 spl => splx spl
  | PVret v => Ret v
  end.

(** Points inside a raised-level region that the thread cannot have
    slept at, and the point a sleeper wakes up at. *)
Definition pv_crit (pt : pvpt) : bool :=
  match pt with
  | P5 _ | P6 _ | P7 _ | P8 _ _ | P9 _ | P10 _ _ | P11 _
  | V2 _ | V3 _ _ | V4 _ | V5 _ _ | V6 _ | V7 _ => true
  | _ => false
  end.

Definition pv_head (pt : pvpt) : bool :=
  match pt with P4 _ => true | _ => false end.

(** What the thread at a point knows about its semaphore. *)
Definition pv_local (sem : Z) (pt : pvpt) (k : kstate) : Prop :=
  match pt with
  | P8 _ c | V3 _ c | V5 _ c => exists nm, heap k !! sem = Some (OSem nm c)
  | P9 _ => exists nm c, heap k !! sem = Some (OSem nm c) /\ 0 < c
  | P10 _ c => (exists nm, heap k !! sem = Some (OSem nm c)) /\ 0 < c
  | _ => True
  end.

(** The interrupt level a thread runs at, or will run at when it next
    gets the processor. *)
Definition eff_spl (k : kstate) (t : Z) (th : thread) : Z :=
  if t =? curthread k then curspl k else t_spl th.

Definition pv_thread_ok (k : kstate) (t : Z) (th : thread) : Prop :=
  forallb is_pv (t_todo th) = true /\
  exists sem pt,
    t_code th = pv_code sem pt
    /\ (pv_crit pt = true ->
        t = curthread k /\ asleep t k = false /\ pv_local sem pt k)
    /\ (pv_crit pt || pv_head pt = true -> eff_spl k t th <> 0).

Definition pv_good (m : machine) : Prop :=
  counts_ok (m_k m) /\
  forall t th, m_pool m !! t = Some th -> pv_thread_ok (m_k m) t th.

(** The thread has done one command, going to sleep or not. *)
Definition moved (r : sres) (k' : kstate) (p' : prog) : Prop :=
  r = SNext k' p' \/ r = SYield k' p'.

(** ** Scenarios *)

(** A thread that has not called anything yet. *)
Definition idle (todo : list call) : thread := mkT None (Ret 0) todo 0.

(** Scenario A of the spec: a semaphore of count 1, thread 1 takes it,
    thread 2 blocks on it, thread 1 gives it back, thread 2 gets it. *)
Definition scenario_A : machine :=
  mkM ex_quiet (<[1 := idle [CP 10; CV 10]]> (<[2 := idle [CP 10]]> ∅)).

Definition schedule_A : list decision :=
  repeat Run 12 ++ [Switch 2] ++ repeat Run 8 ++ [Switch 1] ++
  repeat Run 9 ++ [Switch 2] ++ repeat Run 7.

(** One thread calls [V] on a semaphore that is full. *)
Definition scenario_full : machine :=
  mkM ex_full (<[1 := idle [CV 10]]> ∅).

(** One thread creates a semaphore with the largest [int] as its count
    and calls [V] on it; in [ex_quiet] the new record is the block 100. *)
Definition scenario_wrap : machine :=
  mkM ex_quiet (<[1 := idle [CSemCreate "full" INT_MAX; CV 100]]> ∅).

(** ** Program points of [cv_wait] *)

Definition acq_cond (lock : Z) : prog :=
  h <- load (lock ->> lk_holder) ;; Ret (c_ne h NULL).

Definition acq_tail (lock spl : Z) : prog :=
  me <- load G_curthread ;;
  store (lock ->> lk_holder) me ;;
  splx spl.

Definition acq_loop (lock spl : Z) : prog :=
  While (acq_cond lock) (thread_sleep lock) (acq_tail lock spl).

Definition cw_sleep (cv lock spl : Z) : prog :=
  thread_sleep cv ;; splx spl ;; lock_acquire lock.

Definition cw_rest (cv lock : Z) : prog :=
  spl <- splhigh ;; lock_release lock ;; cw_sleep cv lock spl.

Inductive cwpt :=
| W0 | W1 | W2 | W3 (h : Z) | W4 (h me : Z) | W5
| W6 (spl : Z) | W7 (spl : Z) | W8 (spl spl' : Z) | W9 (spl spl' : Z)
| W10 (spl spl' : Z) | W11 (spl : Z) | W12 (spl : Z)
| A0 | A1 | A2 (spl : Z) | A3 (spl : Z) | A4 (spl : Z) | A5 (spl : Z)
| A6 (spl me : Z) | A7 (spl : Z)
| Wret (v : Z).

(** What is left of the call at each point; the A points are those of
    the [lock_acquire] that ends it. *)
Definition cw_code (cv lock : Z) (pt : cwpt) : prog :=
  match pt with
  | W0 => cv_wait cv lock
  | W1 => assert (c_ne lock NULL) ;;
          held <- lock_do_i_hold lock ;; assert held ;; cw_rest cv lock
  | W2 => held <- lock_do_i_hold lock ;; assert held ;; cw_rest cv lock
  | W3 h => me <- load G_curthread ;; assert (c_eq h me) ;; cw_rest cv lock
  | W4 h me => assert (c_eq h me) ;; cw_rest cv lock
  | W5 => cw_rest cv lock
  | W6 spl => lock_release lock ;; cw_sleep cv lock spl
  | W7 spl => spl' <- splhigh ;;
              store (lock ->> lk_holder) NULL ;;
              thread_wakeup lock ;;
              splx spl' ;;
              cw_sleep cv lock spl
  | W8 spl spl' => store (lock ->> lk_holder) NULL ;;
                   thread_wakeup lock ;;
                   splx spl' ;;
                   cw_sleep cv lock spl
  | W9 spl spl' => thread_wakeup lock ;; splx spl' ;; cw_sleep cv lock spl
  | W10 spl spl' => splx spl' ;; cw_sleep cv lock spl
  | W11 spl => cw_sleep cv lock spl
  | W12 spl => splx spl ;; lock_acquire lock
  | A0 => lock_acquire lock
  | A1 => spl <- splhigh ;; acq_loop lock spl
  | A2 spl => acq_loop lock spl
  | A3 spl => h <- load (lock ->> lk_holder) ;;
              if c_true (c_ne h NULL) then (thread_sleep lock ;; acq_loop lock spl)
              else acq_tail lock spl
  | A4 spl => thread_sleep lock ;; acq_loop lock spl
  | A5 spl => acq_tail lock spl
  | A6 spl me => store (lock ->> lk_holder) me ;; splx spl
  | A7 spl => splx spl
  | Wret v => Ret v
  end.

Definition cw_crit (pt : cwpt) : bool :=
  match pt with
  | A3 _ | A4 _ | A5 _ | A6 _ _ | A7 _ => true
  | _ => false
  end.

Definition cw_head (pt : cwpt) : bool :=
  match pt with A2 _ => true | _ => false end.

Definition cw_local (lock : Z) (pt : cwpt) (k : kstate) : Prop :=
  match pt with
  | A6 _ me => me = curthread k
  | A7 _ => exists nm, heap k !! lock = Some (OLock nm (curthread k))
  | _ => True
  end.

Definition cw_thread_ok (k : kstate) (t : Z) (th : thread) : Prop :=
  forall cv lock, t_call th = Some (CCvWait cv lock) ->
  exists pt,
    t_code th = cw_code cv lock pt
    /\ (cw_crit pt = true ->
        t = curthread k /\ asleep t k = false /\ cw_local lock pt k)
    /\ (cw_crit pt || cw_head pt = true -> eff_spl k t th <> 0).

Definition cw_good (m : machine) : Prop :=
  forall t th, m_pool m !! t = Some th -> cw_thread_ok (m_k m) t th.

(** Scenario C of the spec: thread 1 takes the lock and waits on the
    condition variable; thread 2 takes the lock, signals and releases it;
    thread 1 wakes up and returns from [cv_wait]. *)
Definition scenario_C : machine :=
  mkM ex_quiet
    (<[1 := idle [CLockAcquire 20; CCvWait 30 20; CLockRelease 20]]>
    (<[2 := idle [CLockAcquire 20; CCvSignal 30 20; CLockRelease 20]]> ∅)).

Definition schedule_C : list decision :=
  repeat Run 21 ++ [Switch 2] ++ repeat Run 21 ++ [Switch 1] ++ repeat Run 7.

(** Scenario B of the spec: two threads want the same free lock. *)
Definition scenario_B : machine :=
  mkM ex_quiet
    (<[1 := idle [CLockAcquire 20; CLockRelease 20]]>
    (<[2 := idle [CLockAcquire 20; CLockRelease 20]]> ∅)).

Definition schedule_B : list decision :=
  repeat Run 8 ++ [Switch 2] ++ repeat Run 6 ++ [Switch 1] ++
  repeat Run 6 ++ [Switch 2] ++ repeat Run 11.

(** Scenario D of the spec: three threads wait, a fourth broadcasts. *)
Definition scenario_D : machine :=
  mkM ex_quiet
    (<[1 := idle [CLockAcquire 20; CCvWait 30 20; CLockRelease 20]]>
    (<[2 := idle [CLockAcquire 20; CCvWait 30 20; CLockRelease 20]]>
    (<[3 := idle [CLockAcquire 20; CCvWait 30 20; CLockRelease 20]]>
    (<[4 := idle [CLockAcquire 20; CCvBroadcast 30 20; CLockRelease 20]]> ∅)))).

Definition schedule_D : list decision :=
  repeat Run 21 ++ [Switch 2] ++ repeat Run 21 ++ [Switch 3] ++ repeat Run 21 ++
  [Switch 4] ++ repeat Run 23 ++
  [Switch 1] ++ repeat Run 14 ++ [Switch 2] ++ repeat Run 14 ++
  [Switch 3] ++ repeat Run 14.

(** Whether every thread of the pool has made all its calls. *)
Definition all_finished (m : machine) : bool := map_all finished (m_pool m).

(** The small kernel with the semaphore at 0 and interrupts enabled. *)
Definition ex_empty : kstate :=
  mkK (<[10 := OSem 11 0]> ex_heap) 100 5 0 0 1 [] [].

(** ** Programs that cannot sleep *)

Fixpoint no_sleep (p : prog) : Prop :=
  match p with
  | Ret _ => True
  | Do c k => is_sleep c = false /\ forall v, no_sleep (k v)
  | Assert _ k => no_sleep k
  | While c b k => no_sleep c /\ no_sleep b /\ no_sleep k
  end.

Definition may_block (c : call) : bool :=
  match c with
  | CP _ | CLockAcquire _ | CCvWait _ _ => true
  | _ => false
  end.

(** ** The interrupt level along a program

    [ipl_wp p now K]: run from the level [now], whatever the commands of
    [p] read or find, [p] can only return at a level that satisfies [K].
    A loop needs an invariant of the level at its head. *)
Fixpoint ipl_wp (p : prog) (now : Z) (K : Z -> Prop) : Prop :=
  match p with
  | Ret _ => K now
  | Do c k =>
      match c with
      | Splhigh => ipl_wp (k now) SPL_HIGH K
      | Splx l => ipl_wp (k 0) l K
      | _ => forall v, ipl_wp (k v) now K
      end
  | Assert _ k => ipl_wp k now K
  | While c b k =>
      exists I : Z -> Prop,
        I now /\
        forall l, I l -> ipl_wp c l (fun l' => ipl_wp b l' I /\ ipl_wp k l' K)
  end.

(** Thread [t] can only return from what it is doing at level [L]. *)
Definition ipl_kept (L t : Z) (m : machine) : Prop :=
  forall th, m_pool m !! t = Some th ->
  ipl_wp (t_code th) (eff_spl (m_k m) t th) (fun l => l = L).

(** ** Threads that use one lock as a lock

    Each thread calls [lock_acquire] and [lock_release] on the lock in
    turn, starting with [lock_acquire]. *)
Fixpoint alternates (lock : Z) (acq : bool) (todo : list call) : bool :=
  match todo with
  | [] => true
  | c :: rest =>
      match acq, c with
      | true, CLockAcquire l => (l =? lock) && alternates lock false rest
      | false, CLockRelease l => (l =? lock) && alternates lock true rest
      | _, _ => false
      end
  end.

Definition no_call (th : thread) : bool :=
  match t_call th with None => true | Some _ => false end.

Definition lock_boot (lock : Z) (pool : gmap Z thread) : bool :=
  forallb (fun e => negb (e.1 =? NULL) && is_ret (t_code e.2) && no_call e.2
                    && alternates lock true (t_todo e.2))
          (map_to_list pool).

(** The thread has returned from [lock_acquire] and has not yet called
    [lock_release]. *)
Definition in_cs (lock : Z) (th : thread) : Prop :=
  t_call th = Some (CLockAcquire lock) /\ is_ret (t_code th) = true.

Inductive lkpt :=
| LIdle (v : Z)
| LA0 | LA1 | LA2 (spl : Z) | LA3 (spl : Z) | LA4 (spl : Z) | LA5 (spl : Z)
| LA6 (spl me : Z) | LA7 (spl : Z)
| LHeld (v : Z)
| LR0 | LR1 | LR2 (spl : Z) | LR3 (spl : Z) | LR4 (spl : Z).

Definition lk_code (lock : Z) (pt : lkpt) : prog :=
  match pt with
  | LIdle v => Ret v
  | LA0 => lock_acquire lock
  | LA1 => spl <- splhigh ;; acq_loop lock spl
  | LA2 spl => acq_loop lock spl
  | LA3 spl => h <- load (lock ->> lk_holder) ;;
               if c_true (c_ne h NULL) then (thread_sleep lock ;; acq_loop lock spl)
               else acq_tail lock spl
  | LA4 spl => thread_sleep lock ;; acq_loop lock spl
  | LA5 spl => acq_tail lock spl
  | LA6 spl me => store (lock ->> lk_holder) me ;; splx spl
  | LA7 spl => splx spl
  | LHeld v => Ret v
  | LR0 => lock_release lock
  | LR1 => spl <- splhigh ;;
           store (lock ->> lk_holder) NULL ;; thread_wakeup lock ;; splx spl
  | LR2 spl => store (lock ->> lk_holder) NULL ;; thread_wakeup lock ;; splx spl
  | LR3 spl => thread_wakeup lock ;; splx spl
  | LR4 spl => splx spl
  end.

(** The call a point belongs to and what is still to be called. *)
Definition lk_call_ok (lock : Z) (pt : lkpt) (c : option call) (todo : list call) : Prop :=
  match pt with
  | LIdle _ => c <> Some (CLockAcquire lock) /\ alternates lock true todo = true
  | LA0 | LA1 | LA2 _ | LA3 _ | LA4 _ | LA5 _ | LA6 _ _ | LA7 _ | LHeld _ =>
      c = Some (CLockAcquire lock) /\ alternates lock false todo = true
  | LR0 | LR1 | LR2 _ | LR3 _ | LR4 _ =>
      c = Some (CLockRelease lock) /\ alternates lock true todo = true
  end.

(** The points at which the thread is the holder. *)
Definition lk_holds (pt : lkpt) : bool :=
  match pt with
  | LA7 _ | LHeld _ | LR0 | LR1 | LR2 _ => true
  | _ => false
  end.

Definition lk_crit (pt : lkpt) : bool :=
  match pt with
  | LA3 _ | LA4 _ | LA5 _ | LA6 _ _ | LA7 _ | LR2 _ | LR3 _ | LR4 _ => true
  | _ => false
  end.

Definition lk_head (pt : lkpt) : bool :=
  match pt with LA2 _ => true | _ => false end.

Definition lk_local (lock : Z) (pt : lkpt) (k : kstate) : Prop :=
  match pt with
  | LA5 _ => exists nm, heap k !! lock = Some (OLock nm NULL)
  | LA6 _ me => me = curthread k /\ exists nm, heap k !! lock = Some (OLock nm NULL)
  | _ => True
  end.

Definition lk_thread_ok (lock : Z) (k : kstate) (t : Z) (th : thread) : Prop :=
  t <> NULL /\
  exists pt,
    t_code th = lk_code lock pt
    /\ lk_call_ok lock pt (t_call th) (t_todo th)
    /\ (lk_holds pt = true -> exists nm, heap k !! lock = Some (OLock nm t))
    /\ (lk_crit pt = true ->
        t = curthread k /\ asleep t k = false /\ lk_local lock pt k)
    /\ (lk_crit pt || lk_head pt = true -> eff_spl k t th <> 0).

Definition lk_good (lock : Z) (m : machine) : Prop :=
  forall t th, m_pool m !! t = Some th -> lk_thread_ok lock (m_k m) t th.

(** ** [lock_acquire] among arbitrary threads

    The points of a plain [lock_acquire] are the A points of [cw_code]. *)
Definition la_thread_ok (k : kstate) (t : Z) (th : thread) : Prop :=
  forall lock, t_call th = Some (CLockAcquire lock) ->
  exists pt,
    t_code th = cw_code NULL lock pt
    /\ (cw_crit pt = true ->
        t = curthread k /\ asleep t k = false /\ cw_local lock pt k)
    /\ (cw_crit pt || cw_head pt = true -> eff_spl k t th <> 0).

Definition la_good (m : machine) : Prop :=
  forall t th, m_pool m !! t = Some th -> la_thread_ok (m_k m) t th.

(** ** Threads that use one semaphore as a lock

    Each thread calls [P] and [V] on the semaphore in turn, starting with
    [P]. *)
Fixpoint brackets (sem : Z) (p : bool) (todo : list call) : bool :=
  match todo with
  | [] => true
  | c :: rest =>
      match p, c with
      | true, CP x => (x =? sem) && brackets sem false rest
      | false, CV x => (x =? sem) && brackets sem true rest
      | _, _ => false
      end
  end.

Definition sem_boot (sem : Z) (pool : gmap Z thread) : bool :=
  map_all (fun th => is_ret (t_code th) && no_call th
                     && brackets sem true (t_todo th)) pool.

(** The thread has returned from [P] and has not yet called [V]. *)
Definition in_bracket (sem : Z) (th : thread) : Prop :=
  t_call th = Some (CP sem) /\ is_ret (t_code th) = true.

Definition after_P (c : option call) : bool :=
  match c with Some (CP _) => true | _ => false end.

(** The points between the decrement of [P] and the increment of [V]. *)
Definition sx_sect (pt : pvpt) (c : option call) : bool :=
  match pt with
  | P11 _ | V0 | V1 | V2 _ | V3 _ _ => true
  | PVret _ => after_P c
  | _ => false
  end.

Definition sx_call_ok (sem : Z) (pt : pvpt) (c : option call) (todo : list call) : Prop :=
  match pt with
  | P0 | P1 | P2 _ | P3 | P4 _ | P5 _ | P6 _ | P7 _ | P8 _ _ | P9 _
  | P10 _ _ | P11 _ =>
      c = Some (CP sem) /\ brackets sem false todo = true
  | V0 | V1 | V2 _ | V3 _ _ | V4 _ | V5 _ _ | V6 _ | V7 _ =>
      c = Some (CV sem) /\ brackets sem true todo = true
  | PVret _ =>
      (c = Some (CP sem) /\ brackets sem false todo = true)
      \/ (after_P c = false /\ brackets sem true todo = true)
  end.

Definition owner_count (owner : option Z) : Z :=
  match owner with Some _ => 0 | None => 1 end.

Definition sx_thread_ok (sem : Z) (owner : option Z) (k : kstate) (t : Z) (th : thread) : Prop :=
  exists pt,
    t_code th = pv_code sem pt
    /\ sx_call_ok sem pt (t_call th) (t_todo th)
    /\ (sx_sect pt (t_call th) = true <-> owner = Some t)
    /\ (pv_crit pt = true ->
        t = curthread k /\ asleep t k = false /\ pv_local sem pt k)
    /\ (pv_crit pt || pv_head pt = true -> eff_spl k t th <> 0).

Definition sx_good (sem nm : Z) (m : machine) : Prop :=
  exists owner,
    heap (m_k m) !! sem = Some (OSem nm (owner_count owner))
    /\ forall t th, m_pool m !! t = Some th -> sx_thread_ok sem owner (m_k m) t th.

(** ** Programs that leave the allocator alone *)

Fixpoint no_alloc (p : prog) : Prop :=
  match p with
  | Ret _ => True
  | Do c k =>
      match c with
      | Kmalloc _ | Kstrdup _ | Kfree _ => False
      | _ => forall v, no_alloc (k v)
      end
  | Assert _ k => no_alloc k
  | While c b k => no_alloc c /\ no_alloc b /\ no_alloc k
  end.

Definition allocates (c : call) : bool :=
  match c with
  | CSemCreate _ _ | CSemDestroy _ | CLockCreate _ | CLockDestroy _
  | CCvCreate _ | CCvDestroy _ => true
  | _ => false
  end.

(** The state a run has reached when it stops. *)
Definition last_state (o : outcome) : option kstate :=
  match o with
  | Done _ s | Panic s | Fault s | Blocked s _ => Some s
  | Timeout => None
  end.

(* ================================================================== *)
(** * Proofs *)

(** ** Evaluation lemmas *)

Lemma c_true_ne a b : a ≠ b -> c_true (c_ne a b) = true.
Proof.
  intros. unfold c_true, c_ne. destruct (Z.eqb_spec a b); [done | reflexivity].
Qed.

Lemma c_true_gt a b : c_true (c_gt a b) = (b <? a).
Proof. unfold c_true, c_gt. by destruct (b <? a). Qed.

Lemma c_true_eq a b : c_true (c_eq a b) = (a =? b).
Proof. unfold c_true, c_eq. by destruct (a =? b). Qed.

Lemma wrap_int_id z : INT_MIN <= z <= INT_MAX -> wrap_int z = z.
Proof.
  unfold wrap_int, INT_MIN, INT_MAX. intros H.
  rewrite Z.mod_small by lia. lia.
Qed.

Ltac kcbn :=
  cbn [step bind exec_cmd do_load do_store do_splhigh do_splx
       do_thread_sleep do_thread_wakeup do_thread_wakeone
       do_thread_hassleepers do_alloc do_kfree is_sleep
       heap brk kfree_left curspl in_interrupt curthread sleepers klog
       emit set_heap set_spl set_sleepers set_alloc set_curthread
       read_field write_field blank
       splhigh splx thread_sleep thread_wakeup thread_wakeone
       thread_hassleepers kmalloc kstrdup kfree load store assert while
       fst snd].

Lemma run_S n p s :
  run (S n) p s =
  match step p s with
  | SDone v => Done v s
  | SNext s' p' => run n p' s'
  | SYield s' p' => Blocked s' p'
  | SPanic => Panic s
  | SFault => Fault s
  end.
Proof. reflexivity. Qed.

Ltac kred1 := kcbn; try unfold do_kfree; try unfold do_alloc; kcbn.
Ltac kred := kred1; repeat (rewrite run_S; kred1).

Ltac logeq := rewrite <- ?app_assoc; reflexivity.

Lemma run_more n p s o :
  run n p s = o -> o <> Timeout -> forall m, (n <= m)%nat -> run m p s = o.
Proof.
  revert p s o. induction n as [|n IH]; intros p s o Hr Ho m Hm.
  - simpl in Hr. congruence.
  - destruct m as [|m]; [lia|]. simpl in *.
    destruct (step p s); try exact Hr.
    apply IH; [exact Hr | exact Ho | lia].
Qed.

(** ** Queries change nothing *)

Lemma only_loads_bind p f :
  only_loads p -> (forall v, only_loads (f v)) -> only_loads (bind p f).
Proof.
  induction p as [v|c k IH|b k IH|c IHc b IHb k IHk]; simpl; intros Hp Hf; auto.
  - destruct Hp as [Hc Hk]. split; [exact Hc|]. intros v. apply IH; auto.
  - destruct Hp as (Hc & Hb & Hk). auto.
Qed.

Lemma load_keeps_state l s v s' : do_load l s = Some (v, s') -> s' = s.
Proof.
  destruct l as [p f| |]; simpl.
  - destruct (heap s !! p) as [o|]; [|discriminate].
    destruct (read_field o f); [|discriminate]. congruence.
  - congruence.
  - congruence.
Qed.

Lemma only_loads_step p s s' p' :
  only_loads p -> step p s = SNext s' p' -> s' = s /\ only_loads p'.
Proof.
  destruct p as [v|c k|b k|c b k]; simpl; intros Hp Hs.
  - discriminate.
  - destruct Hp as [[l ->] Hk]. simpl in Hs.
    destruct (do_load l s) as [[v s1]|] eqn:E; [|discriminate].
    injection Hs as <- <-. split; [eapply load_keeps_state; eauto | apply Hk].
  - destruct b; [|discriminate]. injection Hs as <- <-. auto.
  - injection Hs as <- <-. destruct Hp as (Hc & Hb & Hk). split; [reflexivity|].
    apply only_loads_bind; [exact Hc|]. intros v. destruct (c_true v); [|exact Hk].
    apply only_loads_bind; [exact Hb|]. intros _. simpl. auto.
Qed.

(** ** The operations, run by one thread on its own *)

Lemma lock_do_i_hold_run (s : kstate) (lock nm h : Z) :
  heap s !! lock = Some (OLock nm h) ->
  run 3 (lock_do_i_hold lock) s = Done (c_eq h (curthread s)) s.
Proof.
  intros Hl. unfold lock_do_i_hold. kred. rewrite Hl. kred. reflexivity.
Qed.

Lemma lock_release_run (s : kstate) (lock nm h : Z) :
  lock <> NULL ->
  heap s !! lock = Some (OLock nm h) ->
  exists s', run 6 (lock_release lock) s = Done 0 s'
    /\ heap s' = <[lock := OLock nm NULL]> (heap s)
    /\ sleepers s' = filter (fun e => negb (on_chan lock e)) (sleepers s)
    /\ curspl s' = curspl s
    /\ curthread s' = curthread s
    /\ klog s' = klog s ++
         [(curthread s, EvSplhigh);
          (curthread s, EvStore (lock ->> lk_holder) NULL);
          (curthread s, EvWakeup lock);
          (curthread s, EvSplx (curspl s))].
Proof.
  intros Hn Hl. unfold lock_release. kred. rewrite (c_true_ne _ _ Hn). kred.
  rewrite Hl. kred. eexists. split; [reflexivity|]. kred.
  repeat split. logeq.
Qed.

Lemma not_on_chan_filter chan (q : list (Z * Z)) t :
  (t, chan) ∉ filter (fun e => negb (on_chan chan e)) q.
Proof.
  intros Ht. apply list_elem_of_filter in Ht as [Ht _].
  unfold on_chan in Ht. simpl in Ht. rewrite Z.eqb_refl in Ht. exact Ht.
Qed.

(** C7: [lock_do_i_hold] returns true exactly when the lock's holder is
    the calling thread; it returns in the state it was called in (memory,
    interrupt level, sleepers and log of calls all unchanged), never
    sleeps, and every command it executes is a load. *)
Theorem lock_do_i_hold_spec (s : kstate) (lock nm h : Z) :
  heap s !! lock = Some (OLock nm h) ->
  exists v, run 3 (lock_do_i_hold lock) s = Done v s
    /\ (c_true v = true <-> h = curthread s)
    /\ only_loads (lock_do_i_hold lock).
Proof.
  intros Hl. exists (c_eq h (curthread s)). split; [|split].
  - apply (lock_do_i_hold_run s lock nm h Hl).
  - rewrite c_true_eq. apply Z.eqb_eq.
  - simpl. eauto 10.
Qed.

Lemma lock_do_i_hold_spec_witness :
  exists v, run 3 (lock_do_i_hold 20) ex_state = Done v ex_state
    /\ (c_true v = true <-> 7 = curthread ex_state)
    /\ only_loads (lock_do_i_hold 20).
Proof. apply (lock_do_i_hold_spec ex_state 20 21 7). reflexivity. Defined.

(** C5: [lock_release], called by any thread on a lock with any holder,
    returns normally having set the holder to NULL and taken every thread
    sleeping on the lock off the wait channel, inside a raised-level
    region that it leaves at the caller's level.  Nothing compares the
    holder with the caller. *)
Theorem lock_release_spec (s : kstate) (lock nm h : Z) :
  lock <> NULL ->
  heap s !! lock = Some (OLock nm h) ->
  exists s', run 6 (lock_release lock) s = Done 0 s'
    /\ heap s' = <[lock := OLock nm NULL]> (heap s)
    /\ sleepers s' = filter (fun e => negb (on_chan lock e)) (sleepers s)
    /\ (forall t, (t, lock) ∉ sleepers s')
    /\ curspl s' = curspl s
    /\ klog s' = klog s ++
         [(curthread s, EvSplhigh);
          (curthread s, EvStore (lock ->> lk_holder) NULL);
          (curthread s, EvWakeup lock);
          (curthread s, EvSplx (curspl s))].
Proof.
  intros Hn Hl.
  destruct (lock_release_run s lock nm h Hn Hl) as (s' & Hr & Hh & Hq & Hs & _ & Hlog).
  exists s'. repeat split; try assumption.
  intros t. rewrite Hq. apply not_on_chan_filter.
Qed.

(** The witness has thread 1 release the lock at 20 while thread 7 is
    recorded as its holder. *)
Lemma lock_release_spec_witness :
  exists s', run 6 (lock_release 20) ex_state = Done 0 s'
    /\ heap s' = <[20 := OLock 21 NULL]> (heap ex_state)
    /\ sleepers s' = filter (fun e => negb (on_chan 20 e)) (sleepers ex_state)
    /\ (forall t, (t, 20) ∉ sleepers s')
    /\ curspl s' = curspl ex_state
    /\ klog s' = klog ex_state ++
         [(curthread ex_state, EvSplhigh);
          (curthread ex_state, EvStore (20 ->> lk_holder) NULL);
          (curthread ex_state, EvWakeup 20);
          (curthread ex_state, EvSplx (curspl ex_state))].
Proof.
  apply (lock_release_spec ex_state 20 21 7); [unfold NULL; lia | reflexivity].
Defined.

Lemma V_run (s : kstate) (sem nm c : Z) :
  sem <> NULL ->
  heap s !! sem = Some (OSem nm c) ->
  let s1 := set_heap (<[sem := OSem nm (wrap_int (c + 1))]> (heap s))
              (emit (EvStore (sem ->> sem_count) (wrap_int (c + 1)))
                 (set_spl SPL_HIGH (emit EvSplhigh s))) in
  run 9 (V sem) s =
  if 0 <? wrap_int (c + 1) then
    Done 0 (set_spl (curspl s) (emit (EvSplx (curspl s))
              (set_sleepers (filter (fun e => negb (on_chan sem e)) (sleepers s))
                 (emit (EvWakeup sem) s1))))
  else Panic s1.
Proof.
  intros Hn Hs. unfold V. kred. rewrite (c_true_ne _ _ Hn). kred.
  rewrite Hs. kred. rewrite Hs. kred. rewrite lookup_insert_eq. kred.
  rewrite c_true_gt. destruct (0 <? wrap_int (c + 1)); reflexivity.
Qed.

(** C6: [V] raises the interrupt level, stores count + 1, and checks that
    the count is now positive; it then wakes every thread sleeping on the
    semaphore, restores the caller's level and returns.  When the check
    fails the kernel halts inside the raised-level region. *)
Theorem V_spec (s : kstate) (sem nm c : Z) :
  sem <> NULL ->
  heap s !! sem = Some (OSem nm c) ->
  exists s1,
    heap s1 = <[sem := OSem nm (wrap_int (c + 1))]> (heap s)
    /\ curspl s1 = SPL_HIGH
    /\ klog s1 = klog s ++
         [(curthread s, EvSplhigh);
          (curthread s, EvStore (sem ->> sem_count) (wrap_int (c + 1)))]
    /\ if 0 <? wrap_int (c + 1) then
         exists s', run 9 (V sem) s = Done 0 s'
           /\ heap s' = heap s1
           /\ sleepers s' = filter (fun e => negb (on_chan sem e)) (sleepers s)
           /\ (forall t, (t, sem) ∉ sleepers s')
           /\ curspl s' = curspl s
           /\ klog s' = klog s1 ++
                [(curthread s, EvWakeup sem); (curthread s, EvSplx (curspl s))]
       else run 9 (V sem) s = Panic s1.
Proof.
  intros Hn Hs. pose proof (V_run s sem nm c Hn Hs) as Hrun. cbv zeta in Hrun.
  eexists. split; [|split; [|split]]; cycle 3.
  - destruct (0 <? wrap_int (c + 1)); [|exact Hrun].
    eexists. split; [exact Hrun|]. kred. repeat split; [|logeq].
    intros t. apply not_on_chan_filter.
  - reflexivity.
  - reflexivity.
  - kred. logeq.
Qed.

Lemma V_spec_witness :
  exists s1,
    heap s1 = <[10 := OSem 11 (wrap_int (1 + 1))]> (heap ex_state)
    /\ curspl s1 = SPL_HIGH
    /\ klog s1 = klog ex_state ++
         [(curthread ex_state, EvSplhigh);
          (curthread ex_state, EvStore (10 ->> sem_count) (wrap_int (1 + 1)))]
    /\ if 0 <? wrap_int (1 + 1) then
         exists s', run 9 (V 10) ex_state = Done 0 s'
           /\ heap s' = heap s1
           /\ sleepers s' = filter (fun e => negb (on_chan 10 e)) (sleepers ex_state)
           /\ (forall t, (t, 10) ∉ sleepers s')
           /\ curspl s' = curspl ex_state
           /\ klog s' = klog s1 ++
                [(curthread ex_state, EvWakeup 10);
                 (curthread ex_state, EvSplx (curspl ex_state))]
       else run 9 (V 10) ex_state = Panic s1.
Proof.
  apply (V_spec ex_state 10 11 1); [unfold NULL; lia | reflexivity].
Defined.

Lemma existsb_on_chan chan (q : list (Z * Z)) :
  existsb (on_chan chan) q = true <-> exists t, (t, chan) ∈ q.
Proof.
  rewrite existsb_exists. split.
  - intros [[t c] [Hin Hc]]. unfold on_chan in Hc. simpl in Hc.
    apply Z.eqb_eq in Hc. subst c. exists t. by apply list_elem_of_In.
  - intros [t Ht]. exists (t, chan). split; [by apply list_elem_of_In|].
    unfold on_chan. simpl. apply Z.eqb_refl.
Qed.

(** C9: [sem_destroy] looks for sleepers on the semaphore with the
    interrupt level raised.  If there is one the kernel halts there, with
    the heap untouched; otherwise the level is restored, the name and then
    the semaphore record are freed, and the call returns. *)
Theorem sem_destroy_spec (s : kstate) (sem nm c : Z) (str : string) :
  sem <> NULL ->
  heap s !! sem = Some (OSem nm c) ->
  heap s !! nm = Some (OStr str) ->
  if existsb (on_chan sem) (sleepers s) then
    exists s1, run 9 (sem_destroy sem) s = Panic s1
      /\ curspl s1 = SPL_HIGH
      /\ heap s1 = heap s
      /\ klog s1 = klog s ++
           [(curthread s, EvSplhigh); (curthread s, EvHassleepers sem)]
  else
    exists s', run 9 (sem_destroy sem) s = Done 0 s'
      /\ heap s' = delete sem (delete nm (heap s))
      /\ heap s' !! sem = None /\ heap s' !! nm = None
      /\ curspl s' = curspl s
      /\ klog s' = klog s ++
           [(curthread s, EvSplhigh); (curthread s, EvHassleepers sem);
            (curthread s, EvSplx (curspl s));
            (curthread s, EvKfree nm); (curthread s, EvKfree sem)].
Proof.
  intros Hn Hs Hnm.
  assert (Hne : nm <> sem) by (intros ->; congruence).
  unfold sem_destroy. kred. rewrite (c_true_ne _ _ Hn). kred.
  destruct (existsb (on_chan sem) (sleepers s)).
  - change (c_true (c_eq 1 0)) with false. kred.
    eexists. split; [reflexivity|]. kred. repeat split. logeq.
  - change (c_true (c_eq 0 0)) with true. kred.
    rewrite Hs. kred. rewrite Hnm. kred.
    rewrite lookup_delete_ne by exact Hne. rewrite Hs. kred.
    eexists. split; [reflexivity|]. kred. repeat split.
    + apply lookup_delete_eq.
    + rewrite lookup_delete_ne by congruence. apply lookup_delete_eq.
    + logeq.
Qed.

Lemma sem_destroy_spec_witness :
  if existsb (on_chan 10) (sleepers ex_quiet) then
    exists s1, run 9 (sem_destroy 10) ex_quiet = Panic s1
      /\ curspl s1 = SPL_HIGH
      /\ heap s1 = heap ex_quiet
      /\ klog s1 = klog ex_quiet ++
           [(curthread ex_quiet, EvSplhigh); (curthread ex_quiet, EvHassleepers 10)]
  else
    exists s', run 9 (sem_destroy 10) ex_quiet = Done 0 s'
      /\ heap s' = delete 10 (delete 11 (heap ex_quiet))
      /\ heap s' !! 10 = None /\ heap s' !! 11 = None
      /\ curspl s' = curspl ex_quiet
      /\ klog s' = klog ex_quiet ++
           [(curthread ex_quiet, EvSplhigh); (curthread ex_quiet, EvHassleepers 10);
            (curthread ex_quiet, EvSplx (curspl ex_quiet));
            (curthread ex_quiet, EvKfree 11); (curthread ex_quiet, EvKfree 10)].
Proof.
  apply (sem_destroy_spec ex_quiet 10 11 1 "sem");
    [unfold NULL; lia | reflexivity | reflexivity].
Defined.

(** With a sleeper on the semaphore the same call halts the kernel. *)
Example sem_destroy_with_sleeper :
  exists s1, run 9 (sem_destroy 10) ex_state = Panic s1 /\ curspl s1 = SPL_HIGH.
Proof. eexists. split; [vm_compute; reflexivity | reflexivity]. Qed.

(** ** [P], taking and blocking *)

(** X12: [P] on a positive count returns at once with the count one lower:
    it wakes nobody, and it leaves the interrupt level as it found it. *)
Lemma P_takes (s : kstate) (sem nm c : Z) :
  sem <> NULL -> in_interrupt s = 0 ->
  heap s !! sem = Some (OSem nm c) -> 0 < c <= INT_MAX ->
  exists s', run 12 (P sem) s = Done 0 s'
    /\ heap s' = <[sem := OSem nm (c - 1)]> (heap s)
    /\ sleepers s' = sleepers s
    /\ curspl s' = curspl s
    /\ klog s' = klog s ++
         [(curthread s, EvSplhigh);
          (curthread s, EvStore (sem ->> sem_count) (c - 1));
          (curthread s, EvSplx (curspl s))].
Proof.
  intros Hn Hi Hs Hc. unfold P. kred. rewrite (c_true_ne _ _ Hn). kred.
  rewrite Hi. change (c_true (c_eq 0 0)) with true. kred.
  rewrite Hs. kred.
  assert (E0 : c_true (c_eq c 0) = false)
    by (rewrite c_true_eq; apply Z.eqb_neq; lia).
  rewrite E0. kred. rewrite Hs. kred.
  assert (E1 : c_true (c_gt c 0) = true)
    by (rewrite c_true_gt; apply Z.ltb_lt; lia).
  rewrite E1. kred. rewrite Hs. kred. rewrite Hs. kred.
  rewrite wrap_int_id by (unfold INT_MIN, INT_MAX in *; lia).
  eexists. split; [reflexivity|]. kred. repeat split. logeq.
Qed.

Lemma P_blocks (s : kstate) (sem nm : Z) :
  sem <> NULL -> in_interrupt s = 0 ->
  heap s !! sem = Some (OSem nm 0) ->
  exists s' p, run 7 (P sem) s = Blocked s' p
    /\ heap s' = heap s
    /\ sleepers s' = sleepers s ++ [(curthread s, sem)]
    /\ curspl s' = SPL_HIGH.
Proof.
  intros Hn Hi Hs. unfold P. kred. rewrite (c_true_ne _ _ Hn). kred.
  rewrite Hi. change (c_true (c_eq 0 0)) with true. kred.
  rewrite Hs. kred. change (c_true (c_eq 0 0)) with true. kred.
  eexists. eexists. split; [reflexivity|]. kred. repeat split.
Qed.

(** ** Semaphores with a negative count *)

Lemma P_on_negative (s : kstate) (sem nm c : Z) :
  sem <> NULL -> in_interrupt s = 0 ->
  heap s !! sem = Some (OSem nm c) -> c < 0 ->
  run 8 (P sem) s = Panic (set_spl SPL_HIGH (emit EvSplhigh s)).
Proof.
  intros Hn Hi Hs Hc. unfold P. kred. rewrite (c_true_ne _ _ Hn). kred.
  rewrite Hi. change (c_true (c_eq 0 0)) with true. kred.
  rewrite Hs. kred.
  assert (E0 : c_true (c_eq c 0) = false)
    by (rewrite c_true_eq; apply Z.eqb_neq; lia).
  rewrite E0. kred. rewrite Hs. kred.
  assert (E1 : c_true (c_gt c 0) = false)
    by (rewrite c_true_gt; apply Z.ltb_ge; lia).
  rewrite E1. reflexivity.
Qed.

Lemma V_on_negative (s : kstate) (sem nm c : Z) :
  sem <> NULL ->
  heap s !! sem = Some (OSem nm c) -> INT_MIN <= c < 0 ->
  exists s1, run 9 (V sem) s = Panic s1
    /\ heap s1 = <[sem := OSem nm (c + 1)]> (heap s).
Proof.
  intros Hn Hs Hc. pose proof (V_run s sem nm c Hn Hs) as Hrun. cbv zeta in Hrun.
  assert (Hw : wrap_int (c + 1) = c + 1)
    by (apply wrap_int_id; unfold INT_MIN, INT_MAX in *; lia).
  rewrite Hw in Hrun.
  destruct (Z.ltb_spec 0 (c + 1)) as [Hlt|_]; [lia|].
  eexists. split; [exact Hrun | reflexivity].
Qed.

(** C10: [sem_create] stores the count it is given without looking at
    it.  With a negative [initial_count] and room for both allocations it
    returns a semaphore holding that negative count and no assertion has
    been evaluated; the first [P] or [V] on the semaphore then halts the
    kernel at its own check of the count. *)
Theorem sem_create_negative (s : kstate) (name : string) (ic : Z) (n : nat) :
  INT_MIN <= ic < 0 ->
  kfree_left s = S (S n) ->
  0 < brk s ->
  exists s', run 6 (sem_create name ic) s = Done (brk s) s'
    /\ brk s <> NULL
    /\ heap s' !! brk s = Some (OSem (brk s + 1) ic)
    /\ heap s' !! (brk s + 1) = Some (OStr name)
    /\ (in_interrupt s = 0 -> exists s1, run 8 (P (brk s)) s' = Panic s1)
    /\ (exists s1, run 9 (V (brk s)) s' = Panic s1).
Proof.
  intros Hic Hk Hb.
  assert (Hn : brk s <> NULL) by (unfold NULL; lia).
  assert (E1 : (brk s =? NULL) = false) by (apply Z.eqb_neq; exact Hn).
  assert (E2 : (brk s + 1 =? NULL) = false) by (apply Z.eqb_neq; unfold NULL; lia).
  unfold sem_create. kred. rewrite Hk. kred. rewrite E1. kred.
  rewrite lookup_insert_ne by lia. rewrite lookup_insert_eq. kred.
  rewrite lookup_insert_eq. kred. rewrite E2. kred.
  rewrite lookup_insert_eq. kred.
  eexists. split; [reflexivity|]. kred.
  split; [exact Hn|]. split; [apply lookup_insert_eq|].
  split; [rewrite !lookup_insert_ne by lia; apply lookup_insert_eq|].
  split.
  - intros Hi. eexists. eapply P_on_negative; kred; eauto.
    + apply lookup_insert_eq.
    + lia.
  - edestruct V_on_negative as (s1 & Hr & _); [exact Hn | | exact Hic | eexists; exact Hr].
    kred. apply lookup_insert_eq.
Qed.

Lemma sem_create_negative_witness :
  exists s', run 6 (sem_create "s" (-3)) ex_state = Done (brk ex_state) s'
    /\ brk ex_state <> NULL
    /\ heap s' !! brk ex_state = Some (OSem (brk ex_state + 1) (-3))
    /\ heap s' !! (brk ex_state + 1) = Some (OStr "s")
    /\ (in_interrupt ex_state = 0 -> exists s1, run 8 (P (brk ex_state)) s' = Panic s1)
    /\ (exists s1, run 9 (V (brk ex_state)) s' = Panic s1).
Proof.
  apply (sem_create_negative ex_state "s" (-3) 3);
    [unfold INT_MIN; lia | reflexivity | simpl; lia].
Defined.

(** ** Signalling and broadcasting *)

Lemma cv_broadcast_run (s : kstate) (cv lock nm : Z) :
  cv <> NULL -> lock <> NULL ->
  heap s !! lock = Some (OLock nm (curthread s)) ->
  exists s', run 9 (cv_broadcast cv lock) s = Done 0 s'
    /\ sleepers s' = filter (fun e => negb (on_chan cv e)) (sleepers s)
    /\ curspl s' = curspl s
    /\ klog s' = klog s ++
         [(curthread s, EvSplhigh); (curthread s, EvWakeup cv);
          (curthread s, EvSplx (curspl s))].
Proof.
  intros Hc Hl Hh. unfold cv_broadcast, lock_do_i_hold. kred.
  rewrite (c_true_ne _ _ Hc). kred. rewrite (c_true_ne _ _ Hl). kred.
  rewrite Hh. kred. rewrite c_true_eq, Z.eqb_refl. kred.
  eexists. split; [reflexivity|]. kred. repeat split. logeq.
Qed.

(** C2, as the code has it: [cv_signal] wakes one sleeper at whatever
    interrupt level it was called with.  Its only call into another
    subsystem is [thread_wakeone]; the level is neither raised before nor
    restored after, and with interrupts enabled on entry they stay
    enabled throughout. *)
Theorem cv_signal_unprotected (s : kstate) (cv lock nm : Z) :
  cv <> NULL -> lock <> NULL ->
  heap s !! lock = Some (OLock nm (curthread s)) ->
  exists s', run 7 (cv_signal cv lock) s = Done 0 s'
    /\ sleepers s' = remove_first cv (sleepers s)
    /\ curspl s' = curspl s
    /\ klog s' = klog s ++ [(curthread s, EvWakeone cv)].
Proof.
  intros Hc Hl Hh. unfold cv_signal, lock_do_i_hold. kred.
  rewrite (c_true_ne _ _ Hc). kred. rewrite (c_true_ne _ _ Hl). kred.
  rewrite Hh. kred. rewrite c_true_eq, Z.eqb_refl. kred.
  eexists. split; [reflexivity|]. kred. repeat split.
Qed.

Lemma cv_signal_unprotected_witness :
  exists s', run 7 (cv_signal 30 20) ex_held = Done 0 s'
    /\ sleepers s' = remove_first 30 (sleepers ex_held)
    /\ curspl s' = curspl ex_held
    /\ klog s' = klog ex_held ++ [(curthread ex_held, EvWakeone 30)].
Proof.
  apply (cv_signal_unprotected ex_held 30 20 21);
    [unfold NULL; lia | unfold NULL; lia | reflexivity].
Defined.

(** The sibling brackets the same wake-up. *)
Example cv_broadcast_protected :
  exists s', run 9 (cv_broadcast 30 20) ex_held = Done 0 s'
    /\ klog s' = [(1, EvSplhigh); (1, EvWakeup 30); (1, EvSplx 0)].
Proof.
  destruct (cv_broadcast_run ex_held 30 20 21) as (s' & Hr & _ & _ & Hlog);
    [unfold NULL; lia | unfold NULL; lia | reflexivity |].
  exists s'. split; [exact Hr | exact Hlog].
Qed.

(** ** Interrupt context *)

Lemma P_in_interrupt (s : kstate) (sem : Z) :
  sem <> NULL -> in_interrupt s <> 0 -> run 3 (P sem) s = Panic s.
Proof.
  intros Hn Hi. unfold P. kred. rewrite (c_true_ne _ _ Hn). kred.
  rewrite c_true_eq. apply Z.eqb_neq in Hi. rewrite Hi. reflexivity.
Qed.

Lemma lock_acquire_free (s : kstate) (lock nm : Z) :
  lock <> NULL ->
  heap s !! lock = Some (OLock nm NULL) ->
  exists s', run 8 (lock_acquire lock) s = Done 0 s'
    /\ heap s' = <[lock := OLock nm (curthread s)]> (heap s)
    /\ sleepers s' = sleepers s
    /\ curspl s' = curspl s
    /\ curthread s' = curthread s
    /\ klog s' = klog s ++
         [(curthread s, EvSplhigh);
          (curthread s, EvStore (lock ->> lk_holder) (curthread s));
          (curthread s, EvSplx (curspl s))].
Proof.
  intros Hn Hl. unfold lock_acquire. kred. rewrite (c_true_ne _ _ Hn). kred.
  rewrite Hl. kred. change (c_true (c_ne NULL NULL)) with false. kred.
  rewrite Hl. kred. eexists. split; [reflexivity|]. kred. repeat split. logeq.
Qed.

Lemma cv_wait_sleeps (s : kstate) (cv lock nm : Z) :
  cv <> NULL -> lock <> NULL ->
  heap s !! lock = Some (OLock nm (curthread s)) ->
  exists s' p, run 12 (cv_wait cv lock) s = Blocked s' p
    /\ heap s' = <[lock := OLock nm NULL]> (heap s)
    /\ sleepers s' =
         filter (fun e => negb (on_chan lock e)) (sleepers s) ++ [(curthread s, cv)]
    /\ curspl s' = SPL_HIGH.
Proof.
  intros Hc Hl Hh. unfold cv_wait, lock_do_i_hold, lock_release. kred.
  rewrite (c_true_ne _ _ Hc). kred. rewrite (c_true_ne _ _ Hl). kred.
  rewrite Hh. kred. rewrite c_true_eq, Z.eqb_refl. kred.
  rewrite Hh. kred.
  eexists. eexists. split; [reflexivity|]. kred. repeat split.
Qed.

(** C3, as the code has it: entered with [in_interrupt] set, [P] halts
    at its assertion in the state it was called in, but [lock_acquire]
    takes the free lock and returns, and [cv_wait] gives the lock up and
    goes to sleep on the condition variable. *)
Theorem acquire_family_in_interrupt :
  in_interrupt ex_intr = 1
  /\ run 3 (P 10) ex_intr = Panic ex_intr
  /\ (exists s', run 8 (lock_acquire 20) ex_intr = Done 0 s'
        /\ heap s' !! 20 = Some (OLock 21 1))
  /\ (exists s' p, run 12 (cv_wait 30 20) ex_intr_held = Blocked s' p
        /\ heap s' !! 20 = Some (OLock 21 NULL)
        /\ sleepers s' = [(1, 30)]).
Proof.
  split; [reflexivity|]. split; [|split].
  - apply P_in_interrupt; [unfold NULL; lia | simpl; lia].
  - destruct (lock_acquire_free ex_intr 20 21) as (s' & Hr & Hh & _);
      [unfold NULL; lia | reflexivity |].
    exists s'. split; [exact Hr|]. rewrite Hh. apply lookup_insert_eq.
  - destruct (cv_wait_sleeps ex_intr_held 30 20 21) as (s' & p & Hr & Hh & Hq & _);
      [unfold NULL; lia | unfold NULL; lia | reflexivity |].
    exists s', p. split; [exact Hr|]. split; [|exact Hq].
    rewrite Hh. apply lookup_insert_eq.
Qed.

(** ** Acquire, then release *)

(** C8: a thread that finds the lock free, with nobody asleep, and calls
    [lock_acquire] and then [lock_release] is back where it started.  In
    between it is the holder; afterwards the holder is NULL again, the
    heap, the sleepers and the interrupt level are those of the start,
    and [lock_do_i_hold] answers false. *)
Theorem acquire_release_round_trip (s : kstate) (lock nm : Z) :
  lock <> NULL ->
  curthread s <> NULL ->
  heap s !! lock = Some (OLock nm NULL) ->
  sleepers s = [] ->
  exists s1 s2,
    run 8 (lock_acquire lock) s = Done 0 s1
    /\ heap s1 !! lock = Some (OLock nm (curthread s))
    /\ run 6 (lock_release lock) s1 = Done 0 s2
    /\ heap s2 !! lock = Some (OLock nm NULL)
    /\ heap s2 = heap s
    /\ sleepers s2 = sleepers s
    /\ curspl s2 = curspl s
    /\ curthread s2 = curthread s
    /\ run 3 (lock_do_i_hold lock) s2 = Done 0 s2.
Proof.
  intros Hn Ht Hl Hq.
  destruct (lock_acquire_free s lock nm Hn Hl) as (s1 & Hr1 & Hh1 & Hq1 & Hs1 & Hc1 & _).
  assert (Hl1 : heap s1 !! lock = Some (OLock nm (curthread s)))
    by (rewrite Hh1; apply lookup_insert_eq).
  destruct (lock_release_run s1 lock nm _ Hn Hl1)
    as (s2 & Hr2 & Hh2 & Hq2 & Hs2 & Hc2 & _).
  assert (Hl2 : heap s2 !! lock = Some (OLock nm NULL))
    by (rewrite Hh2; apply lookup_insert_eq).
  assert (Hd : run 3 (lock_do_i_hold lock) s2 = Done 0 s2).
  { rewrite (lock_do_i_hold_run s2 lock nm NULL Hl2).
    unfold c_eq. destruct (Z.eqb_spec NULL (curthread s2)); [congruence | reflexivity]. }
  exists s1, s2. split; [exact Hr1|]. split; [exact Hl1|]. split; [exact Hr2|].
  split; [exact Hl2|].
  split; [rewrite Hh2, Hh1, insert_insert_eq; apply insert_id; exact Hl|].
  split; [rewrite Hq2, Hq1, Hq; reflexivity|].
  split; [congruence|]. split; [congruence | exact Hd].
Qed.

Lemma acquire_release_round_trip_witness :
  exists s1 s2,
    run 8 (lock_acquire 20) ex_quiet = Done 0 s1
    /\ heap s1 !! 20 = Some (OLock 21 (curthread ex_quiet))
    /\ run 6 (lock_release 20) s1 = Done 0 s2
    /\ heap s2 !! 20 = Some (OLock 21 NULL)
    /\ heap s2 = heap ex_quiet
    /\ sleepers s2 = sleepers ex_quiet
    /\ curspl s2 = curspl ex_quiet
    /\ curthread s2 = curthread ex_quiet
    /\ run 3 (lock_do_i_hold 20) s2 = Done 0 s2.
Proof.
  apply (acquire_release_round_trip ex_quiet 20 21);
    [unfold NULL; lia | simpl; unfold NULL; lia | reflexivity | reflexivity].
Defined.

(** ** One command of one thread *)


Lemma step_do_inv c f k k' p' :
  moved (step (Do c f) k) k' p' ->
  exists v, exec_cmd c k = Some (v, k') /\ p' = f v.
Proof.
  unfold moved. simpl. destruct (exec_cmd c k) as [[v k1]|]; [|intros [?|?]; discriminate].
  destruct (is_sleep c); intros [H|H]; try discriminate; injection H as <- <-; eauto.
Qed.

Lemma step_assert_inv b q k k' p' :
  moved (step (Assert b q) k) k' p' -> b = true /\ k' = k /\ p' = q.
Proof.
  unfold moved. simpl. destruct b; intros [H|H]; try discriminate.
  injection H as <- <-. auto.
Qed.

Lemma step_while_inv c b q k k' p' :
  moved (step (While c b q) k) k' p' ->
  k' = k /\ p' = (r <- c ;; if c_true r then (b ;; While c b q) else q)%prog.
Proof.
  unfold moved. simpl. intros [H|H]; try discriminate. injection H as <- <-. auto.
Qed.

Lemma step_ret_inv v k k' p' : moved (step (Ret v) k) k' p' -> False.
Proof. unfold moved. simpl. intros [H|H]; discriminate. Qed.

Lemma exec_load_field p f k v k' :
  exec_cmd (Load (p ->> f)) k = Some (v, k') ->
  k' = k /\ exists o, heap k !! p = Some o /\ read_field o f = Some v.
Proof.
  simpl. destruct (heap k !! p) as [o|] eqn:E; [|discriminate].
  destruct (read_field o f) as [x|] eqn:R; [|discriminate].
  intros H. injection H as <- <-. eauto.
Qed.

Lemma exec_load_count sem k v k' :
  exec_cmd (Load (sem ->> sem_count)) k = Some (v, k') ->
  k' = k /\ exists nm, heap k !! sem = Some (OSem nm v).
Proof.
  intros H. apply exec_load_field in H as (-> & o & Ho & Hr).
  split; [reflexivity|]. destruct o; try discriminate.
  simpl in Hr. injection Hr as ->. eauto.
Qed.

Lemma exec_store_field p f x k v k' :
  exec_cmd (Store (p ->> f) x) k = Some (v, k') ->
  exists o o', heap k !! p = Some o /\ write_field o f x = Some o'
    /\ k' = set_heap (<[p := o']> (heap k)) (emit (EvStore (p ->> f) x) k).
Proof.
  simpl. destruct (heap k !! p) as [o|] eqn:E; [|discriminate].
  destruct (write_field o f x) as [o'|] eqn:W; [|discriminate].
  intros H. injection H as <- <-. eauto.
Qed.

Lemma exec_store_count sem x k v k' :
  exec_cmd (Store (sem ->> sem_count) x) k = Some (v, k') ->
  exists nm c, heap k !! sem = Some (OSem nm c)
    /\ k' = set_heap (<[sem := OSem nm x]> (heap k))
              (emit (EvStore (sem ->> sem_count) x) k).
Proof.
  intros H. apply exec_store_field in H as (o & o' & Ho & Hw & ->).
  destruct o; try discriminate. simpl in Hw. injection Hw as <-. eauto.
Qed.

Lemma exec_cmd_curthread c k v k' :
  exec_cmd c k = Some (v, k') -> curthread k' = curthread k.
Proof.
  destruct c; simpl; try (intros H; injection H as <- <-; reflexivity).
  - unfold do_alloc. destruct (kfree_left k); intros H; injection H as <- <-; reflexivity.
  - unfold do_alloc. destruct (kfree_left k); intros H; injection H as <- <-; reflexivity.
  - unfold do_kfree. destruct (heap k !! p); [|discriminate].
    intros H; injection H as <- <-; reflexivity.
  - destruct l as [p f| |]; simpl.
    + destruct (heap k !! p) as [o|]; [|discriminate].
      destruct (read_field o f); [|discriminate]. intros H; injection H as <- <-; reflexivity.
    + intros H; injection H as <- <-; reflexivity.
    + intros H; injection H as <- <-; reflexivity.
  - destruct l as [p f| |]; simpl; try discriminate.
    destruct (heap k !! p) as [o|]; [|discriminate].
    destruct (write_field o f v0); [|discriminate]. intros H; injection H as <- <-; reflexivity.
Qed.

Lemma step_curthread p k k' p' :
  moved (step p k) k' p' -> curthread k' = curthread k.
Proof.
  destruct p as [v|c f|b q|c b q]; intros H.
  - destruct (step_ret_inv _ _ _ _ H).
  - apply step_do_inv in H as (v & He & _). eapply exec_cmd_curthread; eauto.
  - apply step_assert_inv in H as (_ & -> & _). reflexivity.
  - apply step_while_inv in H as (-> & _). reflexivity.
Qed.

Lemma wrap_int_range z : INT_MIN <= wrap_int z <= INT_MAX.
Proof.
  unfold wrap_int, INT_MIN, INT_MAX.
  pose proof (Z.mod_pos_bound (z + 2147483648) 4294967296 ltac:(lia)). lia.
Qed.

Lemma counts_ok_store k sem nm x :
  counts_ok k -> 0 <= x <= INT_MAX ->
  counts_ok (set_heap (<[sem := OSem nm x]> (heap k))
               (emit (EvStore (sem ->> sem_count) x) k)).
Proof.
  intros Hk Hx s' nm' c'. simpl. rewrite lookup_insert.
  case_decide as Hd.
  - intros Hs. injection Hs as <- <-. exact Hx.
  - apply Hk.
Qed.

(** ** [P] and [V], command by command *)

Lemma pv_step_ok sem pt k k' p' :
  counts_ok k ->
  (pv_crit pt || pv_head pt = true -> curspl k <> 0) ->
  (pv_crit pt = true -> pv_local sem pt k) ->
  asleep (curthread k) k = false ->
  moved (step (pv_code sem pt) k) k' p' ->
  exists pt',
    p' = pv_code sem pt'
    /\ (pv_crit pt' || pv_head pt' = true -> curspl k' <> 0)
    /\ (pv_crit pt' = true -> asleep (curthread k') k' = false /\ pv_local sem pt' k')
    /\ (counts_ok k' \/
        exists spl nm c, pt' = V4 spl /\ heap k' !! sem = Some (OSem nm c) /\ c < 0).
Proof.
  intros Hok Hspl Hloc Hawake Hm.
  destruct pt; simpl in Hspl, Hloc; cbn [pv_code] in Hm.
  - (* P0 *) apply step_assert_inv in Hm as (_ & -> & ->).
    exists P1. simpl. repeat split; auto; discriminate.
  - (* P1 *) apply step_do_inv in Hm as (v & He & ->).
    simpl in He. injection He as <- <-.
    exists (P2 (in_interrupt k)). simpl. repeat split; auto; discriminate.
  - (* P2 *) apply step_assert_inv in Hm as (_ & -> & ->).
    exists P3. simpl. repeat split; auto; discriminate.
  - (* P3 *) apply step_do_inv in Hm as (v & He & ->).
    simpl in He. injection He as <- <-.
    exists (P4 (curspl k)). simpl. repeat split; auto; try discriminate.
  - (* P4 *) apply step_while_inv in Hm as (-> & ->).
    exists (P5 spl). simpl. repeat split; auto.
  - (* P5 *) apply step_do_inv in Hm as (v & He & ->).
    apply exec_load_count in He as (-> & nm & Hh).
    destruct (c_true (c_eq v 0)).
    + exists (P6 spl). simpl. repeat split; auto.
    + exists (P7 spl). simpl. repeat split; auto.
  - (* P6 *) apply step_do_inv in Hm as (v & He & ->).
    simpl in He. injection He as <- <-.
    exists (P4 spl). simpl. repeat split; auto; try discriminate.
  - (* P7 *) apply step_do_inv in Hm as (v & He & ->).
    apply exec_load_count in He as (-> & nm & Hh).
    exists (P8 spl v). simpl. repeat split; eauto.
  - (* P8 *) apply step_assert_inv in Hm as (Hb & -> & ->).
    rewrite c_true_gt in Hb. apply Z.ltb_lt in Hb.
    destruct (Hloc eq_refl) as [nm Hh].
    exists (P9 spl). simpl. repeat split; eauto.
  - (* P9 *) apply step_do_inv in Hm as (v & He & ->).
    apply exec_load_count in He as (-> & nm & Hh).
    destruct (Hloc eq_refl) as (nm' & c' & Hh' & Hc).
    rewrite Hh in Hh'. injection Hh' as <- <-.
    exists (P10 spl v). simpl. repeat split; eauto.
  - (* P10 *) apply step_do_inv in Hm as (v & He & ->).
    apply exec_store_count in He as (nm & c' & Hh & ->).
    destruct (Hloc eq_refl) as ((nm' & Hh') & Hc).
    rewrite Hh in Hh'. injection Hh' as <- <-.
    pose proof (Hok _ _ _ Hh) as Hr.
    exists (P11 spl). simpl. repeat split; auto.
    left. apply counts_ok_store; [exact Hok|].
    rewrite wrap_int_id; unfold INT_MIN, INT_MAX in *; lia.
  - (* P11 *) apply step_do_inv in Hm as (v & He & ->).
    simpl in He. injection He as <- <-.
    exists (PVret 0). simpl. repeat split; auto; discriminate.
  - (* V0 *) apply step_assert_inv in Hm as (_ & -> & ->).
    exists V1. simpl. repeat split; auto; discriminate.
  - (* V1 *) apply step_do_inv in Hm as (v & He & ->).
    simpl in He. injection He as <- <-.
    exists (V2 (curspl k)). simpl. repeat split; auto; try discriminate.
  - (* V2 *) apply step_do_inv in Hm as (v & He & ->).
    apply exec_load_count in He as (-> & nm & Hh).
    exists (V3 spl v). simpl. repeat split; eauto.
  - (* V3 *) apply step_do_inv in Hm as (v & He & ->).
    apply exec_store_count in He as (nm & c' & Hh & ->).
    destruct (Hloc eq_refl) as (nm' & Hh').
    rewrite Hh in Hh'. injection Hh' as <- <-.
    pose proof (Hok _ _ _ Hh) as Hr.
    exists (V4 spl). simpl. repeat split; auto.
    destruct (Z_lt_dec (wrap_int (c' + 1)) 0) as [Hneg|Hpos].
    + right. exists spl, nm, (wrap_int (c' + 1)).
      split; [reflexivity|]. split; [apply lookup_insert_eq | exact Hneg].
    + left. apply counts_ok_store; [exact Hok|].
      pose proof (wrap_int_range (c' + 1)). lia.
  - (* V4 *) apply step_do_inv in Hm as (v & He & ->).
    apply exec_load_count in He as (-> & nm & Hh).
    exists (V5 spl v). simpl. repeat split; eauto.
  - (* V5 *) apply step_assert_inv in Hm as (Hb & -> & ->).
    exists (V6 spl). simpl. repeat split; auto.
  - (* V6 *) apply step_do_inv in Hm as (v & He & ->).
    simpl in He. injection He as <- <-.
    exists (V7 spl). simpl. repeat split; auto.
    unfold asleep in *. simpl. rewrite <- not_true_iff_false in *.
    intros He. apply Hawake. apply existsb_exists in He as (e & Hin & He).
    apply existsb_exists. exists e. split; [|exact He].
    apply list_elem_of_In in Hin. apply list_elem_of_filter in Hin as [_ Hin].
    apply list_elem_of_In. exact Hin.
  - (* V7 *) apply step_do_inv in Hm as (v & He & ->).
    simpl in He. injection He as <- <-.
    exists (PVret 0). simpl. repeat split; auto; discriminate.
  - (* ret *) destruct (step_ret_inv _ _ _ _ Hm).
Qed.

(** ** One step of the machine *)

Lemma step_done_inv p k v : step p k = SDone v -> p = Ret v.
Proof.
  destruct p as [w|c f|b q|c b q]; simpl; try discriminate.
  - intros H. injection H as ->. reflexivity.
  - destruct (exec_cmd c k) as [[x k1]|]; [|discriminate].
    destruct (is_sleep c); discriminate.
  - destruct b; discriminate.
Qed.

Lemma mstep_run_inv m m' :
  mstep Run m = MOk m' ->
  exists th,
    m_pool m !! curthread (m_k m) = Some th
    /\ asleep (curthread (m_k m)) (m_k m) = false
    /\ ((exists v c rest,
           t_code th = Ret v /\ t_todo th = c :: rest
           /\ m' = mkM (m_k m)
                    (<[curthread (m_k m) := mkT (Some c) (call_prog c) rest (t_spl th)]>
                       (m_pool m)))
        \/ (exists k' p',
              moved (step (t_code th) (m_k m)) k' p'
              /\ m' = mkM k' (<[curthread (m_k m) := set_code th p']> (m_pool m)))).
Proof.
  unfold mstep. destruct (m_pool m !! curthread (m_k m)) as [th|]; [|discriminate].
  destruct (asleep (curthread (m_k m)) (m_k m)); [discriminate|].
  intros H. exists th. split; [reflexivity|]. split; [reflexivity|].
  destruct (step (t_code th) (m_k m)) as [v|k' p'|k' p'| |] eqn:Hs; try discriminate.
  - left. apply step_done_inv in Hs.
    destruct (t_todo th) as [|c rest]; [discriminate|].
    injection H as <-. exists v, c, rest. auto.
  - right. injection H as <-. exists k', p'. split; [left; reflexivity | reflexivity].
  - right. injection H as <-. exists k', p'. split; [right; reflexivity | reflexivity].
Qed.

Lemma mstep_switch_inv m r m' :
  mstep (Switch r) m = MOk m' ->
  exists th thr,
    m_pool m !! curthread (m_k m) = Some th
    /\ m_pool m !! r = Some thr
    /\ r <> curthread (m_k m)
    /\ asleep r (m_k m) = false
    /\ (curspl (m_k m) = 0 \/ asleep (curthread (m_k m)) (m_k m) = true
        \/ finished th = true)
    /\ m' = mkM (set_spl (t_spl thr) (set_curthread r (m_k m)))
              (<[curthread (m_k m) :=
                   mkT (t_call th) (t_code th) (t_todo th) (curspl (m_k m))]>
                 (m_pool m)).
Proof.
  unfold mstep. destruct (m_pool m !! curthread (m_k m)) as [th|]; [|discriminate].
  destruct (m_pool m !! r) as [thr|]; [|discriminate].
  destruct (Z.eqb_spec r (curthread (m_k m))) as [|Hne]; [discriminate|].
  destruct (asleep r (m_k m)); [discriminate|]. simpl.
  destruct (Z.eqb_spec (curspl (m_k m)) 0) as [Hz|Hz]; simpl.
  - intros H. injection H as <-. exists th, thr. repeat split; auto.
  - destruct (asleep (curthread (m_k m)) (m_k m)); simpl.
    + intros H. injection H as <-. exists th, thr. repeat split; auto.
    + destruct (finished th) eqn:Hf; [|discriminate].
      intros H. injection H as <-. exists th, thr. repeat split; auto.
Qed.

Lemma switch_stuck m th :
  m_pool m !! curthread (m_k m) = Some th ->
  curspl (m_k m) <> 0 ->
  asleep (curthread (m_k m)) (m_k m) = false ->
  finished th = false ->
  forall r, mstep (Switch r) m = MStuck.
Proof.
  intros Hth Hspl Haw Hfin r. unfold mstep. rewrite Hth.
  destruct (m_pool m !! r); [|reflexivity].
  destruct ((r =? curthread (m_k m)) || asleep r (m_k m)); [reflexivity|].
  apply Z.eqb_neq in Hspl. rewrite Hspl, Haw, Hfin. reflexivity.
Qed.

Lemma mrun_app s1 s2 m :
  mrun (s1 ++ s2) m =
  match mrun s1 m with MOk m' => mrun s2 m' | r => r end.
Proof.
  revert m. induction s1 as [|d s1 IH]; intros m; simpl; [reflexivity|].
  destruct (mstep d m); auto.
Qed.

(** An invariant of the steps holds wherever a schedule leads. *)
Lemma mrun_invariant (I : machine -> Prop) :
  (forall d m m', I m -> mstep d m = MOk m' -> I m') ->
  forall sched m0 m, I m0 -> mrun sched m0 = MOk m -> I m.
Proof.
  intros Hstep sched. induction sched as [|d sched IH]; intros m0 m H0 Hr; simpl in Hr.
  - injection Hr as <-. exact H0.
  - destruct (mstep d m0) as [m1| | |] eqn:Hd; try discriminate.
    eapply IH; [|exact Hr]. eapply Hstep; eauto.
Qed.

Lemma map_all_spec {A} (f : A -> bool) (m : gmap Z A) :
  map_all f m = true <-> forall i x, m !! i = Some x -> f x = true.
Proof.
  unfold map_all. rewrite forallb_forall. split.
  - intros H i x Hi. apply (H (i, x)). apply list_elem_of_In.
    by apply elem_of_map_to_list.
  - intros H [i x] Hin. apply list_elem_of_In in Hin.
    apply elem_of_map_to_list in Hin. simpl. eauto.
Qed.

(** ** The count of a semaphore under [P] and [V] *)

Lemma halting_step d m m' : halting m -> mstep d m = MOk m' -> halting m'.
Proof.
  intros [[Hp Hs]|[Hs (m1 & Hr & Hh)]] Hd.
  - destruct d as [|r]; [congruence | rewrite Hs in Hd; discriminate].
  - destruct d as [|r]; [|rewrite Hs in Hd; discriminate].
    left. congruence.
Qed.

Lemma mstep_run_next k pool th k' p' :
  pool !! curthread k = Some th ->
  asleep (curthread k) k = false ->
  step (t_code th) k = SNext k' p' ->
  mstep Run (mkM k pool) = MOk (mkM k' (<[curthread k := set_code th p']> pool)).
Proof.
  intros Hth Haw Hs. unfold mstep. cbn [m_k m_pool]. rewrite Hth, Haw, Hs.
  reflexivity.
Qed.

Lemma mstep_run_panic k pool th :
  pool !! curthread k = Some th ->
  asleep (curthread k) k = false ->
  step (t_code th) k = SPanic ->
  mstep Run (mkM k pool) = MPanic.
Proof.
  intros Hth Haw Hs. unfold mstep. cbn [m_k m_pool]. rewrite Hth, Haw, Hs.
  reflexivity.
Qed.

Lemma halting_at_V4 k pool th sem spl nm c :
  pool !! curthread k = Some th ->
  t_code th = pv_code sem (V4 spl) ->
  heap k !! sem = Some (OSem nm c) -> c < 0 ->
  curspl k <> 0 -> asleep (curthread k) k = false ->
  halting (mkM k pool).
Proof.
  intros Hth Hcode Hh Hc Hspl Haw. right. split.
  - apply (switch_stuck (mkM k pool) th); auto.
    unfold finished. rewrite Hcode. reflexivity.
  - exists (mkM k (<[curthread k := set_code th (pv_code sem (V5 spl c))]> pool)).
    split.
    + apply mstep_run_next; [exact Hth | exact Haw |].
      rewrite Hcode. cbn [pv_code]. unfold V_check. kcbn. rewrite Hh. reflexivity.
    + split.
      * eapply mstep_run_panic; [apply lookup_insert_eq | exact Haw |].
        cbn [set_code t_code pv_code]. kcbn. rewrite c_true_gt.
        destruct (Z.ltb_spec 0 c); [lia | reflexivity].
      * apply (switch_stuck _ (set_code th (pv_code sem (V5 spl c))));
          cbn [m_k m_pool];
          [apply lookup_insert_eq | exact Hspl | exact Haw | reflexivity].
Qed.

Lemma pv_code_call c : is_pv c = true -> exists sem pt,
  call_prog c = pv_code sem pt /\ pv_crit pt = false /\ pv_head pt = false.
Proof.
  destruct c; try discriminate; intros _.
  - exists sem, P0. auto.
  - exists sem, V0. auto.
Qed.

Lemma pv_crit_not_ret sem pt : pv_crit pt = true -> is_ret (pv_code sem pt) = false.
Proof. destruct pt; try discriminate; reflexivity. Qed.

Lemma eff_spl_cur k th : eff_spl k (curthread k) th = curspl k.
Proof. unfold eff_spl. rewrite Z.eqb_refl. reflexivity. Qed.

Lemma eff_spl_other k t th : t <> curthread k -> eff_spl k t th = t_spl th.
Proof. unfold eff_spl. intros H. apply Z.eqb_neq in H. rewrite H. reflexivity. Qed.

Lemma pv_thread_ok_other k k' t th :
  pv_thread_ok k t th -> t <> curthread k -> curthread k' <> t ->
  pv_thread_ok k' t th.
Proof.
  intros (Htodo & sem & pt & Hcode & Hcrit & Heff) Hne Hne'.
  split; [exact Htodo|]. exists sem, pt. split; [exact Hcode|]. split.
  - intros Hc. destruct (Hcrit Hc) as (Heq & _). congruence.
  - intros Hc. rewrite eff_spl_other by congruence.
    rewrite eff_spl_other in Heff by exact Hne. auto.
Qed.

Lemma pv_good_step d m m' :
  pv_good m -> mstep d m = MOk m' -> pv_good m' \/ halting m'.
Proof.
  intros [Hcnt Hthr] Hd. destruct d as [|r].
  - apply mstep_run_inv in Hd as (th & Hth & Haw & Hcase).
    destruct (Hthr _ _ Hth) as (Htodo & sem & pt & Hcode & Hcrit & Heff).
    destruct Hcase as [(v & c & rest & Hret & Hto & ->)|(k' & p' & Hm & ->)].
    + left. split; [exact Hcnt|]. cbn [m_k m_pool]. intros t th'.
      rewrite lookup_insert. case_decide as Hd.
      * intros Ht. injection Ht as <-. subst t.
        rewrite Hto in Htodo. simpl in Htodo.
        apply andb_true_iff in Htodo as [Hc Hrest].
        destruct (pv_code_call c Hc) as (sem' & pt' & Hcp & Hnc & Hnh).
        split; [exact Hrest|]. exists sem', pt'. cbn [t_code].
        split; [exact Hcp|]. rewrite Hnc, Hnh. split; discriminate.
      * intros Ht. specialize (Hthr _ _ Ht).
        destruct Hthr as (Htodo' & sem' & pt' & Hcode' & Hcrit' & Heff').
        split; [exact Htodo'|]. exists sem', pt'. auto.
    + rewrite Hcode in Hm. rewrite eff_spl_cur in Heff.
      pose proof (step_curthread _ _ _ _ Hm) as Hcur.
      destruct (pv_step_ok sem pt _ _ _ Hcnt Heff
                  (fun Hc => proj2 (proj2 (Hcrit Hc))) Haw Hm)
        as (pt' & -> & Hspl' & Hcrit' & Hres).
      destruct Hres as [Hcnt'|(spl & nm & c & -> & Hh & Hc)].
      * left. split; [exact Hcnt'|]. cbn [m_k m_pool]. intros t th'.
        rewrite lookup_insert. case_decide as Hd.
        -- intros Ht. injection Ht as <-. subst t.
           split; [exact Htodo|]. exists sem, pt'. cbn [set_code t_code].
           split; [reflexivity|]. split.
           ++ intros Hc. destruct (Hcrit' Hc) as [Ha Hl].
              rewrite <- Hcur. auto.
           ++ rewrite <- Hcur, eff_spl_cur. exact Hspl'.
        -- intros Ht. eapply pv_thread_ok_other; eauto. congruence.
      * right. destruct (Hcrit' eq_refl) as [Ha _].
        eapply (halting_at_V4 k' _ (set_code th (pv_code sem (V4 spl))) sem spl nm c);
          eauto.
        rewrite Hcur. apply lookup_insert_eq.
  - left. apply mstep_switch_inv in Hd as (th & thr & Hth & Hr & Hne & Har & Hwhy & ->).
    split; [exact Hcnt|]. cbn [m_k m_pool]. intros t th'.
    rewrite lookup_insert. case_decide as Hd.
    + intros Ht. injection Ht as <-. subst t.
      destruct (Hthr _ _ Hth) as (Htodo & sem & pt & Hcode & Hcrit & Heff).
      rewrite eff_spl_cur in Heff.
      assert (Hnc : pv_crit pt = false).
      { destruct (pv_crit pt) eqn:Hc; [|reflexivity]. exfalso.
        destruct (Hcrit eq_refl) as (_ & Ha & _).
        destruct Hwhy as [Hz|[Hs|Hf]].
        - apply Heff; [reflexivity | exact Hz].
        - congruence.
        - unfold finished in Hf. pose proof (pv_crit_not_ret sem pt Hc) as Hnr.
          rewrite <- Hcode in Hnr. destruct (t_code th); try discriminate. }
      split; [exact Htodo|]. exists sem, pt. cbn [t_code].
      split; [exact Hcode|]. rewrite Hnc. split; [discriminate|].
      intros Hh. unfold eff_spl. cbn [curthread set_spl set_curthread t_spl].
      assert (E : (curthread (m_k m) =? r) = false) by (apply Z.eqb_neq; congruence).
      rewrite E. apply Heff. rewrite Hnc. exact Hh.
    + intros Ht.
      destruct (Hthr _ _ Ht) as (Htodo & sem & pt & Hcode & Hcrit & Heff).
      assert (Hnc : pv_crit pt = false).
      { destruct (pv_crit pt) eqn:Hc; [|reflexivity].
        destruct (Hcrit eq_refl) as (Heq & _). congruence. }
      split; [exact Htodo|]. exists sem, pt.
      split; [exact Hcode|]. rewrite Hnc. split; [discriminate|].
      intros Hh. rewrite eff_spl_other in Heff by congruence.
      unfold eff_spl. cbn [curthread curspl set_spl set_curthread].
      destruct (Z.eqb_spec t r) as [->|_].
      * rewrite Hr in Ht. injection Ht as <-. apply Heff. rewrite Hnc. exact Hh.
      * apply Heff. rewrite Hnc. exact Hh.
Qed.

Lemma pv_boot_good m : pv_boot m = true -> pv_good m.
Proof.
  unfold pv_boot, pv_pool. intros H. apply andb_true_iff in H as [Hp Hc].
  split.
  - intros sem nm c Hs.
    pose proof (proj1 (map_all_spec _ _) Hc _ _ Hs) as Hr. simpl in Hr.
    apply andb_true_iff in Hr as [H1 H2]. apply Z.leb_le in H1, H2. lia.
  - intros t th Ht.
    pose proof (proj1 (map_all_spec _ _) Hp _ _ Ht) as Hr. simpl in Hr.
    apply andb_true_iff in Hr as [H1 H2]. split; [exact H2|].
    destruct (t_code th) as [v| | |] eqn:Hcode; try discriminate.
    exists 0, (PVret v). split; [reflexivity|]. split; discriminate.
Qed.

(** C4, as amended: start from semaphores whose counts lie between 0 and
    the largest [int] and from threads that are about to make any calls
    of [P] and [V]; run them under any schedule.  In every state of the
    kernel every count is still in that range, unless the kernel is at
    the point of halting: the one way out of the range is a [V] whose
    increment wrapped around, and then the level is raised, no other
    thread can run, and the assertion that follows the increment fails.
    The count is not negative in every state, as
    [sem_count_negative_after_wrap] shows. *)
Theorem sem_count_in_range_or_halting
    (m0 m : machine) (sched : list decision) (sem nm c : Z) :
  pv_boot m0 = true ->
  mrun sched m0 = MOk m ->
  heap (m_k m) !! sem = Some (OSem nm c) ->
  0 <= c <= INT_MAX \/ halting m.
Proof.
  intros Hb Hr Hs.
  assert (Hinv : pv_good m \/ halting m).
  { eapply (mrun_invariant (fun m => pv_good m \/ halting m)); [| |exact Hr].
    - intros d m1 m2 [Hg|Hh] Hd.
      + eapply pv_good_step; eauto.
      + right. eapply halting_step; eauto.
    - left. apply pv_boot_good. exact Hb. }
  destruct Hinv as [[Hcnt _]|Hh]; [left; eapply Hcnt; eauto | right; exact Hh].
Qed.

(** Scenario A ends with a count of 0. *)
Lemma sem_count_in_range_or_halting_witness :
  exists m,
    mrun schedule_A scenario_A = MOk m
    /\ heap (m_k m) !! 10 = Some (OSem 11 0)
    /\ (0 <= 0 <= INT_MAX \/ halting m).
Proof.
  eexists. split; [vm_compute; reflexivity|]. split; [reflexivity|].
  eapply (sem_count_in_range_or_halting scenario_A _ schedule_A 10 11 0);
    [reflexivity | vm_compute; reflexivity | reflexivity].
Defined.

(** C4, counterexample: a count that is negative.  [sem_create] is given
    the largest [int], which is not negative, and returns the semaphore
    100 holding it; the machine is then one that the theorem above starts
    from.  The [V] that follows raises the level, reads the count and
    stores the count plus one, which wraps around: in the state after the
    store the semaphore holds [INT_MIN], and that state is reached without
    any assertion having failed. *)
Lemma sem_count_negative_after_wrap :
  exists m1 m2,
    mrun (repeat Run 6) scenario_wrap = MOk m1
    /\ heap (m_k m1) !! 100 = Some (OSem 101 INT_MAX)
    /\ pv_boot m1 = true
    /\ mrun (repeat Run 5) m1 = MOk m2
    /\ heap (m_k m2) !! 100 = Some (OSem 101 INT_MIN)
    /\ ~ 0 <= INT_MIN.
Proof.
  eexists. eexists. split; [vm_compute; reflexivity|].
  split; [reflexivity|]. split; [vm_compute; reflexivity|].
  split; [vm_compute; reflexivity|]. split; [reflexivity|].
  unfold INT_MIN. lia.
Qed.

(** The way out of the range: [V] on a count of [INT_MAX].  After the
    store the count is [INT_MIN]; two commands later the kernel halts. *)
Example V_overflow_halts :
  exists m,
    mrun (repeat Run 5) scenario_full = MOk m
    /\ heap (m_k m) !! 10 = Some (OSem 11 INT_MIN)
    /\ curspl (m_k m) = SPL_HIGH
    /\ mrun (repeat Run 2) m = MPanic.
Proof.
  eexists. split; [vm_compute; reflexivity|].
  split; [reflexivity|]. split; reflexivity.
Qed.

(** ** [cv_wait], command by command *)

Lemma exec_load_holder lock k v k' :
  exec_cmd (Load (lock ->> lk_holder)) k = Some (v, k') ->
  k' = k /\ exists nm, heap k !! lock = Some (OLock nm v).
Proof.
  intros H. apply exec_load_field in H as (-> & o & Ho & Hr).
  split; [reflexivity|]. destruct o; try discriminate.
  simpl in Hr. injection Hr as ->. eauto.
Qed.

Lemma exec_store_holder lock x k v k' :
  exec_cmd (Store (lock ->> lk_holder) x) k = Some (v, k') ->
  exists nm h, heap k !! lock = Some (OLock nm h)
    /\ k' = set_heap (<[lock := OLock nm x]> (heap k))
              (emit (EvStore (lock ->> lk_holder) x) k).
Proof.
  intros H. apply exec_store_field in H as (o & o' & Ho & Hw & ->).
  destruct o; try discriminate. simpl in Hw. injection Hw as <-. eauto.
Qed.

Lemma cw_step_ok cv lock pt k k' p' :
  (cw_crit pt || cw_head pt = true -> curspl k <> 0) ->
  (cw_crit pt = true -> cw_local lock pt k) ->
  asleep (curthread k) k = false ->
  moved (step (cw_code cv lock pt) k) k' p' ->
  exists pt',
    p' = cw_code cv lock pt'
    /\ (cw_crit pt' || cw_head pt' = true -> curspl k' <> 0)
    /\ (cw_crit pt' = true -> asleep (curthread k') k' = false /\ cw_local lock pt' k')
    /\ (is_ret p' = true ->
        exists nm, heap k' !! lock = Some (OLock nm (curthread k'))).
Proof.
  intros Hspl Hloc Hawake Hm.
  destruct pt; simpl in Hspl, Hloc; cbn [cw_code] in Hm.
  - (* W0 *) apply step_assert_inv in Hm as (_ & -> & ->).
    exists W1. simpl. repeat split; auto; discriminate.
  - (* W1 *) apply step_assert_inv in Hm as (_ & -> & ->).
    exists W2. simpl. repeat split; auto; discriminate.
  - (* W2 *) apply step_do_inv in Hm as (v & He & ->).
    apply exec_load_holder in He as (-> & nm & Hh).
    exists (W3 v). simpl. repeat split; auto; discriminate.
  - (* W3 *) apply step_do_inv in Hm as (v & He & ->).
    simpl in He. injection He as <- <-.
    exists (W4 h (curthread k)). simpl. repeat split; auto; discriminate.
  - (* W4 *) apply step_assert_inv in Hm as (_ & -> & ->).
    exists W5. simpl. repeat split; auto; discriminate.
  - (* W5 *) apply step_do_inv in Hm as (v & He & ->).
    simpl in He. injection He as <- <-.
    exists (W6 (curspl k)). simpl. repeat split; auto; discriminate.
  - (* W6 *) apply step_assert_inv in Hm as (_ & -> & ->).
    exists (W7 spl). simpl. repeat split; auto; discriminate.
  - (* W7 *) apply step_do_inv in Hm as (v & He & ->).
    simpl in He. injection He as <- <-.
    exists (W8 spl (curspl k)). simpl. repeat split; auto; discriminate.
  - (* W8 *) apply step_do_inv in Hm as (v & He & ->).
    apply exec_store_holder in He as (nm & h & Hh & ->).
    exists (W9 spl spl'). simpl. repeat split; auto; discriminate.
  - (* W9 *) apply step_do_inv in Hm as (v & He & ->).
    simpl in He. injection He as <- <-.
    exists (W10 spl spl'). simpl. repeat split; auto; discriminate.
  - (* W10 *) apply step_do_inv in Hm as (v & He & ->).
    simpl in He. injection He as <- <-.
    exists (W11 spl). simpl. repeat split; auto; discriminate.
  - (* W11 *) apply step_do_inv in Hm as (v & He & ->).
    simpl in He. injection He as <- <-.
    exists (W12 spl). simpl. repeat split; auto; discriminate.
  - (* W12 *) apply step_do_inv in Hm as (v & He & ->).
    simpl in He. injection He as <- <-.
    exists A0. simpl. repeat split; auto; discriminate.
  - (* A0 *) apply step_assert_inv in Hm as (_ & -> & ->).
    exists A1. simpl. repeat split; auto; discriminate.
  - (* A1 *) apply step_do_inv in Hm as (v & He & ->).
    simpl in He. injection He as <- <-.
    exists (A2 (curspl k)). simpl. repeat split; auto; discriminate.
  - (* A2 *) apply step_while_inv in Hm as (-> & ->).
    exists (A3 spl). simpl. repeat split; auto; discriminate.
  - (* A3 *) apply step_do_inv in Hm as (v & He & ->).
    apply exec_load_holder in He as (-> & nm & Hh).
    destruct (c_true (c_ne v NULL)).
    + exists (A4 spl). simpl. repeat split; auto; discriminate.
    + exists (A5 spl). simpl. repeat split; auto; discriminate.
  - (* A4 *) apply step_do_inv in Hm as (v & He & ->).
    simpl in He. injection He as <- <-.
    exists (A2 spl). simpl. repeat split; auto; discriminate.
  - (* A5 *) apply step_do_inv in Hm as (v & He & ->).
    simpl in He. injection He as <- <-.
    exists (A6 spl (curthread k)). simpl. repeat split; auto; discriminate.
  - (* A6 *) apply step_do_inv in Hm as (v & He & ->).
    apply exec_store_holder in He as (nm & h & Hh & ->).
    exists (A7 spl). simpl. repeat split; auto; try discriminate.
    exists nm. rewrite (Hloc eq_refl). apply lookup_insert_eq.
  - (* A7 *) apply step_do_inv in Hm as (v & He & ->).
    simpl in He. injection He as <- <-.
    exists (Wret 0). simpl. repeat split; auto; try discriminate.
  - (* returned *) destruct (step_ret_inv _ _ _ _ Hm).
Qed.

Lemma cw_crit_not_ret cv lock pt :
  cw_crit pt = true -> is_ret (cw_code cv lock pt) = false.
Proof. destruct pt; try discriminate; reflexivity. Qed.

Lemma cw_thread_ok_other k k' t th :
  cw_thread_ok k t th -> t <> curthread k -> curthread k' <> t ->
  cw_thread_ok k' t th.
Proof.
  intros Hok Hne Hne' cv lock Hcall.
  destruct (Hok cv lock Hcall) as (pt & Hcode & Hcrit & Heff).
  exists pt. split; [exact Hcode|]. split.
  - intros Hc. destruct (Hcrit Hc) as (Heq & _). congruence.
  - intros Hc. rewrite eff_spl_other by congruence.
    rewrite eff_spl_other in Heff by exact Hne. auto.
Qed.

Lemma cw_good_step d m m' : cw_good m -> mstep d m = MOk m' -> cw_good m'.
Proof.
  intros Hthr Hd. destruct d as [|r].
  - apply mstep_run_inv in Hd as (th & Hth & Haw & Hcase).
    destruct Hcase as [(v & c & rest & Hret & Hto & ->)|(k' & p' & Hm & ->)].
    + cbn [m_k m_pool]. intros t th'. unfold cw_good. cbn [m_k m_pool].
      rewrite lookup_insert. case_decide as Hd.
      * intros Ht. injection Ht as <-. subst t. intros cv lock Hcall.
        cbn [t_call] in Hcall. injection Hcall as ->.
        exists W0. cbn [t_code]. split; [reflexivity|]. split; discriminate.
      * intros Ht. exact (Hthr _ _ Ht).
    + pose proof (step_curthread _ _ _ _ Hm) as Hcur.
      intros t th'. cbn [m_k m_pool]. rewrite lookup_insert. case_decide as Hd.
      * intros Ht. injection Ht as <-. subst t. intros cv lock Hcall.
        cbn [set_code t_call] in Hcall.
        destruct (Hthr _ _ Hth cv lock Hcall) as (pt & Hcode & Hcrit & Heff).
        rewrite Hcode in Hm. rewrite eff_spl_cur in Heff.
        destruct (cw_step_ok cv lock pt _ _ _ Heff
                    (fun Hc => proj2 (proj2 (Hcrit Hc))) Haw Hm)
          as (pt' & -> & Hspl' & Hcrit' & _).
        exists pt'. cbn [set_code t_code]. split; [reflexivity|]. split.
        -- intros Hc. destruct (Hcrit' Hc) as [Ha Hl]. rewrite <- Hcur. auto.
        -- rewrite <- Hcur, eff_spl_cur. exact Hspl'.
      * intros Ht. eapply cw_thread_ok_other; eauto. congruence.
  - apply mstep_switch_inv in Hd as (th & thr & Hth & Hr & Hne & Har & Hwhy & ->).
    intros t th'. cbn [m_k m_pool]. rewrite lookup_insert. case_decide as Hd.
    + intros Ht. injection Ht as <-. subst t. intros cv lock Hcall.
      cbn [t_call] in Hcall.
      destruct (Hthr _ _ Hth cv lock Hcall) as (pt & Hcode & Hcrit & Heff).
      rewrite eff_spl_cur in Heff.
      assert (Hnc : cw_crit pt = false).
      { destruct (cw_crit pt) eqn:Hc; [|reflexivity]. exfalso.
        destruct (Hcrit eq_refl) as (_ & Ha & _).
        destruct Hwhy as [Hz|[Hs|Hf]].
        - apply Heff; [reflexivity | exact Hz].
        - congruence.
        - unfold finished in Hf. pose proof (cw_crit_not_ret cv lock pt Hc) as Hnr.
          rewrite <- Hcode in Hnr. destruct (t_code th); try discriminate. }
      exists pt. cbn [t_code].
      split; [exact Hcode|]. rewrite Hnc. split; [discriminate|].
      intros Hh. unfold eff_spl. cbn [curthread set_spl set_curthread t_spl].
      assert (E : (curthread (m_k m) =? r) = false) by (apply Z.eqb_neq; congruence).
      rewrite E. apply Heff. rewrite Hnc. exact Hh.
    + intros Ht cv lock Hcall.
      destruct (Hthr _ _ Ht cv lock Hcall) as (pt & Hcode & Hcrit & Heff).
      assert (Hnc : cw_crit pt = false).
      { destruct (cw_crit pt) eqn:Hc; [|reflexivity].
        destruct (Hcrit eq_refl) as (Heq & _). congruence. }
      exists pt. split; [exact Hcode|]. rewrite Hnc. split; [discriminate|].
      intros Hh. rewrite eff_spl_other in Heff by congruence.
      unfold eff_spl. cbn [curthread curspl set_spl set_curthread].
      destruct (Z.eqb_spec t r) as [->|_].
      * rewrite Hr in Ht. injection Ht as <-. apply Heff. rewrite Hnc. exact Hh.
      * apply Heff. rewrite Hnc. exact Hh.
Qed.

Lemma idle_pool_cw_good m : idle_pool (m_pool m) = true -> cw_good m.
Proof.
  unfold idle_pool. intros H t th Ht cv lock _.
  pose proof (proj1 (map_all_spec _ _) H _ _ Ht) as Hr. simpl in Hr.
  destruct (t_code th) as [v| | |] eqn:Hcode; try discriminate.
  exists (Wret v). split; [reflexivity|]. split; discriminate.
Qed.

(** C1: start the threads of any pool between calls, on any kernel
    state, and run them under any schedule.  At the step with which a
    thread returns from [cv_wait cv lock], that thread has the processor
    and is the holder of [lock], so that [lock_do_i_hold lock] answers
    true there, whatever the other threads have done since the call
    began. *)
Theorem cv_wait_returns_holding
    (m0 m m' : machine) (sched : list decision) (d : decision)
    (t cv lock : Z) (th th' : thread) :
  idle_pool (m_pool m0) = true ->
  mrun sched m0 = MOk m ->
  mstep d m = MOk m' ->
  m_pool m !! t = Some th ->
  t_call th = Some (CCvWait cv lock) ->
  is_ret (t_code th) = false ->
  m_pool m' !! t = Some th' ->
  is_ret (t_code th') = true ->
  curthread (m_k m') = t
  /\ (exists nm, heap (m_k m') !! lock = Some (OLock nm t))
  /\ run 3 (lock_do_i_hold lock) (m_k m') = Done 1 (m_k m').
Proof.
  intros Hidle Hr Hd Ht Hcall Hnr Ht' Hret.
  assert (Hgood : cw_good m).
  { eapply (mrun_invariant cw_good); [|apply idle_pool_cw_good; exact Hidle|exact Hr].
    intros d0 m1 m2. apply cw_good_step. }
  assert (Hkey : curthread (m_k m') = t
                 /\ exists nm, heap (m_k m') !! lock = Some (OLock nm t)).
  { destruct d as [|r].
    - apply mstep_run_inv in Hd as (thc & Hthc & Haw & Hcase).
      destruct Hcase as [(v & c & rest & Hcode & Hto & ->)|(k' & p' & Hm & ->)];
        cbn [m_k m_pool] in *.
      + rewrite lookup_insert in Ht'. case_decide as Hd.
        * injection Ht' as <-. cbn [t_code] in Hret.
          destruct c; discriminate.
        * congruence.
      + rewrite lookup_insert in Ht'. case_decide as Hd; [|congruence].
        injection Ht' as <-. subst t. rewrite Hthc in Ht. injection Ht as ->.
        destruct (Hgood _ _ Hthc cv lock Hcall) as (pt & Hcode & Hcrit & Heff).
        rewrite Hcode in Hm. rewrite eff_spl_cur in Heff.
        pose proof (step_curthread _ _ _ _ Hm) as Hcur.
        destruct (cw_step_ok cv lock pt _ _ _ Heff
                    (fun Hc => proj2 (proj2 (Hcrit Hc))) Haw Hm)
          as (pt' & -> & _ & _ & Hfin).
        cbn [set_code t_code] in Hret. destruct (Hfin Hret) as [nm Hh].
        split; [exact Hcur|]. exists nm. rewrite <- Hcur. exact Hh.
    - apply mstep_switch_inv in Hd as (thc & thr & Hthc & Hthr & _ & _ & _ & ->).
      cbn [m_k m_pool] in *. rewrite lookup_insert in Ht'.
      case_decide as Hd.
      + injection Ht' as <-. cbn [t_code] in Hret. subst t. congruence.
      + congruence. }
  destruct Hkey as [Hcur [nm Hh]]. split; [exact Hcur|]. split; [eauto|].
  unfold lock_do_i_hold. kred. rewrite Hh. kred.
  rewrite Hcur. unfold c_eq. rewrite Z.eqb_refl. reflexivity.
Qed.

(** Scenario C, at the step with which thread 1 returns from its wait. *)
Lemma cv_wait_returns_holding_witness :
  exists m m' th th',
    mrun schedule_C scenario_C = MOk m
    /\ mstep Run m = MOk m'
    /\ m_pool m !! 1 = Some th
    /\ m_pool m' !! 1 = Some th'
    /\ curthread (m_k m') = 1
    /\ (exists nm, heap (m_k m') !! 20 = Some (OLock nm 1))
    /\ run 3 (lock_do_i_hold 20) (m_k m') = Done 1 (m_k m').
Proof.
  do 4 eexists.
  split; [vm_compute; reflexivity|].
  split; [vm_compute; reflexivity|].
  split; [vm_compute; reflexivity|].
  split; [vm_compute; reflexivity|].
  eapply (cv_wait_returns_holding scenario_C _ _ schedule_C Run 1 30 20);
    [reflexivity | vm_compute; reflexivity | vm_compute; reflexivity
    | vm_compute; reflexivity | reflexivity | reflexivity
    | vm_compute; reflexivity | reflexivity].
Defined.

(** ** The scenarios of the spec, run on the machine *)

(** Scenario B: the second thread sleeps on the lock until the first
    releases it; in the end both are done and the lock is free. *)
Example scenario_B_ends_unheld :
  exists m,
    mrun schedule_B scenario_B = MOk m
    /\ heap (m_k m) !! 20 = Some (OLock 21 NULL)
    /\ sleepers (m_k m) = []
    /\ all_finished m = true.
Proof.
  eexists. split; [vm_compute; reflexivity|]. repeat split.
Qed.

(** Scenario D: the broadcast wakes the three waiters; each gets the lock
    back in turn and releases it. *)
Example scenario_D_ends_unheld :
  exists m,
    mrun schedule_D scenario_D = MOk m
    /\ heap (m_k m) !! 20 = Some (OLock 21 NULL)
    /\ sleepers (m_k m) = []
    /\ all_finished m = true.
Proof.
  eexists. split; [vm_compute; reflexivity|]. repeat split.
Qed.

(** * Further properties of the code *)

(** ** Creation *)

(** X1: [sem_create] with no room fails with NULL and leaves the heap as it
    was; with room for the record only it frees the record again before
    failing; with room for both it returns a fresh semaphore that has the
    given count, whatever it is, and a copy of the name, and no other
    block has changed. *)
Theorem sem_create_spec (s : kstate) (name : string) (ic : Z) :
  0 < brk s ->
  heap s !! brk s = None ->
  match kfree_left s with
  | O =>
      exists s', run 2 (sem_create name ic) s = Done NULL s'
        /\ heap s' = heap s /\ kfree_left s' = O
  | S O =>
      exists s', run 6 (sem_create name ic) s = Done NULL s'
        /\ heap s' = heap s /\ kfree_left s' = S O
  | S (S n) =>
      exists s', run 6 (sem_create name ic) s = Done (brk s) s'
        /\ brk s <> NULL
        /\ heap s' !! brk s = Some (OSem (brk s + 1) ic)
        /\ heap s' !! (brk s + 1) = Some (OStr name)
        /\ (forall p, p <> brk s -> p <> brk s + 1 -> heap s' !! p = heap s !! p)
        /\ kfree_left s' = n
        /\ curspl s' = curspl s /\ sleepers s' = sleepers s
  end.
Proof.
  intros Hb Hfresh.
  assert (Hn : brk s <> NULL) by (unfold NULL; lia).
  assert (E1 : (brk s =? NULL) = false) by (apply Z.eqb_neq; exact Hn).
  assert (E2 : (brk s + 1 =? NULL) = false) by (apply Z.eqb_neq; unfold NULL; lia).
  unfold sem_create. destruct (kfree_left s) as [|[|n]] eqn:Hk.
  - kred. rewrite Hk. kred. eexists. split; [reflexivity|]. kred. rewrite Hk. auto.
  - kred. rewrite Hk. kred. rewrite E1. kred.
    rewrite lookup_insert_eq. kred. rewrite lookup_insert_eq. kred.
    change (NULL =? NULL) with true. kred. rewrite lookup_insert_eq. kred.
    eexists. split; [reflexivity|]. kred. split; [|reflexivity].
    rewrite !delete_insert_eq. apply delete_id. exact Hfresh.
  - kred. rewrite Hk. kred. rewrite E1. kred.
    rewrite lookup_insert_ne by lia. rewrite lookup_insert_eq. kred.
    rewrite lookup_insert_eq. kred. rewrite E2. kred.
    rewrite lookup_insert_eq. kred.
    eexists. split; [reflexivity|]. kred.
    split; [exact Hn|]. split; [apply lookup_insert_eq|].
    split; [rewrite !lookup_insert_ne by lia; apply lookup_insert_eq|].
    split; [|auto].
    intros p Hp1 Hp2. rewrite !lookup_insert_ne by congruence. reflexivity.
Qed.

(** X2: [lock_create] fails cleanly like [sem_create]; when it succeeds the
    new lock has no holder. *)
Theorem lock_create_spec (s : kstate) (name : string) :
  0 < brk s ->
  heap s !! brk s = None ->
  match kfree_left s with
  | O =>
      exists s', run 2 (lock_create name) s = Done NULL s'
        /\ heap s' = heap s /\ kfree_left s' = O
  | S O =>
      exists s', run 6 (lock_create name) s = Done NULL s'
        /\ heap s' = heap s /\ kfree_left s' = S O
  | S (S n) =>
      exists s', run 6 (lock_create name) s = Done (brk s) s'
        /\ brk s <> NULL
        /\ heap s' !! brk s = Some (OLock (brk s + 1) NULL)
        /\ heap s' !! (brk s + 1) = Some (OStr name)
        /\ (forall p, p <> brk s -> p <> brk s + 1 -> heap s' !! p = heap s !! p)
        /\ kfree_left s' = n
        /\ curspl s' = curspl s /\ sleepers s' = sleepers s
        /\ run 3 (lock_do_i_hold (brk s)) s' =
             Done (c_eq NULL (curthread s)) s'
  end.
Proof.
  intros Hb Hfresh.
  assert (Hn : brk s <> NULL) by (unfold NULL; lia).
  assert (E1 : (brk s =? NULL) = false) by (apply Z.eqb_neq; exact Hn).
  assert (E2 : (brk s + 1 =? NULL) = false) by (apply Z.eqb_neq; unfold NULL; lia).
  unfold lock_create. destruct (kfree_left s) as [|[|n]] eqn:Hk.
  - kred. rewrite Hk. kred. eexists. split; [reflexivity|]. kred. rewrite Hk. auto.
  - kred. rewrite Hk. kred. rewrite E1. kred.
    rewrite lookup_insert_eq. kred. rewrite lookup_insert_eq. kred.
    change (NULL =? NULL) with true. kred. rewrite lookup_insert_eq. kred.
    eexists. split; [reflexivity|]. kred. split; [|reflexivity].
    rewrite !delete_insert_eq. apply delete_id. exact Hfresh.
  - kred. rewrite Hk. kred. rewrite E1. kred.
    rewrite lookup_insert_ne by lia. rewrite lookup_insert_eq. kred.
    rewrite lookup_insert_eq. kred. rewrite E2. kred.
    rewrite lookup_insert_eq. kred.
    eexists. split; [reflexivity|]. kred.
    split; [exact Hn|]. split; [apply lookup_insert_eq|].
    split; [rewrite !lookup_insert_ne by lia; apply lookup_insert_eq|].
    split.
    { intros p Hp1 Hp2. rewrite !lookup_insert_ne by congruence. reflexivity. }
    do 3 (split; [reflexivity|]).
    unfold lock_do_i_hold. kred. rewrite lookup_insert_eq. kred. reflexivity.
Qed.

(** X3: [cv_create] fails cleanly in the same two ways and otherwise returns
    a fresh condition variable that owns a copy of the name. *)
Theorem cv_create_spec (s : kstate) (name : string) :
  0 < brk s ->
  heap s !! brk s = None ->
  match kfree_left s with
  | O =>
      exists s', run 2 (cv_create name) s = Done NULL s'
        /\ heap s' = heap s /\ kfree_left s' = O
  | S O =>
      exists s', run 6 (cv_create name) s = Done NULL s'
        /\ heap s' = heap s /\ kfree_left s' = S O
  | S (S n) =>
      exists s', run 5 (cv_create name) s = Done (brk s) s'
        /\ brk s <> NULL
        /\ heap s' !! brk s = Some (OCv (brk s + 1))
        /\ heap s' !! (brk s + 1) = Some (OStr name)
        /\ (forall p, p <> brk s -> p <> brk s + 1 -> heap s' !! p = heap s !! p)
        /\ kfree_left s' = n
        /\ curspl s' = curspl s /\ sleepers s' = sleepers s
  end.
Proof.
  intros Hb Hfresh.
  assert (Hn : brk s <> NULL) by (unfold NULL; lia).
  assert (E1 : (brk s =? NULL) = false) by (apply Z.eqb_neq; exact Hn).
  assert (E2 : (brk s + 1 =? NULL) = false) by (apply Z.eqb_neq; unfold NULL; lia).
  unfold cv_create. destruct (kfree_left s) as [|[|n]] eqn:Hk.
  - kred. rewrite Hk. kred. eexists. split; [reflexivity|]. kred. rewrite Hk. auto.
  - kred. rewrite Hk. kred. rewrite E1. kred.
    rewrite lookup_insert_eq. kred. rewrite lookup_insert_eq. kred.
    change (NULL =? NULL) with true. kred. rewrite lookup_insert_eq. kred.
    eexists. split; [reflexivity|]. kred. split; [|reflexivity].
    rewrite !delete_insert_eq. apply delete_id. exact Hfresh.
  - kred. rewrite Hk. kred. rewrite E1. kred.
    rewrite lookup_insert_ne by lia. rewrite lookup_insert_eq. kred.
    rewrite lookup_insert_eq. kred. rewrite E2. kred.
    eexists. split; [reflexivity|]. kred.
    split; [exact Hn|]. split; [apply lookup_insert_eq|].
    split; [rewrite !lookup_insert_ne by lia; apply lookup_insert_eq|].
    split; [|auto].
    intros p Hp1 Hp2. rewrite !lookup_insert_ne by congruence. reflexivity.
Qed.

(** ** Destruction *)

(** X4: [lock_destroy] frees the name and the record of any lock it is given:
    nothing looks at the holder or at the threads asleep on the lock, so
    a held lock with sleepers is destroyed like any other and its
    sleepers stay asleep. *)
Theorem lock_destroy_spec (s : kstate) (lock nm h : Z) (str : string) :
  lock <> NULL ->
  heap s !! lock = Some (OLock nm h) ->
  heap s !! nm = Some (OStr str) ->
  exists s', run 5 (lock_destroy lock) s = Done 0 s'
    /\ heap s' = delete lock (delete nm (heap s))
    /\ sleepers s' = sleepers s
    /\ curspl s' = curspl s
    /\ kfree_left s' = S (S (kfree_left s))
    /\ klog s' = klog s ++ [(curthread s, EvKfree nm); (curthread s, EvKfree lock)].
Proof.
  intros Hn Hl Hnm.
  assert (Hne : nm <> lock) by (intros ->; congruence).
  unfold lock_destroy. kred. rewrite (c_true_ne _ _ Hn). kred.
  rewrite Hl. kred. rewrite Hnm. kred.
  rewrite lookup_delete_ne by exact Hne. rewrite Hl. kred.
  eexists. split; [reflexivity|]. kred. repeat split. logeq.
Qed.

(** X5: [cv_destroy] frees the name and the record; it does not look for
    threads waiting on the condition variable, which stay asleep. *)
Theorem cv_destroy_spec (s : kstate) (cv nm : Z) (str : string) :
  cv <> NULL ->
  heap s !! cv = Some (OCv nm) ->
  heap s !! nm = Some (OStr str) ->
  exists s', run 5 (cv_destroy cv) s = Done 0 s'
    /\ heap s' = delete cv (delete nm (heap s))
    /\ sleepers s' = sleepers s
    /\ curspl s' = curspl s
    /\ kfree_left s' = S (S (kfree_left s))
    /\ klog s' = klog s ++ [(curthread s, EvKfree nm); (curthread s, EvKfree cv)].
Proof.
  intros Hn Hl Hnm.
  assert (Hne : nm <> cv) by (intros ->; congruence).
  unfold cv_destroy. kred. rewrite (c_true_ne _ _ Hn). kred.
  rewrite Hl. kred. rewrite Hnm. kred.
  rewrite lookup_delete_ne by exact Hne. rewrite Hl. kred.
  eexists. split; [reflexivity|]. kred. repeat split. logeq.
Qed.

(** ** Creation followed by destruction *)

Ltac heap_back :=
  apply map_eq; intros ?p;
  repeat (rewrite lookup_delete || rewrite lookup_insert);
  repeat case_decide; subst; try congruence; try lia.

(** X6: A semaphore that is created and, with nobody asleep on it, destroyed
    costs nothing: the heap and the room left in it are those of the
    start. *)
Theorem sem_create_destroy (s : kstate) (name : string) (ic : Z) (n : nat) :
  0 < brk s ->
  heap s !! brk s = None ->
  heap s !! (brk s + 1) = None ->
  kfree_left s = S (S n) ->
  existsb (on_chan (brk s)) (sleepers s) = false ->
  exists s1 s2,
    run 6 (sem_create name ic) s = Done (brk s) s1
    /\ run 9 (sem_destroy (brk s)) s1 = Done 0 s2
    /\ heap s2 = heap s
    /\ kfree_left s2 = kfree_left s
    /\ curspl s2 = curspl s
    /\ sleepers s2 = sleepers s.
Proof.
  intros Hb Hf1 Hf2 Hk Hq.
  assert (Hn : brk s <> NULL) by (unfold NULL; lia).
  assert (E1 : (brk s =? NULL) = false) by (apply Z.eqb_neq; exact Hn).
  assert (E2 : (brk s + 1 =? NULL) = false) by (apply Z.eqb_neq; unfold NULL; lia).
  eexists. eexists. split; [|split].
  - unfold sem_create. kred. rewrite Hk. kred. rewrite E1. kred.
    rewrite lookup_insert_ne by lia. rewrite lookup_insert_eq. kred.
    rewrite lookup_insert_eq. kred. rewrite E2. kred.
    rewrite lookup_insert_eq. kred. reflexivity.
  - unfold sem_destroy. kred. rewrite (c_true_ne _ _ Hn). kred.
    rewrite Hq. change (c_true (c_eq 0 0)) with true. kred.
    rewrite lookup_insert_eq. kred.
    rewrite !lookup_insert_ne by lia. rewrite lookup_insert_eq. kred.
    rewrite lookup_delete_ne by lia. rewrite lookup_insert_eq. kred.
    reflexivity.
  - kred. split; [heap_back|]. rewrite Hk. auto.
Qed.

(** X7: The same for a lock. *)
Theorem lock_create_destroy (s : kstate) (name : string) (n : nat) :
  0 < brk s ->
  heap s !! brk s = None ->
  heap s !! (brk s + 1) = None ->
  kfree_left s = S (S n) ->
  exists s1 s2,
    run 6 (lock_create name) s = Done (brk s) s1
    /\ run 5 (lock_destroy (brk s)) s1 = Done 0 s2
    /\ heap s2 = heap s
    /\ kfree_left s2 = kfree_left s
    /\ curspl s2 = curspl s
    /\ sleepers s2 = sleepers s.
Proof.
  intros Hb Hf1 Hf2 Hk.
  assert (Hn : brk s <> NULL) by (unfold NULL; lia).
  assert (E1 : (brk s =? NULL) = false) by (apply Z.eqb_neq; exact Hn).
  assert (E2 : (brk s + 1 =? NULL) = false) by (apply Z.eqb_neq; unfold NULL; lia).
  eexists. eexists. split; [|split].
  - unfold lock_create. kred. rewrite Hk. kred. rewrite E1. kred.
    rewrite lookup_insert_ne by lia. rewrite lookup_insert_eq. kred.
    rewrite lookup_insert_eq. kred. rewrite E2. kred.
    rewrite lookup_insert_eq. kred. reflexivity.
  - unfold lock_destroy. kred. rewrite (c_true_ne _ _ Hn). kred.
    rewrite lookup_insert_eq. kred.
    rewrite !lookup_insert_ne by lia. rewrite lookup_insert_eq. kred.
    rewrite lookup_delete_ne by lia. rewrite lookup_insert_eq. kred.
    reflexivity.
  - kred. split; [heap_back|]. rewrite Hk. auto.
Qed.

(** X8: The same for a condition variable. *)
Theorem cv_create_destroy (s : kstate) (name : string) (n : nat) :
  0 < brk s ->
  heap s !! brk s = None ->
  heap s !! (brk s + 1) = None ->
  kfree_left s = S (S n) ->
  exists s1 s2,
    run 5 (cv_create name) s = Done (brk s) s1
    /\ run 5 (cv_destroy (brk s)) s1 = Done 0 s2
    /\ heap s2 = heap s
    /\ kfree_left s2 = kfree_left s
    /\ curspl s2 = curspl s
    /\ sleepers s2 = sleepers s.
Proof.
  intros Hb Hf1 Hf2 Hk.
  assert (Hn : brk s <> NULL) by (unfold NULL; lia).
  assert (E1 : (brk s =? NULL) = false) by (apply Z.eqb_neq; exact Hn).
  assert (E2 : (brk s + 1 =? NULL) = false) by (apply Z.eqb_neq; unfold NULL; lia).
  eexists. eexists. split; [|split].
  - unfold cv_create. kred. rewrite Hk. kred. rewrite E1. kred.
    rewrite lookup_insert_ne by lia. rewrite lookup_insert_eq. kred.
    rewrite lookup_insert_eq. kred. rewrite E2. kred. reflexivity.
  - unfold cv_destroy. kred. rewrite (c_true_ne _ _ Hn). kred.
    rewrite lookup_insert_eq. kred.
    rewrite !lookup_insert_ne by lia. rewrite lookup_insert_eq. kred.
    rewrite lookup_delete_ne by lia. rewrite lookup_insert_eq. kred.
    reflexivity.
  - kred. split; [heap_back|]. rewrite Hk. auto.
Qed.

(** ** Arguments that break the contract *)

(** X9: Every function that asserts its pointer argument halts the kernel on
    NULL in the state it was called in, before any other command. *)
Theorem null_argument_halts (s : kstate) (p : Z) :
  run 1 (sem_destroy NULL) s = Panic s
  /\ run 1 (P NULL) s = Panic s
  /\ run 1 (V NULL) s = Panic s
  /\ run 1 (lock_destroy NULL) s = Panic s
  /\ run 1 (lock_acquire NULL) s = Panic s
  /\ run 1 (lock_release NULL) s = Panic s
  /\ run 1 (cv_destroy NULL) s = Panic s
  /\ run 1 (cv_wait NULL p) s = Panic s
  /\ run 2 (cv_wait p NULL) s = Panic s
  /\ run 1 (cv_signal NULL p) s = Panic s
  /\ run 2 (cv_signal p NULL) s = Panic s
  /\ run 1 (cv_broadcast NULL p) s = Panic s
  /\ run 2 (cv_broadcast p NULL) s = Panic s.
Proof.
  repeat split; try reflexivity.
  - unfold cv_wait. kred. destruct (c_true (c_ne p NULL)); reflexivity.
  - unfold cv_signal. kred. destruct (c_true (c_ne p NULL)); reflexivity.
  - unfold cv_broadcast. kred. destruct (c_true (c_ne p NULL)); reflexivity.
Qed.

(** X10: The three operations on a condition variable halt the kernel, in the
    state they were called in, when the calling thread is not the holder
    of the lock it passes. *)
Theorem cv_needs_the_lock (s : kstate) (cv lock nm h : Z) :
  cv <> NULL -> lock <> NULL ->
  heap s !! lock = Some (OLock nm h) ->
  h <> curthread s ->
  run 5 (cv_wait cv lock) s = Panic s
  /\ run 5 (cv_signal cv lock) s = Panic s
  /\ run 5 (cv_broadcast cv lock) s = Panic s.
Proof.
  intros Hc Hl Hh Hne.
  assert (E : c_true (c_eq h (curthread s)) = false)
    by (rewrite c_true_eq; apply Z.eqb_neq; exact Hne).
  repeat split.
  - unfold cv_wait, lock_do_i_hold. kred.
    rewrite (c_true_ne _ _ Hc). kred. rewrite (c_true_ne _ _ Hl). kred.
    rewrite Hh. kred. rewrite E. reflexivity.
  - unfold cv_signal, lock_do_i_hold. kred.
    rewrite (c_true_ne _ _ Hc). kred. rewrite (c_true_ne _ _ Hl). kred.
    rewrite Hh. kred. rewrite E. reflexivity.
  - unfold cv_broadcast, lock_do_i_hold. kred.
    rewrite (c_true_ne _ _ Hc). kred. rewrite (c_true_ne _ _ Hl). kred.
    rewrite Hh. kred. rewrite E. reflexivity.
Qed.

(** ** Semaphore operations in sequence *)

(** X14: [V] followed by [P] gives the count back: from any count below the
    largest [int], [V] leaves one more and a [P] by the same thread then
    returns at once with the count of the start. *)
Theorem V_then_P (s : kstate) (sem nm c : Z) :
  sem <> NULL -> in_interrupt s = 0 ->
  heap s !! sem = Some (OSem nm c) -> 0 <= c < INT_MAX ->
  exists s1 s2,
    run 9 (V sem) s = Done 0 s1
    /\ heap s1 !! sem = Some (OSem nm (c + 1))
    /\ run 12 (P sem) s1 = Done 0 s2
    /\ heap s2 = heap s
    /\ curspl s2 = curspl s
    /\ sleepers s2 = filter (fun e => negb (on_chan sem e)) (sleepers s).
Proof.
  intros Hn Hi Hs Hc.
  assert (Hw : wrap_int (c + 1) = c + 1)
    by (apply wrap_int_id; unfold INT_MIN, INT_MAX in *; lia).
  assert (Hw' : wrap_int (c + 1 - 1) = c)
    by (replace (c + 1 - 1) with c by lia;
        apply wrap_int_id; unfold INT_MIN, INT_MAX in *; lia).
  assert (E0 : c_true (c_eq (c + 1) 0) = false)
    by (rewrite c_true_eq; apply Z.eqb_neq; lia).
  assert (E1 : c_true (c_gt (c + 1) 0) = true)
    by (rewrite c_true_gt; apply Z.ltb_lt; lia).
  eexists. eexists. split; [|split; [|split]].
  - unfold V. kred. rewrite (c_true_ne _ _ Hn). kred.
    rewrite Hs. kred. rewrite Hs. kred. rewrite lookup_insert_eq. kred.
    rewrite Hw, E1. kred. reflexivity.
  - kred. apply lookup_insert_eq.
  - unfold P. kred. rewrite (c_true_ne _ _ Hn). kred.
    rewrite Hi. change (c_true (c_eq 0 0)) with true. kred.
    rewrite lookup_insert_eq. kred. rewrite E0. kred.
    rewrite lookup_insert_eq. kred. rewrite E1. kred.
    rewrite lookup_insert_eq. kred. rewrite lookup_insert_eq. kred.
    rewrite Hw'. reflexivity.
  - kred. split; [|auto].
    rewrite insert_insert_eq. apply insert_id. exact Hs.
Qed.

(** ** Blocking *)

(** X15: [lock_acquire] on a lock that has a holder, the calling thread
    included, does not return: the thread goes to sleep on the lock with
    the level raised and the lock untouched, and what it has left to do
    is the test of the holder again. *)
Theorem lock_acquire_blocks (s : kstate) (lock nm h : Z) :
  lock <> NULL ->
  heap s !! lock = Some (OLock nm h) ->
  h <> NULL ->
  exists s', run 5 (lock_acquire lock) s = Blocked s' (acq_loop lock (curspl s))
    /\ heap s' = heap s
    /\ sleepers s' = sleepers s ++ [(curthread s, lock)]
    /\ curspl s' = SPL_HIGH.
Proof.
  intros Hn Hl Hh. unfold lock_acquire. kred. rewrite (c_true_ne _ _ Hn). kred.
  rewrite Hl. kred. rewrite (c_true_ne _ _ Hh). kred.
  eexists. split; [reflexivity|]. kred. repeat split.
Qed.

(** X17: [cv_wait] gives up the lock and goes to sleep without ever enabling
    interrupts in between: the [splx] of the inner [lock_release] restores
    the raised level that its own [splhigh] found.  What the sleeper has
    left to do is restore the caller's level and take the lock again. *)
Theorem cv_wait_release_sleep_atomic (s : kstate) (cv lock nm : Z) :
  cv <> NULL -> lock <> NULL ->
  heap s !! lock = Some (OLock nm (curthread s)) ->
  exists s',
    run 12 (cv_wait cv lock) s =
      Blocked s' (splx (curspl s) ;; lock_acquire lock)
    /\ heap s' = <[lock := OLock nm NULL]> (heap s)
    /\ sleepers s' =
         filter (fun e => negb (on_chan lock e)) (sleepers s) ++ [(curthread s, cv)]
    /\ curspl s' = SPL_HIGH
    /\ klog s' = klog s ++
         [(curthread s, EvSplhigh);
          (curthread s, EvSplhigh);
          (curthread s, EvStore (lock ->> lk_holder) NULL);
          (curthread s, EvWakeup lock);
          (curthread s, EvSplx SPL_HIGH);
          (curthread s, EvSleep cv)].
Proof.
  intros Hc Hl Hh. unfold cv_wait, lock_do_i_hold, lock_release. kred.
  rewrite (c_true_ne _ _ Hc). kred. rewrite (c_true_ne _ _ Hl). kred.
  rewrite Hh. kred. rewrite c_true_eq, Z.eqb_refl. kred.
  rewrite Hh. kred.
  eexists. split; [reflexivity|]. kred. repeat split. logeq.
Qed.

(** ** Waking *)

Lemma remove_first_none chan (q : list (Z * Z)) :
  existsb (on_chan chan) q = false -> remove_first chan q = q.
Proof.
  induction q as [|e q IH]; simpl; [reflexivity|].
  destruct (on_chan chan e); simpl; [discriminate|].
  intros H. rewrite IH by exact H. reflexivity.
Qed.

Lemma remove_first_split chan (q1 q2 : list (Z * Z)) t :
  existsb (on_chan chan) q1 = false ->
  remove_first chan (q1 ++ (t, chan) :: q2) = q1 ++ q2.
Proof.
  induction q1 as [|e q1 IH]; simpl.
  - intros _. unfold on_chan. simpl. rewrite Z.eqb_refl. reflexivity.
  - destruct (on_chan chan e); simpl; [discriminate|].
    intros H. rewrite IH by exact H. reflexivity.
Qed.

(** X19: [cv_signal] by the holder wakes the thread that has waited longest on
    the condition variable and nobody else; with no thread waiting the
    signal is lost, the sleepers and the heap are as before. *)
Theorem cv_signal_wakes_one (s : kstate) (cv lock nm : Z) :
  cv <> NULL -> lock <> NULL ->
  heap s !! lock = Some (OLock nm (curthread s)) ->
  exists s', run 7 (cv_signal cv lock) s = Done 0 s'
    /\ heap s' = heap s
    /\ (existsb (on_chan cv) (sleepers s) = false -> sleepers s' = sleepers s)
    /\ (forall q1 t q2,
          sleepers s = q1 ++ (t, cv) :: q2 ->
          existsb (on_chan cv) q1 = false ->
          sleepers s' = q1 ++ q2).
Proof.
  intros Hc Hl Hh. unfold cv_signal, lock_do_i_hold. kred.
  rewrite (c_true_ne _ _ Hc). kred. rewrite (c_true_ne _ _ Hl). kred.
  rewrite Hh. kred. rewrite c_true_eq, Z.eqb_refl. kred.
  eexists. split; [reflexivity|]. kred. split; [reflexivity|]. split.
  - apply remove_first_none.
  - intros q1 t q2 -> Hq. apply remove_first_split. exact Hq.
Qed.

(** X20: [cv_broadcast] by the holder wakes every thread waiting on the
    condition variable and no thread waiting on anything else, between a
    [splhigh] and the [splx] that restores the caller's level; the lock
    stays with the caller. *)
Theorem cv_broadcast_spec (s : kstate) (cv lock nm : Z) :
  cv <> NULL -> lock <> NULL ->
  heap s !! lock = Some (OLock nm (curthread s)) ->
  exists s', run 9 (cv_broadcast cv lock) s = Done 0 s'
    /\ heap s' = heap s
    /\ (forall t, (t, cv) ∉ sleepers s')
    /\ (forall t chan, chan <> cv -> (t, chan) ∈ sleepers s -> (t, chan) ∈ sleepers s')
    /\ (forall e, e ∈ sleepers s' -> e ∈ sleepers s)
    /\ curspl s' = curspl s
    /\ klog s' = klog s ++
         [(curthread s, EvSplhigh); (curthread s, EvWakeup cv);
          (curthread s, EvSplx (curspl s))].
Proof.
  intros Hc Hl Hh. unfold cv_broadcast, lock_do_i_hold. kred.
  rewrite (c_true_ne _ _ Hc). kred. rewrite (c_true_ne _ _ Hl). kred.
  rewrite Hh. kred. rewrite c_true_eq, Z.eqb_refl. kred.
  eexists. split; [reflexivity|]. kred. split; [reflexivity|].
  split; [intros t; apply not_on_chan_filter|]. split; [|split; [|split]].
  - intros t chan Hne Hin. apply list_elem_of_filter. split; [|exact Hin].
    unfold on_chan. simpl. apply Z.eqb_neq in Hne. rewrite Hne. exact I.
  - intros e He. apply list_elem_of_filter in He as [_ He]. exact He.
  - reflexivity.
  - logeq.
Qed.

(** ** Which operations can block *)

Lemma no_sleep_bind p f :
  no_sleep p -> (forall v, no_sleep (f v)) -> no_sleep (bind p f).
Proof.
  induction p as [v|c k IH|b k IH|c IHc b IHb k IHk]; simpl; intros Hp Hf; auto.
  - destruct Hp as [Hc Hk]. split; [exact Hc|]. intros v. apply IH; auto.
  - destruct Hp as (Hc & Hb & Hk). auto.
Qed.

Lemma no_sleep_step p s :
  no_sleep p ->
  match step p s with
  | SNext _ p' => no_sleep p'
  | SYield _ _ => False
  | _ => True
  end.
Proof.
  destruct p as [v|c k|b k|c b k]; simpl; intros Hp.
  - exact I.
  - destruct Hp as [Hc Hk]. destruct (exec_cmd c s) as [[v s']|]; [|exact I].
    rewrite Hc. apply Hk.
  - destruct b; [exact Hp | exact I].
  - destruct Hp as (Hc & Hb & Hk).
    apply no_sleep_bind; [exact Hc|]. intros v. destruct (c_true v); [|exact Hk].
    apply no_sleep_bind; [exact Hb|]. intros _. simpl. auto.
Qed.

Lemma no_sleep_run n p s s' p' : no_sleep p -> run n p s <> Blocked s' p'.
Proof.
  revert p s. induction n as [|n IH]; intros p s Hp; simpl; [discriminate|].
  pose proof (no_sleep_step p s Hp) as Hs.
  destruct (step p s) as [v|s1 p1|s1 p1| |]; try discriminate.
  - apply IH. exact Hs.
  - destruct Hs.
Qed.

Lemma no_sleep_call c : may_block c = false -> no_sleep (call_prog c).
Proof.
  destruct c; try discriminate; intros _; simpl;
    repeat (first [ split | intros ? | reflexivity | exact I
                  | match goal with |- context [if ?b then _ else _] => destruct b end ];
            simpl).
Qed.

(** X21: Of the fourteen functions only [P], [lock_acquire] and [cv_wait] can
    put the calling thread to sleep: none of the others ever blocks, from
    any state and whatever it finds in memory. *)
Theorem only_three_can_block (c : call) (n : nat) (s s' : kstate) (p' : prog) :
  may_block c = false ->
  run n (call_prog c) s <> Blocked s' p'.
Proof. intros Hc. apply no_sleep_run. apply no_sleep_call. exact Hc. Qed.

(** ** The interrupt level is given back *)

Lemma ipl_wp_mono p : forall now (K K' : Z -> Prop),
  (forall l, K l -> K' l) -> ipl_wp p now K -> ipl_wp p now K'.
Proof.
  induction p as [v|c k IH|b k IH|c IHc b IHb k IHk]; intros now K K' HK; simpl.
  - apply HK.
  - destruct c; try (intros Hwp x; eapply IH; [exact HK | apply Hwp]);
      intros Hwp; eapply IH; eauto.
  - apply IH. exact HK.
  - intros (I & HI & Hall). exists I. split; [exact HI|].
    intros l Hl. eapply IHc; [|apply Hall; exact Hl].
    intros l' [Hb Hk]. split; [exact Hb|]. eapply IHk; eauto.
Qed.

Lemma ipl_wp_bind p : forall f now (K : Z -> Prop),
  ipl_wp p now (fun l => forall v, ipl_wp (f v) l K) ->
  ipl_wp (bind p f) now K.
Proof.
  induction p as [v|c k IH|b k IH|c IHc b IHb k IHk]; intros f now K; simpl.
  - intros H. apply H.
  - destruct c; try (intros Hwp x; apply IH; apply Hwp);
      intros Hwp; apply IH; exact Hwp.
  - apply IH.
  - intros (I & HI & Hall). exists I. split; [exact HI|].
    intros l Hl. eapply ipl_wp_mono; [|apply Hall; exact Hl].
    intros l' [Hb Hk]. split; [exact Hb|]. apply IHk. exact Hk.
Qed.

Lemma exec_cmd_curspl c s v s' :
  exec_cmd c s = Some (v, s') ->
  match c with
  | Splhigh => v = curspl s /\ curspl s' = SPL_HIGH
  | Splx l => v = 0 /\ curspl s' = l
  | _ => curspl s' = curspl s
  end.
Proof.
  destruct c; simpl; try (intros H; injection H as <- <-; auto).
  - unfold do_alloc. destruct (kfree_left s); intros H; injection H as <- <-; reflexivity.
  - unfold do_alloc. destruct (kfree_left s); intros H; injection H as <- <-; reflexivity.
  - unfold do_kfree. destruct (heap s !! p); [|discriminate].
    intros H; injection H as <- <-; reflexivity.
  - destruct l as [p f| |]; simpl.
    + destruct (heap s !! p) as [o|]; [|discriminate].
      destruct (read_field o f); [|discriminate]. intros H; injection H as <- <-; reflexivity.
    + intros H; injection H as <- <-; reflexivity.
    + intros H; injection H as <- <-; reflexivity.
  - destruct l as [p f| |]; simpl; try discriminate.
    destruct (heap s !! p) as [o|]; [|discriminate].
    destruct (write_field o f v0); [|discriminate]. intros H; injection H as <- <-; reflexivity.
Qed.

Lemma ipl_wp_step p s s' p' (K : Z -> Prop) :
  ipl_wp p (curspl s) K -> moved (step p s) s' p' -> ipl_wp p' (curspl s') K.
Proof.
  destruct p as [v|c k|b k|c b k]; intros Hwp Hm.
  - destruct (step_ret_inv _ _ _ _ Hm).
  - apply step_do_inv in Hm as (v & He & ->).
    pose proof (exec_cmd_curspl _ _ _ _ He) as Hc. simpl in Hwp.
    destruct c; try (rewrite Hc; apply Hwp).
    + destruct Hc as [-> ->]. exact Hwp.
    + destruct Hc as [-> ->]. exact Hwp.
  - apply step_assert_inv in Hm as (_ & -> & ->). exact Hwp.
  - apply step_while_inv in Hm as (-> & ->).
    destruct Hwp as (I & HI & Hall).
    apply ipl_wp_bind. eapply ipl_wp_mono; [|apply Hall; exact HI].
    intros l [Hb Hk] r. destruct (c_true r); [|exact Hk].
    apply ipl_wp_bind. eapply ipl_wp_mono; [|exact Hb].
    intros l' Hl' _. exists I. split; [exact Hl' | exact Hall].
Qed.

Lemma ipl_wp_call c now : ipl_wp (call_prog c) now (fun l => l = now).
Proof.
  destruct c; simpl;
    repeat (first [ reflexivity
                  | intros ?
                  | match goal with
                    | |- context [if ?b then _ else _] => destruct b
                    | |- exists I : Z -> Prop, _ => exists (fun l => l = SPL_HIGH)
                    | |- _ /\ _ => split
                    end ];
            simpl); subst; reflexivity.
Qed.

Lemma ipl_kept_step L t d m m' :
  ipl_kept L t m -> mstep d m = MOk m' -> ipl_kept L t m'.
Proof.
  intros Hinv Hd th'. destruct d as [|r].
  - apply mstep_run_inv in Hd as (th & Hth & Haw & Hcase).
    destruct Hcase as [(v & c & rest & Hret & Hto & ->)|(k' & p' & Hm & ->)];
      cbn [m_k m_pool]; rewrite lookup_insert; case_decide as Hd.
    + intros Ht. injection Ht as <-. subst t. cbn [t_code].
      specialize (Hinv _ Hth). rewrite Hret in Hinv. simpl in Hinv.
      unfold eff_spl in *. rewrite Z.eqb_refl in *. cbn [t_spl].
      rewrite <- Hinv. apply ipl_wp_call.
    + intros Ht. specialize (Hinv _ Ht). exact Hinv.
    + intros Ht. injection Ht as <-. subst t. cbn [set_code t_code].
      specialize (Hinv _ Hth). rewrite eff_spl_cur in Hinv.
      pose proof (step_curthread _ _ _ _ Hm) as Hcur.
      unfold eff_spl. rewrite Hcur, Z.eqb_refl.
      eapply ipl_wp_step; eauto.
    + intros Ht. specialize (Hinv _ Ht).
      pose proof (step_curthread _ _ _ _ Hm) as Hcur.
      rewrite eff_spl_other in Hinv by congruence.
      rewrite eff_spl_other by congruence. exact Hinv.
  - apply mstep_switch_inv in Hd as (th & thr & Hth & Hr & Hne & Har & Hwhy & ->).
    cbn [m_k m_pool]. rewrite lookup_insert. case_decide as Hd.
    + intros Ht. injection Ht as <-. subst t. cbn [t_code].
      specialize (Hinv _ Hth). rewrite eff_spl_cur in Hinv.
      unfold eff_spl. cbn [curthread set_spl set_curthread t_spl].
      assert (E : (curthread (m_k m) =? r) = false) by (apply Z.eqb_neq; congruence).
      rewrite E. exact Hinv.
    + intros Ht. specialize (Hinv _ Ht).
      rewrite eff_spl_other in Hinv by congruence.
      unfold eff_spl. cbn [curthread curspl set_spl set_curthread].
      destruct (Z.eqb_spec t r) as [->|_]; [|exact Hinv].
      rewrite Hr in Ht. injection Ht as <-. exact Hinv.
Qed.

(** X23: No call leaks a raised interrupt level.  Take a thread that is
    between calls, in any pool and any kernel state, and run the machine
    under any schedule: whenever the thread is between calls again, after
    any number of calls that returned, blocked or were preempted, its
    interrupt level is the one it started with. *)
Theorem calls_restore_ipl
    (m0 m : machine) (sched : list decision) (t : Z) (th0 th : thread) :
  m_pool m0 !! t = Some th0 ->
  is_ret (t_code th0) = true ->
  mrun sched m0 = MOk m ->
  m_pool m !! t = Some th ->
  is_ret (t_code th) = true ->
  eff_spl (m_k m) t th = eff_spl (m_k m0) t th0.
Proof.
  intros Ht0 Hr0 Hrun Ht Hr.
  assert (Hinv : ipl_kept (eff_spl (m_k m0) t th0) t m).
  { eapply (mrun_invariant (ipl_kept (eff_spl (m_k m0) t th0) t)); [| |exact Hrun].
    - intros d m1 m2. apply ipl_kept_step.
    - intros th1 Ht1. rewrite Ht0 in Ht1. injection Ht1 as <-.
      destruct (t_code th0); try discriminate. simpl. reflexivity. }
  specialize (Hinv _ Ht). destruct (t_code th); try discriminate. exact Hinv.
Qed.

(** ** Mutual exclusion *)

Lemma lk_step_ok lock pt k k' p' :
  (lk_crit pt || lk_head pt = true -> curspl k <> 0) ->
  (lk_crit pt = true -> lk_local lock pt k) ->
  (lk_holds pt = true -> exists nm, heap k !! lock = Some (OLock nm (curthread k))) ->
  asleep (curthread k) k = false ->
  moved (step (lk_code lock pt) k) k' p' ->
  exists pt',
    p' = lk_code lock pt'
    /\ (forall c todo, lk_call_ok lock pt c todo -> lk_call_ok lock pt' c todo)
    /\ (lk_crit pt' || lk_head pt' = true -> curspl k' <> 0)
    /\ (lk_crit pt' = true -> asleep (curthread k') k' = false /\ lk_local lock pt' k')
    /\ (lk_holds pt' = true ->
        exists nm, heap k' !! lock = Some (OLock nm (curthread k')))
    /\ (forall t nm, t <> NULL -> t <> curthread k ->
        heap k !! lock = Some (OLock nm t) -> heap k' !! lock = Some (OLock nm t)).
Proof.
  intros Hspl Hloc Hholds Hawake Hm.
  destruct pt; simpl in Hspl, Hloc, Hholds; cbn [lk_code] in Hm.
  - (* idle *) destruct (step_ret_inv _ _ _ _ Hm).
  - (* LA0 *) apply step_assert_inv in Hm as (_ & -> & ->).
    exists LA1. simpl. repeat split; auto; try discriminate; tauto.
  - (* LA1 *) apply step_do_inv in Hm as (v & He & ->).
    simpl in He. injection He as <- <-.
    exists (LA2 (curspl k)). simpl. repeat split; auto; try discriminate; tauto.
  - (* LA2 *) apply step_while_inv in Hm as (-> & ->).
    exists (LA3 spl). simpl. repeat split; auto; try discriminate; tauto.
  - (* LA3 *) apply step_do_inv in Hm as (v & He & ->).
    apply exec_load_holder in He as (-> & nm & Hh).
    destruct (c_true (c_ne v NULL)) eqn:Hv.
    + exists (LA4 spl). simpl. repeat split; auto; try discriminate; tauto.
    + exists (LA5 spl). simpl. repeat split; auto; try discriminate; try tauto.
      exists nm. unfold c_true, c_ne in Hv.
      destruct (Z.eqb_spec v NULL) as [->|]; [exact Hh | discriminate].
  - (* LA4 *) apply step_do_inv in Hm as (v & He & ->).
    simpl in He. injection He as <- <-.
    exists (LA2 spl). simpl. repeat split; auto; try discriminate; tauto.
  - (* LA5 *) apply step_do_inv in Hm as (v & He & ->).
    simpl in He. injection He as <- <-.
    exists (LA6 spl (curthread k)). simpl. repeat split; auto; try discriminate; tauto.
  - (* LA6 *) apply step_do_inv in Hm as (v & He & ->).
    apply exec_store_holder in He as (nm & h & Hh & ->).
    destruct (Hloc eq_refl) as (-> & nm' & Hh').
    rewrite Hh in Hh'. injection Hh' as <- ->.
    exists (LA7 spl). simpl. repeat split; auto; try discriminate; try tauto.
    + exists nm. apply lookup_insert_eq.
    + intros t nm0 Ht _ Ht'. rewrite Hh in Ht'. injection Ht' as <- <-.
      congruence.
  - (* LA7 *) apply step_do_inv in Hm as (v & He & ->).
    simpl in He. injection He as <- <-.
    exists (LHeld 0). simpl. repeat split; auto; try discriminate; tauto.
  - (* held *) destruct (step_ret_inv _ _ _ _ Hm).
  - (* LR0 *) apply step_assert_inv in Hm as (_ & -> & ->).
    exists LR1. simpl. repeat split; auto; try discriminate; tauto.
  - (* LR1 *) apply step_do_inv in Hm as (v & He & ->).
    simpl in He. injection He as <- <-.
    exists (LR2 (curspl k)). simpl. repeat split; auto; try discriminate; tauto.
  - (* LR2 *) apply step_do_inv in Hm as (v & He & ->).
    apply exec_store_holder in He as (nm & h & Hh & ->).
    destruct (Hholds eq_refl) as (nm' & Hh').
    rewrite Hh in Hh'. injection Hh' as <- ->.
    exists (LR3 spl). simpl. repeat split; auto; try discriminate; try tauto.
    intros t nm0 _ Hne Ht'. rewrite Hh in Ht'. injection Ht' as <- <-.
    congruence.
  - (* LR3 *) apply step_do_inv in Hm as (v & He & ->).
    simpl in He. injection He as <- <-.
    exists (LR4 spl). simpl. repeat split; auto; try discriminate; try tauto.
    unfold asleep in *. simpl. rewrite <- not_true_iff_false in *.
    intros He. apply Hawake. apply existsb_exists in He as (e & Hin & He).
    apply existsb_exists. exists e. split; [|exact He].
    apply list_elem_of_In in Hin. apply list_elem_of_filter in Hin as [_ Hin].
    apply list_elem_of_In. exact Hin.
  - (* LR4 *) apply step_do_inv in Hm as (v & He & ->).
    simpl in He. injection He as <- <-.
    exists (LIdle 0). simpl. split; [reflexivity|].
    split; [intros c todo [-> Ha]; split; [discriminate | exact Ha]|].
    repeat split; auto; discriminate.
Qed.

Lemma lk_crit_not_ret lock pt : lk_crit pt = true -> is_ret (lk_code lock pt) = false.
Proof. destruct pt; try discriminate; reflexivity. Qed.

Lemma lk_thread_ok_other lock k k' t th :
  lk_thread_ok lock k t th -> t <> curthread k -> curthread k' <> t ->
  (forall nm, heap k !! lock = Some (OLock nm t) -> heap k' !! lock = Some (OLock nm t)) ->
  lk_thread_ok lock k' t th.
Proof.
  intros (Hnn & pt & Hcode & Hcall & Hholds & Hcrit & Heff) Hne Hne' Hkeep.
  split; [exact Hnn|]. exists pt. split; [exact Hcode|]. split; [exact Hcall|].
  split; [|split].
  - intros Hh. destruct (Hholds Hh) as [nm Hnm]. exists nm. apply Hkeep. exact Hnm.
  - intros Hc. destruct (Hcrit Hc) as (Heq & _). congruence.
  - intros Hc. rewrite eff_spl_other by congruence.
    rewrite eff_spl_other in Heff by exact Hne. auto.
Qed.

Lemma lk_good_step lock d m m' :
  lk_good lock m -> mstep d m = MOk m' -> lk_good lock m'.
Proof.
  intros Hthr Hd. destruct d as [|r].
  - apply mstep_run_inv in Hd as (th & Hth & Haw & Hcase).
    destruct (Hthr _ _ Hth) as (Hnn & pt & Hcode & Hcall & Hholds & Hcrit & Heff).
    destruct Hcase as [(v & c & rest & Hret & Hto & ->)|(k' & p' & Hm & ->)].
    + intros t th'. cbn [m_k m_pool]. rewrite lookup_insert. case_decide as Hd.
      * intros Ht. injection Ht as <-. subst t. split; [exact Hnn|].
        rewrite Hto in Hcall. rewrite Hret in Hcode.
        destruct pt; try discriminate; simpl in Hcall; destruct Hcall as [Hc Ha].
        -- (* was idle: the next call is lock_acquire *)
           destruct c; try discriminate.
           apply andb_true_iff in Ha as [Hl Ha]. apply Z.eqb_eq in Hl. subst lock0.
           exists LA0. cbn [t_code t_call t_todo lk_code call_prog].
           split; [reflexivity|]. split; [split; [reflexivity | exact Ha]|].
           split; [discriminate|]. split; discriminate.
        -- (* was holding: the next call is lock_release *)
           destruct c; try discriminate.
           apply andb_true_iff in Ha as [Hl Ha]. apply Z.eqb_eq in Hl. subst lock0.
           exists LR0. cbn [t_code t_call t_todo lk_code call_prog].
           split; [reflexivity|]. split; [split; [reflexivity | exact Ha]|].
           split; [intros _; apply Hholds; reflexivity|]. split; discriminate.
      * intros Ht. exact (Hthr _ _ Ht).
    + rewrite Hcode in Hm. rewrite eff_spl_cur in Heff.
      pose proof (step_curthread _ _ _ _ Hm) as Hcur.
      destruct (lk_step_ok lock pt _ _ _ Heff
                  (fun Hc => proj2 (proj2 (Hcrit Hc))) Hholds Haw Hm)
        as (pt' & -> & Hcall' & Hspl' & Hcrit' & Hholds' & Hkeep).
      intros t th'. cbn [m_k m_pool]. rewrite lookup_insert. case_decide as Hd.
      * intros Ht. injection Ht as <-. subst t. split; [exact Hnn|].
        exists pt'. cbn [set_code t_code t_call t_todo].
        split; [reflexivity|]. split; [apply Hcall'; exact Hcall|].
        split; [|split].
        -- intros Hh. destruct (Hholds' Hh) as [nm Hnm]. exists nm.
           rewrite <- Hcur. exact Hnm.
        -- intros Hc. destruct (Hcrit' Hc) as [Ha Hl]. rewrite <- Hcur. auto.
        -- rewrite <- Hcur, eff_spl_cur. exact Hspl'.
      * intros Ht. pose proof (Hthr _ _ Ht) as Hok.
        eapply lk_thread_ok_other; [exact Hok | congruence | congruence |].
        intros nm Hnm. apply Hkeep; [apply Hok | congruence | exact Hnm].
  - apply mstep_switch_inv in Hd as (th & thr & Hth & Hr & Hne & Har & Hwhy & ->).
    intros t th'. cbn [m_k m_pool]. rewrite lookup_insert. case_decide as Hd.
    + intros Ht. injection Ht as <-. subst t.
      destruct (Hthr _ _ Hth) as (Hnn & pt & Hcode & Hcall & Hholds & Hcrit & Heff).
      rewrite eff_spl_cur in Heff.
      assert (Hnc : lk_crit pt = false).
      { destruct (lk_crit pt) eqn:Hc; [|reflexivity]. exfalso.
        destruct (Hcrit eq_refl) as (_ & Ha & _).
        destruct Hwhy as [Hz|[Hs|Hf]].
        - apply Heff; [reflexivity | exact Hz].
        - congruence.
        - unfold finished in Hf. pose proof (lk_crit_not_ret lock pt Hc) as Hnr.
          rewrite <- Hcode in Hnr. destruct (t_code th); try discriminate. }
      split; [exact Hnn|]. exists pt. cbn [t_code t_call t_todo].
      split; [exact Hcode|]. split; [exact Hcall|]. split; [exact Hholds|].
      rewrite Hnc. split; [discriminate|].
      intros Hh. unfold eff_spl. cbn [curthread set_spl set_curthread t_spl].
      assert (E : (curthread (m_k m) =? r) = false) by (apply Z.eqb_neq; congruence).
      rewrite E. apply Heff. rewrite Hnc. exact Hh.
    + intros Ht.
      destruct (Hthr _ _ Ht) as (Hnn & pt & Hcode & Hcall & Hholds & Hcrit & Heff).
      assert (Hnc : lk_crit pt = false).
      { destruct (lk_crit pt) eqn:Hc; [|reflexivity].
        destruct (Hcrit eq_refl) as (Heq & _). congruence. }
      split; [exact Hnn|]. exists pt.
      split; [exact Hcode|]. split; [exact Hcall|]. split; [exact Hholds|].
      rewrite Hnc. split; [discriminate|].
      intros Hh. rewrite eff_spl_other in Heff by congruence.
      unfold eff_spl. cbn [curthread curspl set_spl set_curthread].
      destruct (Z.eqb_spec t r) as [->|_].
      * rewrite Hr in Ht. injection Ht as <-. apply Heff. rewrite Hnc. exact Hh.
      * apply Heff. rewrite Hnc. exact Hh.
Qed.

Lemma lock_boot_good lock m : lock_boot lock (m_pool m) = true -> lk_good lock m.
Proof.
  unfold lock_boot. rewrite forallb_forall. intros H t th Ht.
  assert (Hin : In (t, th) (map_to_list (m_pool m)))
    by (apply list_elem_of_In; apply elem_of_map_to_list; exact Ht).
  specialize (H _ Hin). simpl in H.
  apply andb_true_iff in H as [H Halt]. apply andb_true_iff in H as [H Hcall].
  apply andb_true_iff in H as [Hnn Hret].
  split.
  - apply negb_true_iff in Hnn. apply Z.eqb_neq in Hnn. exact Hnn.
  - destruct (t_code th) as [v| | |] eqn:Hcode; try discriminate.
    exists (LIdle v). split; [reflexivity|]. split.
    + split; [|exact Halt]. unfold no_call in Hcall.
      destruct (t_call th); [discriminate | discriminate].
    + split; [discriminate|]. split; discriminate.
Qed.

(** X25: Threads that each call [lock_acquire] and [lock_release] on one lock
    in turn exclude each other, under any schedule and from any kernel
    state: two threads that have both returned from [lock_acquire] and
    not yet called [lock_release] are the same thread, and that thread is
    the lock's holder. *)
Theorem lock_mutual_exclusion
    (lock : Z) (m0 m : machine) (sched : list decision)
    (t1 t2 : Z) (th1 th2 : thread) :
  lock_boot lock (m_pool m0) = true ->
  mrun sched m0 = MOk m ->
  m_pool m !! t1 = Some th1 ->
  m_pool m !! t2 = Some th2 ->
  in_cs lock th1 ->
  in_cs lock th2 ->
  t1 = t2 /\ exists nm, heap (m_k m) !! lock = Some (OLock nm t1).
Proof.
  intros Hb Hr Ht1 Ht2 [Hc1 Hr1] [Hc2 Hr2].
  assert (Hgood : lk_good lock m).
  { eapply (mrun_invariant (lk_good lock)); [|apply lock_boot_good; exact Hb|exact Hr].
    intros d m1 m2. apply lk_good_step. }
  assert (Hholder : forall t th, m_pool m !! t = Some th ->
            t_call th = Some (CLockAcquire lock) -> is_ret (t_code th) = true ->
            exists nm, heap (m_k m) !! lock = Some (OLock nm t)).
  { intros t th Ht Hc Hret.
    destruct (Hgood _ _ Ht) as (_ & pt & Hcode & Hcall & Hholds & _).
    rewrite Hcode in Hret.
    destruct pt; try discriminate; simpl in Hcall.
    - destruct Hcall as [Hn _]. congruence.
    - apply Hholds. reflexivity. }
  destruct (Hholder _ _ Ht1 Hc1 Hr1) as [nm1 H1].
  destruct (Hholder _ _ Ht2 Hc2 Hr2) as [nm2 H2].
  split; [congruence | eauto].
Qed.

(** ** [lock_acquire] among arbitrary threads *)

Lemma la_thread_ok_other k k' t th :
  la_thread_ok k t th -> t <> curthread k -> curthread k' <> t ->
  la_thread_ok k' t th.
Proof.
  intros Hok Hne Hne' lock Hcall.
  destruct (Hok lock Hcall) as (pt & Hcode & Hcrit & Heff).
  exists pt. split; [exact Hcode|]. split.
  - intros Hc. destruct (Hcrit Hc) as (Heq & _). congruence.
  - intros Hc. rewrite eff_spl_other by congruence.
    rewrite eff_spl_other in Heff by exact Hne. auto.
Qed.

Lemma la_good_step d m m' : la_good m -> mstep d m = MOk m' -> la_good m'.
Proof.
  intros Hthr Hd. destruct d as [|r].
  - apply mstep_run_inv in Hd as (th & Hth & Haw & Hcase).
    destruct Hcase as [(v & c & rest & Hret & Hto & ->)|(k' & p' & Hm & ->)].
    + intros t th'. cbn [m_k m_pool]. rewrite lookup_insert. case_decide as Hd.
      * intros Ht. injection Ht as <-. subst t. intros lock Hcall.
        cbn [t_call] in Hcall. injection Hcall as ->.
        exists A0. cbn [t_code]. split; [reflexivity|]. split; discriminate.
      * intros Ht. exact (Hthr _ _ Ht).
    + pose proof (step_curthread _ _ _ _ Hm) as Hcur.
      intros t th'. cbn [m_k m_pool]. rewrite lookup_insert. case_decide as Hd.
      * intros Ht. injection Ht as <-. subst t. intros lock Hcall.
        cbn [set_code t_call] in Hcall.
        destruct (Hthr _ _ Hth lock Hcall) as (pt & Hcode & Hcrit & Heff).
        rewrite Hcode in Hm. rewrite eff_spl_cur in Heff.
        destruct (cw_step_ok NULL lock pt _ _ _ Heff
                    (fun Hc => proj2 (proj2 (Hcrit Hc))) Haw Hm)
          as (pt' & -> & Hspl' & Hcrit' & _).
        exists pt'. cbn [set_code t_code]. split; [reflexivity|]. split.
        -- intros Hc. destruct (Hcrit' Hc) as [Ha Hl]. rewrite <- Hcur. auto.
        -- rewrite <- Hcur, eff_spl_cur. exact Hspl'.
      * intros Ht. eapply la_thread_ok_other; eauto. congruence.
  - apply mstep_switch_inv in Hd as (th & thr & Hth & Hr & Hne & Har & Hwhy & ->).
    intros t th'. cbn [m_k m_pool]. rewrite lookup_insert. case_decide as Hd.
    + intros Ht. injection Ht as <-. subst t. intros lock Hcall.
      cbn [t_call] in Hcall.
      destruct (Hthr _ _ Hth lock Hcall) as (pt & Hcode & Hcrit & Heff).
      rewrite eff_spl_cur in Heff.
      assert (Hnc : cw_crit pt = false).
      { destruct (cw_crit pt) eqn:Hc; [|reflexivity]. exfalso.
        destruct (Hcrit eq_refl) as (_ & Ha & _).
        destruct Hwhy as [Hz|[Hs|Hf]].
        - apply Heff; [reflexivity | exact Hz].
        - congruence.
        - unfold finished in Hf. pose proof (cw_crit_not_ret NULL lock pt Hc) as Hnr.
          rewrite <- Hcode in Hnr. destruct (t_code th); try discriminate. }
      exists pt. cbn [t_code].
      split; [exact Hcode|]. rewrite Hnc. split; [discriminate|].
      intros Hh. unfold eff_spl. cbn [curthread set_spl set_curthread t_spl].
      assert (E : (curthread (m_k m) =? r) = false) by (apply Z.eqb_neq; congruence).
      rewrite E. apply Heff. rewrite Hnc. exact Hh.
    + intros Ht lock Hcall.
      destruct (Hthr _ _ Ht lock Hcall) as (pt & Hcode & Hcrit & Heff).
      assert (Hnc : cw_crit pt = false).
      { destruct (cw_crit pt) eqn:Hc; [|reflexivity].
        destruct (Hcrit eq_refl) as (Heq & _). congruence. }
      exists pt. split; [exact Hcode|]. rewrite Hnc. split; [discriminate|].
      intros Hh. rewrite eff_spl_other in Heff by congruence.
      unfold eff_spl. cbn [curthread curspl set_spl set_curthread].
      destruct (Z.eqb_spec t r) as [->|_].
      * rewrite Hr in Ht. injection Ht as <-. apply Heff. rewrite Hnc. exact Hh.
      * apply Heff. rewrite Hnc. exact Hh.
Qed.

Lemma idle_pool_la_good m : idle_pool (m_pool m) = true -> la_good m.
Proof.
  unfold idle_pool. intros H t th Ht lock _.
  pose proof (proj1 (map_all_spec _ _) H _ _ Ht) as Hr. simpl in Hr.
  destruct (t_code th) as [v| | |] eqn:Hcode; try discriminate.
  exists (Wret v). split; [reflexivity|]. split; discriminate.
Qed.

(** X24: Whatever the other threads of the pool call, and under any schedule,
    the step with which a thread returns from [lock_acquire] leaves that
    thread on the processor as the holder of the lock: nobody can take
    the lock, or clear it, between the store of the holder and the
    return. *)
Theorem lock_acquire_returns_holding
    (m0 m m' : machine) (sched : list decision) (d : decision)
    (t lock : Z) (th th' : thread) :
  idle_pool (m_pool m0) = true ->
  mrun sched m0 = MOk m ->
  mstep d m = MOk m' ->
  m_pool m !! t = Some th ->
  t_call th = Some (CLockAcquire lock) ->
  is_ret (t_code th) = false ->
  m_pool m' !! t = Some th' ->
  is_ret (t_code th') = true ->
  curthread (m_k m') = t
  /\ exists nm, heap (m_k m') !! lock = Some (OLock nm t).
Proof.
  intros Hidle Hr Hd Ht Hcall Hnr Ht' Hret.
  assert (Hgood : la_good m).
  { eapply (mrun_invariant la_good); [|apply idle_pool_la_good; exact Hidle|exact Hr].
    intros d0 m1 m2. apply la_good_step. }
  destruct d as [|r].
  - apply mstep_run_inv in Hd as (thc & Hthc & Haw & Hcase).
    destruct Hcase as [(v & c & rest & Hcode & Hto & ->)|(k' & p' & Hm & ->)];
      cbn [m_k m_pool] in *.
    + rewrite lookup_insert in Ht'. case_decide as Hd.
      * injection Ht' as <-. cbn [t_code] in Hret. destruct c; discriminate.
      * congruence.
    + rewrite lookup_insert in Ht'. case_decide as Hd; [|congruence].
      injection Ht' as <-. subst t. rewrite Hthc in Ht. injection Ht as ->.
      destruct (Hgood _ _ Hthc lock Hcall) as (pt & Hcode & Hcrit & Heff).
      rewrite Hcode in Hm. rewrite eff_spl_cur in Heff.
      pose proof (step_curthread _ _ _ _ Hm) as Hcur.
      destruct (cw_step_ok NULL lock pt _ _ _ Heff
                  (fun Hc => proj2 (proj2 (Hcrit Hc))) Haw Hm)
        as (pt' & -> & _ & _ & Hfin).
      cbn [set_code t_code] in Hret. destruct (Hfin Hret) as [nm Hh].
      split; [exact Hcur|]. exists nm. rewrite <- Hcur. exact Hh.
  - apply mstep_switch_inv in Hd as (thc & thr & Hthc & Hthr & _ & _ & _ & ->).
    cbn [m_k m_pool] in *. rewrite lookup_insert in Ht'.
    case_decide as Hd.
    + injection Ht' as <-. cbn [t_code] in Hret. subst t. congruence.
    + congruence.
Qed.

(** ** Waking up *)

(** X13: [P] on a count of 0 goes to sleep on the semaphore with the loop still
    to run.  A thread that is woken tests the count again: if it is still
    0, because another thread was faster, it goes back to sleep; if it is
    positive the thread takes one and returns at the level it called [P]
    with. *)
Theorem P_wakeup_rechecks (s : kstate) (sem nm : Z) :
  sem <> NULL -> in_interrupt s = 0 ->
  heap s !! sem = Some (OSem nm 0) ->
  exists s',
    run 7 (P sem) s = Blocked s' (P_loop sem (curspl s))
    /\ heap s' = heap s
    /\ sleepers s' = sleepers s ++ [(curthread s, sem)]
    /\ curspl s' = SPL_HIGH
    /\ (forall s2 nm2, heap s2 !! sem = Some (OSem nm2 0) ->
        exists s3, run 3 (P_loop sem (curspl s)) s2
                     = Blocked s3 (P_loop sem (curspl s))
          /\ heap s3 = heap s2
          /\ sleepers s3 = sleepers s2 ++ [(curthread s2, sem)])
    /\ (forall s2 nm2 c, heap s2 !! sem = Some (OSem nm2 c) -> 0 < c <= INT_MAX ->
        exists s3, run 8 (P_loop sem (curspl s)) s2 = Done 0 s3
          /\ heap s3 = <[sem := OSem nm2 (c - 1)]> (heap s2)
          /\ curspl s3 = curspl s).
Proof.
  intros Hn Hi Hs. eexists. split; [|split; [|split; [|split; [|split]]]].
  - unfold P. kred. rewrite (c_true_ne _ _ Hn). kred.
    rewrite Hi. change (c_true (c_eq 0 0)) with true. kred.
    rewrite Hs. kred. change (c_true (c_eq 0 0)) with true. kred.
    reflexivity.
  - reflexivity.
  - reflexivity.
  - reflexivity.
  - intros s2 nm2 Hs2. unfold P_loop, P_cond. kred. rewrite Hs2. kred.
    change (c_true (c_eq 0 0)) with true. kred.
    eexists. split; [reflexivity|]. kred. auto.
  - intros s2 nm2 c Hs2 Hc. unfold P_loop, P_cond, P_tail, P_decr. kred.
    rewrite Hs2. kred.
    assert (E0 : c_true (c_eq c 0) = false)
      by (rewrite c_true_eq; apply Z.eqb_neq; lia).
    assert (E1 : c_true (c_gt c 0) = true)
      by (rewrite c_true_gt; apply Z.ltb_lt; lia).
    rewrite E0. kred. rewrite Hs2. kred. rewrite E1. kred.
    rewrite Hs2. kred. rewrite Hs2. kred.
    rewrite wrap_int_id by (unfold INT_MIN, INT_MAX in *; lia).
    eexists. split; [reflexivity|]. kred. auto.
Qed.

(** X16: A thread woken in [lock_acquire] tests the holder again: it sleeps
    again if the lock has been taken meanwhile, and otherwise becomes the
    holder and returns at the level it called [lock_acquire] with. *)
Theorem lock_acquire_wakeup_rechecks (spl : Z) (s : kstate) (lock nm h : Z) :
  heap s !! lock = Some (OLock nm h) ->
  if h =? NULL then
    exists s', run 6 (acq_loop lock spl) s = Done 0 s'
      /\ heap s' = <[lock := OLock nm (curthread s)]> (heap s)
      /\ curspl s' = spl
      /\ sleepers s' = sleepers s
  else
    exists s', run 3 (acq_loop lock spl) s = Blocked s' (acq_loop lock spl)
      /\ heap s' = heap s
      /\ sleepers s' = sleepers s ++ [(curthread s, lock)]
      /\ curspl s' = curspl s.
Proof.
  intros Hl. unfold acq_loop, acq_cond, acq_tail.
  destruct (Z.eqb_spec h NULL) as [->|Hne].
  - kred. rewrite Hl. kred. change (c_true (c_ne NULL NULL)) with false. kred.
    rewrite Hl. kred. eexists. split; [reflexivity|]. kred. auto.
  - kred. rewrite Hl. kred. rewrite (c_true_ne _ _ Hne). kred.
    eexists. split; [reflexivity|]. kred. auto.
Qed.

(** X18: What a thread woken from [cv_wait] does: it restores the level it
    called [cv_wait] with and then takes the lock like any caller of
    [lock_acquire], returning as its holder if the lock is free and going
    to sleep on the lock, not on the condition variable, if it is not. *)
Theorem cv_wait_wakeup_reacquires (spl : Z) (s : kstate) (lock nm h : Z) :
  lock <> NULL ->
  heap s !! lock = Some (OLock nm h) ->
  if h =? NULL then
    exists s', run 9 (splx spl ;; lock_acquire lock) s = Done 0 s'
      /\ heap s' = <[lock := OLock nm (curthread s)]> (heap s)
      /\ curspl s' = spl
      /\ sleepers s' = sleepers s
  else
    exists s', run 6 (splx spl ;; lock_acquire lock) s
                 = Blocked s' (acq_loop lock spl)
      /\ heap s' = heap s
      /\ sleepers s' = sleepers s ++ [(curthread s, lock)]
      /\ curspl s' = SPL_HIGH.
Proof.
  intros Hn Hl. unfold lock_acquire.
  destruct (Z.eqb_spec h NULL) as [->|Hne].
  - kred. rewrite (c_true_ne _ _ Hn). kred. rewrite Hl. kred.
    change (c_true (c_ne NULL NULL)) with false. kred.
    rewrite Hl. kred. eexists. split; [reflexivity|]. kred. auto.
  - kred. rewrite (c_true_ne _ _ Hn). kred. rewrite Hl. kred.
    rewrite (c_true_ne _ _ Hne). kred.
    eexists. split; [reflexivity|]. kred. auto.
Qed.

(** ** A semaphore of count 1 as a lock *)

Lemma asleep_wakeup t chan s :
  asleep t s = false -> asleep t (do_thread_wakeup chan s).2 = false.
Proof.
  unfold asleep. simpl. rewrite <- !not_true_iff_false.
  intros Hawake He. apply Hawake. apply existsb_exists in He as (e & Hin & He).
  apply existsb_exists. exists e. split; [|exact He].
  apply list_elem_of_In in Hin. apply list_elem_of_filter in Hin as [_ Hin].
  apply list_elem_of_In. exact Hin.
Qed.

Lemma sx_step_ok sem pt c todo owner nm k k' p' :
  heap k !! sem = Some (OSem nm (owner_count owner)) ->
  sx_call_ok sem pt c todo ->
  (sx_sect pt c = true <-> owner = Some (curthread k)) ->
  (pv_crit pt || pv_head pt = true -> curspl k <> 0) ->
  (pv_crit pt = true -> pv_local sem pt k) ->
  asleep (curthread k) k = false ->
  moved (step (pv_code sem pt) k) k' p' ->
  exists pt' owner',
    p' = pv_code sem pt'
    /\ sx_call_ok sem pt' c todo
    /\ heap k' !! sem = Some (OSem nm (owner_count owner'))
    /\ (sx_sect pt' c = true <-> owner' = Some (curthread k))
    /\ (owner' = owner
        \/ (owner = None /\ owner' = Some (curthread k))
        \/ (owner = Some (curthread k) /\ owner' = None))
    /\ (pv_crit pt' || pv_head pt' = true -> curspl k' <> 0)
    /\ (pv_crit pt' = true -> asleep (curthread k') k' = false /\ pv_local sem pt' k').
Proof.
  intros Hcnt Hcall Hsect Hspl Hloc Hawake Hm.
  destruct pt; simpl in Hspl, Hloc, Hcall, Hsect; cbn [pv_code] in Hm.
  - (* P0 *) apply step_assert_inv in Hm as (_ & -> & ->).
    exists P1, owner. simpl. repeat split; auto; try discriminate; tauto.
  - (* P1 *) apply step_do_inv in Hm as (v & He & ->).
    simpl in He. injection He as <- <-.
    exists (P2 (in_interrupt k)), owner. simpl. repeat split; auto; try discriminate; tauto.
  - (* P2 *) apply step_assert_inv in Hm as (_ & -> & ->).
    exists P3, owner. simpl. repeat split; auto; try discriminate; tauto.
  - (* P3 *) apply step_do_inv in Hm as (v & He & ->).
    simpl in He. injection He as <- <-.
    exists (P4 (curspl k)), owner. simpl. repeat split; auto; try discriminate; tauto.
  - (* P4 *) apply step_while_inv in Hm as (-> & ->).
    exists (P5 spl), owner. simpl. repeat split; auto; try discriminate; tauto.
  - (* P5 *) apply step_do_inv in Hm as (v & He & ->).
    apply exec_load_count in He as (-> & nm' & Hh).
    destruct (c_true (c_eq v 0)).
    + exists (P6 spl), owner. simpl. repeat split; auto; try discriminate; tauto.
    + exists (P7 spl), owner. simpl. repeat split; auto; try discriminate; tauto.
  - (* P6 *) apply step_do_inv in Hm as (v & He & ->).
    simpl in He. injection He as <- <-.
    exists (P4 spl), owner. simpl. repeat split; auto; try discriminate; tauto.
  - (* P7 *) apply step_do_inv in Hm as (v & He & ->).
    apply exec_load_count in He as (-> & nm' & Hh).
    exists (P8 spl v), owner. simpl. repeat split; eauto; try discriminate; tauto.
  - (* P8 *) apply step_assert_inv in Hm as (Hb & -> & ->).
    rewrite c_true_gt in Hb. apply Z.ltb_lt in Hb.
    destruct (Hloc eq_refl) as [nm' Hh].
    exists (P9 spl), owner. simpl. repeat split; eauto; try discriminate; tauto.
  - (* P9 *) apply step_do_inv in Hm as (v & He & ->).
    apply exec_load_count in He as (-> & nm' & Hh).
    destruct (Hloc eq_refl) as (nm'' & c' & Hh' & Hc).
    rewrite Hh in Hh'. injection Hh' as <- <-.
    exists (P10 spl v), owner. simpl. repeat split; eauto; try discriminate; tauto.
  - (* P10: the count is 1 and nobody is between P and V *)
    apply step_do_inv in Hm as (v & He & ->).
    apply exec_store_count in He as (nm' & c' & Hh & ->).
    destruct (Hloc eq_refl) as ((nm'' & Hh') & Hc).
    rewrite Hh in Hh'. injection Hh' as <- <-.
    rewrite Hcnt in Hh. injection Hh as <- <-.
    destruct owner as [o|]; simpl in Hc; [lia|].
    exists (P11 spl), (Some (curthread k)). simpl.
    split; [reflexivity|]. split; [exact Hcall|].
    split; [change (wrap_int (1 - 1)) with 0; apply lookup_insert_eq|].
    repeat split; auto.
  - (* P11 *) apply step_do_inv in Hm as (v & He & ->).
    simpl in He. injection He as <- <-.
    exists (PVret 0), owner. simpl. destruct Hcall as [-> Hb].
    repeat split; auto; try discriminate; try tauto.
  - (* V0 *) apply step_assert_inv in Hm as (_ & -> & ->).
    exists V1, owner. simpl. repeat split; auto; try discriminate; tauto.
  - (* V1 *) apply step_do_inv in Hm as (v & He & ->).
    simpl in He. injection He as <- <-.
    exists (V2 (curspl k)), owner. simpl. repeat split; auto; try discriminate; tauto.
  - (* V2 *) apply step_do_inv in Hm as (v & He & ->).
    apply exec_load_count in He as (-> & nm' & Hh).
    exists (V3 spl v), owner. simpl. repeat split; eauto; try discriminate; tauto.
  - (* V3: the caller is the one between P and V, the count is 0 *)
    apply step_do_inv in Hm as (v & He & ->).
    apply exec_store_count in He as (nm' & c' & Hh & ->).
    destruct (Hloc eq_refl) as (nm'' & Hh').
    rewrite Hh in Hh'. injection Hh' as <- <-.
    rewrite Hcnt in Hh. injection Hh as <- <-.
    assert (Ho : owner = Some (curthread k)) by (apply Hsect; reflexivity).
    subst owner. simpl.
    exists (V4 spl), None. simpl.
    split; [reflexivity|]. split; [exact Hcall|].
    split; [change (wrap_int (0 + 1)) with 1; apply lookup_insert_eq|].
    repeat split; auto; try discriminate.
  - (* V4 *) apply step_do_inv in Hm as (v & He & ->).
    apply exec_load_count in He as (-> & nm' & Hh).
    exists (V5 spl v), owner. simpl. repeat split; eauto; try discriminate; tauto.
  - (* V5 *) apply step_assert_inv in Hm as (Hb & -> & ->).
    exists (V6 spl), owner. simpl. repeat split; auto; try discriminate; tauto.
  - (* V6 *) apply step_do_inv in Hm as (v & He & ->).
    simpl in He. injection He as <- <-.
    exists (V7 spl), owner. simpl. repeat split; auto; try discriminate; try tauto.
    apply (asleep_wakeup (curthread k) sem k Hawake).
  - (* V7 *) apply step_do_inv in Hm as (v & He & ->).
    simpl in He. injection He as <- <-.
    exists (PVret 0), owner. simpl. destruct Hcall as [-> Hb].
    repeat split; auto; try discriminate; try tauto.
  - (* returned *) destruct (step_ret_inv _ _ _ _ Hm).
Qed.

Lemma sx_thread_ok_other sem owner owner' k k' t th :
  sx_thread_ok sem owner k t th -> t <> curthread k -> curthread k' = curthread k ->
  (owner' = owner
   \/ (owner = None /\ owner' = Some (curthread k))
   \/ (owner = Some (curthread k) /\ owner' = None)) ->
  sx_thread_ok sem owner' k' t th.
Proof.
  intros (pt & Hcode & Hcall & Hsect & Hcrit & Heff) Hne Hcur Ho.
  exists pt. split; [exact Hcode|]. split; [exact Hcall|]. split; [|split].
  - destruct Ho as [->|[[-> ->]|[-> ->]]]; [exact Hsect| |].
    + split; [intros H; apply Hsect in H; discriminate | intros H; congruence].
    + split; [intros H; apply Hsect in H; congruence | discriminate].
  - intros Hc. destruct (Hcrit Hc) as (Heq & _). congruence.
  - intros Hc. rewrite eff_spl_other by congruence.
    rewrite eff_spl_other in Heff by exact Hne. auto.
Qed.

Lemma sx_good_step sem nm d m m' :
  sx_good sem nm m -> mstep d m = MOk m' -> sx_good sem nm m'.
Proof.
  intros (owner & Hcnt & Hthr) Hd. destruct d as [|r].
  - apply mstep_run_inv in Hd as (th & Hth & Haw & Hcase).
    destruct (Hthr _ _ Hth) as (pt & Hcode & Hcall & Hsect & Hcrit & Heff).
    destruct Hcase as [(v & c & rest & Hret & Hto & ->)|(k' & p' & Hm & ->)].
    + exists owner. split; [exact Hcnt|].
      intros t th'. cbn [m_k m_pool]. rewrite lookup_insert. case_decide as Hd.
      * intros Ht. injection Ht as <-. subst t.
        rewrite Hto in Hcall. rewrite Hret in Hcode.
        destruct pt; try discriminate; simpl in Hcall, Hsect.
        destruct Hcall as [[Hc Ha]|[Hc Ha]]; simpl in Ha.
        -- (* back from P: the next call is V *)
           destruct c; try discriminate.
           apply andb_true_iff in Ha as [Hl Ha]. apply Z.eqb_eq in Hl. subst sem0.
           exists V0. cbn [t_code t_call t_todo pv_code call_prog].
           split; [reflexivity|]. split; [split; [reflexivity | exact Ha]|].
           rewrite Hc in Hsect. simpl in Hsect. simpl.
           split; [exact Hsect|]. split; discriminate.
        -- (* not yet in, or back from V: the next call is P *)
           destruct c; try discriminate.
           apply andb_true_iff in Ha as [Hl Ha]. apply Z.eqb_eq in Hl. subst sem0.
           exists P0. cbn [t_code t_call t_todo pv_code call_prog].
           split; [reflexivity|]. split; [split; [reflexivity | exact Ha]|].
           rewrite Hc in Hsect. simpl.
           split; [exact Hsect|]. split; discriminate.
      * intros Ht. exact (Hthr _ _ Ht).
    + rewrite Hcode in Hm. rewrite eff_spl_cur in Heff.
      pose proof (step_curthread _ _ _ _ Hm) as Hcur.
      destruct (sx_step_ok sem pt _ _ owner nm _ _ _ Hcnt Hcall Hsect Heff
                  (fun Hc => proj2 (proj2 (Hcrit Hc))) Haw Hm)
        as (pt' & owner' & -> & Hcall' & Hcnt' & Hsect' & Ho & Hspl' & Hcrit').
      exists owner'. split; [exact Hcnt'|].
      intros t th'. cbn [m_k m_pool]. rewrite lookup_insert. case_decide as Hd.
      * intros Ht. injection Ht as <-. subst t.
        exists pt'. cbn [set_code t_code t_call t_todo].
        split; [reflexivity|]. split; [exact Hcall'|]. split; [exact Hsect'|].
        split.
        -- intros Hc. destruct (Hcrit' Hc) as [Ha Hl]. rewrite <- Hcur. auto.
        -- rewrite <- Hcur, eff_spl_cur. exact Hspl'.
      * intros Ht. eapply sx_thread_ok_other; eauto.
  - apply mstep_switch_inv in Hd as (th & thr & Hth & Hr & Hne & Har & Hwhy & ->).
    exists owner. split; [exact Hcnt|].
    intros t th'. cbn [m_k m_pool]. rewrite lookup_insert. case_decide as Hd.
    + intros Ht. injection Ht as <-. subst t.
      destruct (Hthr _ _ Hth) as (pt & Hcode & Hcall & Hsect & Hcrit & Heff).
      rewrite eff_spl_cur in Heff.
      assert (Hnc : pv_crit pt = false).
      { destruct (pv_crit pt) eqn:Hc; [|reflexivity]. exfalso.
        destruct (Hcrit eq_refl) as (_ & Ha & _).
        destruct Hwhy as [Hz|[Hs|Hf]].
        - apply Heff; [reflexivity | exact Hz].
        - congruence.
        - unfold finished in Hf. pose proof (pv_crit_not_ret sem pt Hc) as Hnr.
          rewrite <- Hcode in Hnr. destruct (t_code th); try discriminate. }
      exists pt. cbn [t_code t_call t_todo].
      split; [exact Hcode|]. split; [exact Hcall|]. split; [exact Hsect|].
      rewrite Hnc. split; [discriminate|].
      intros Hh. unfold eff_spl. cbn [curthread set_spl set_curthread t_spl].
      assert (E : (curthread (m_k m) =? r) = false) by (apply Z.eqb_neq; congruence).
      rewrite E. apply Heff. rewrite Hnc. exact Hh.
    + intros Ht.
      destruct (Hthr _ _ Ht) as (pt & Hcode & Hcall & Hsect & Hcrit & Heff).
      assert (Hnc : pv_crit pt = false).
      { destruct (pv_crit pt) eqn:Hc; [|reflexivity].
        destruct (Hcrit eq_refl) as (Heq & _). congruence. }
      exists pt. split; [exact Hcode|]. split; [exact Hcall|]. split; [exact Hsect|].
      rewrite Hnc. split; [discriminate|].
      intros Hh. rewrite eff_spl_other in Heff by congruence.
      unfold eff_spl. cbn [curthread curspl set_spl set_curthread].
      destruct (Z.eqb_spec t r) as [->|_].
      * rewrite Hr in Ht. injection Ht as <-. apply Heff. rewrite Hnc. exact Hh.
      * apply Heff. rewrite Hnc. exact Hh.
Qed.

Lemma sem_boot_good sem nm m :
  sem_boot sem (m_pool m) = true ->
  heap (m_k m) !! sem = Some (OSem nm 1) ->
  sx_good sem nm m.
Proof.
  unfold sem_boot. intros H Hh. exists None. split; [exact Hh|].
  intros t th Ht.
  pose proof (proj1 (map_all_spec _ _) H _ _ Ht) as Hr. simpl in Hr.
  apply andb_true_iff in Hr as [Hr Halt]. apply andb_true_iff in Hr as [Hret Hcall].
  destruct (t_code th) as [v| | |] eqn:Hcode; try discriminate.
  unfold no_call in Hcall. destruct (t_call th) eqn:Hc; [discriminate|].
  exists (PVret v). split; [first [reflexivity | exact Hcode]|]. split.
  - right. rewrite Hc. split; [reflexivity | exact Halt].
  - rewrite Hc. simpl. split; [split; discriminate|]. split; discriminate.
Qed.

(** X26: A semaphore created with a count of 1 is a lock for threads that
    bracket their work with [P] and [V]: under any schedule, two threads
    that have both returned from [P] and not yet called [V] are the same
    thread, and while a thread is there the count is 0. *)
Theorem binary_semaphore_excludes
    (sem nm : Z) (m0 m : machine) (sched : list decision)
    (t1 t2 : Z) (th1 th2 : thread) :
  sem_boot sem (m_pool m0) = true ->
  heap (m_k m0) !! sem = Some (OSem nm 1) ->
  mrun sched m0 = MOk m ->
  m_pool m !! t1 = Some th1 ->
  m_pool m !! t2 = Some th2 ->
  in_bracket sem th1 ->
  in_bracket sem th2 ->
  t1 = t2 /\ heap (m_k m) !! sem = Some (OSem nm 0).
Proof.
  intros Hb Hh Hr Ht1 Ht2 [Hc1 Hr1] [Hc2 Hr2].
  assert (Hgood : sx_good sem nm m).
  { eapply (mrun_invariant (sx_good sem nm));
      [|eapply sem_boot_good; eassumption|exact Hr].
    intros d m1 m2. apply sx_good_step. }
  destruct Hgood as (owner & Hcnt & Hthr).
  assert (Hown : forall t th, m_pool m !! t = Some th ->
            t_call th = Some (CP sem) -> is_ret (t_code th) = true ->
            owner = Some t).
  { intros t th Ht Hc Hret.
    destruct (Hthr _ _ Ht) as (pt & Hcode & _ & Hsect & _).
    rewrite Hcode in Hret. destruct pt; try discriminate.
    apply Hsect. simpl. rewrite Hc. reflexivity. }
  pose proof (Hown _ _ Ht1 Hc1 Hr1) as H1.
  pose proof (Hown _ _ Ht2 Hc2 Hr2) as H2.
  split; [congruence|]. rewrite H1 in Hcnt. exact Hcnt.
Qed.

(** ** Interrupt context, for [P] *)

(** X11: [P] looks at [in_interrupt] before anything else it could fail or
    block on: called from an interrupt handler it halts the kernel in the
    state it was called in, whatever the count and whatever the pointer
    points to. *)
Theorem P_checks_interrupt_first (s : kstate) (sem : Z) :
  sem <> NULL -> in_interrupt s <> 0 -> run 3 (P sem) s = Panic s.
Proof.
  intros Hn Hi. unfold P. kred. rewrite (c_true_ne _ _ Hn). kred.
  rewrite c_true_eq. apply Z.eqb_neq in Hi. rewrite Hi. reflexivity.
Qed.

Lemma P_checks_interrupt_first_witness : run 3 (P 10) ex_intr = Panic ex_intr.
Proof.
  apply (P_checks_interrupt_first ex_intr 10); [unfold NULL; lia | simpl; lia].
Defined.

(** ** The heap under the synchronisation operations *)

Lemma no_alloc_bind p f :
  no_alloc p -> (forall v, no_alloc (f v)) -> no_alloc (bind p f).
Proof.
  induction p as [v|c k IH|b k IH|c IHc b IHb k IHk]; simpl; intros Hp Hf; auto.
  - destruct c; try exact Hp; intros x; apply IH; auto.
  - destruct Hp as (Hc & Hb & Hk). auto.
Qed.

Lemma no_alloc_exec c k s v s' :
  no_alloc (Do c k) -> exec_cmd c s = Some (v, s') ->
  dom (heap s') = dom (heap s) /\ kfree_left s' = kfree_left s /\ brk s' = brk s.
Proof.
  destruct c; simpl; intros Hp He; try destruct Hp;
    try (injection He as <- <-; auto).
  - destruct l as [p f| |]; simpl in He.
    + destruct (heap s !! p) as [o|]; [|discriminate].
      destruct (read_field o f); [|discriminate]. injection He as <- <-. auto.
    + injection He as <- <-. auto.
    + injection He as <- <-. auto.
  - destruct l as [p f| |]; simpl in He; try discriminate.
    destruct (heap s !! p) as [o|] eqn:Ho; [|discriminate].
    destruct (write_field o f v0); [|discriminate]. injection He as <- <-.
    simpl. split; [|auto]. apply dom_insert_lookup_L. eauto.
Qed.

Lemma no_alloc_step p s s' p' :
  no_alloc p -> moved (step p s) s' p' ->
  no_alloc p'
  /\ dom (heap s') = dom (heap s) /\ kfree_left s' = kfree_left s /\ brk s' = brk s.
Proof.
  destruct p as [v|c k|b k|c b k]; intros Hp Hm.
  - destruct (step_ret_inv _ _ _ _ Hm).
  - apply step_do_inv in Hm as (v & He & ->). split.
    + simpl in Hp. destruct c; try destruct Hp; apply Hp.
    + eapply no_alloc_exec; eauto.
  - apply step_assert_inv in Hm as (_ & -> & ->). auto.
  - apply step_while_inv in Hm as (-> & ->). destruct Hp as (Hc & Hb & Hk).
    split; [|auto].
    apply no_alloc_bind; [exact Hc|]. intros v. destruct (c_true v); [|exact Hk].
    apply no_alloc_bind; [exact Hb|]. intros _. simpl. auto.
Qed.

Lemma no_alloc_run n : forall p s,
  no_alloc p ->
  match last_state (run n p s) with
  | Some s' =>
      dom (heap s') = dom (heap s) /\ kfree_left s' = kfree_left s /\ brk s' = brk s
  | None => True
  end.
Proof.
  induction n as [|n IH]; intros p s Hp; simpl; [exact I|].
  destruct (step p s) as [v|s1 p1|s1 p1| |] eqn:Hs; simpl; auto.
  - destruct (no_alloc_step p s s1 p1 Hp) as (Hp1 & Hd & Hk & Hb);
      [left; exact Hs|].
    specialize (IH p1 s1 Hp1). destruct (last_state (run n p1 s1)); [|exact I].
    destruct IH as (Hd' & Hk' & Hb'). repeat split; congruence.
  - destruct (no_alloc_step p s s1 p1 Hp) as (_ & Hd & Hk & Hb);
      [right; exact Hs|]. auto.
Qed.

Lemma no_alloc_call c : allocates c = false -> no_alloc (call_prog c).
Proof.
  destruct c; try discriminate; intros _; simpl;
    repeat (first [ split | intros ? | exact I ]; simpl).
Qed.

(** X22: The eight operations that neither create nor destroy never allocate
    and never free: however far one of them gets, returning, halting,
    faulting or going to sleep, the set of live blocks and the room left
    in the heap are those it was called with. *)
Theorem sync_ops_never_allocate (c : call) (n : nat) (s : kstate) :
  allocates c = false ->
  match last_state (run n (call_prog c) s) with
  | Some s' =>
      dom (heap s') = dom (heap s) /\ kfree_left s' = kfree_left s /\ brk s' = brk s
  | None => True
  end.
Proof. intros Hc. apply no_alloc_run. apply no_alloc_call. exact Hc. Qed.

Lemma sync_ops_never_allocate_witness :
  match last_state (run 12 (call_prog (CCvWait 30 20)) ex_held) with
  | Some s' =>
      dom (heap s') = dom (heap ex_held)
      /\ kfree_left s' = kfree_left ex_held /\ brk s' = brk ex_held
  | None => True
  end.
Proof. apply (sync_ops_never_allocate (CCvWait 30 20) 12 ex_held). reflexivity. Defined.

(** ** The theorems above, at work on the small kernel *)

Lemma sem_create_spec_witness :
  match kfree_left ex_state with
  | O =>
      exists s', run 2 (sem_create "s" 3) ex_state = Done NULL s'
        /\ heap s' = heap ex_state /\ kfree_left s' = O
  | S O =>
      exists s', run 6 (sem_create "s" 3) ex_state = Done NULL s'
        /\ heap s' = heap ex_state /\ kfree_left s' = S O
  | S (S n) =>
      exists s', run 6 (sem_create "s" 3) ex_state = Done (brk ex_state) s'
        /\ brk ex_state <> NULL
        /\ heap s' !! brk ex_state = Some (OSem (brk ex_state + 1) 3)
        /\ heap s' !! (brk ex_state + 1) = Some (OStr "s")
        /\ (forall p, p <> brk ex_state -> p <> brk ex_state + 1 ->
            heap s' !! p = heap ex_state !! p)
        /\ kfree_left s' = n
        /\ curspl s' = curspl ex_state /\ sleepers s' = sleepers ex_state
  end.
Proof. apply (sem_create_spec ex_state "s" 3); [simpl; lia | reflexivity]. Defined.

Lemma lock_create_spec_witness :
  match kfree_left ex_state with
  | O =>
      exists s', run 2 (lock_create "l") ex_state = Done NULL s'
        /\ heap s' = heap ex_state /\ kfree_left s' = O
  | S O =>
      exists s', run 6 (lock_create "l") ex_state = Done NULL s'
        /\ heap s' = heap ex_state /\ kfree_left s' = S O
  | S (S n) =>
      exists s', run 6 (lock_create "l") ex_state = Done (brk ex_state) s'
        /\ brk ex_state <> NULL
        /\ heap s' !! brk ex_state = Some (OLock (brk ex_state + 1) NULL)
        /\ heap s' !! (brk ex_state + 1) = Some (OStr "l")
        /\ (forall p, p <> brk ex_state -> p <> brk ex_state + 1 ->
            heap s' !! p = heap ex_state !! p)
        /\ kfree_left s' = n
        /\ curspl s' = curspl ex_state /\ sleepers s' = sleepers ex_state
        /\ run 3 (lock_do_i_hold (brk ex_state)) s' =
             Done (c_eq NULL (curthread ex_state)) s'
  end.
Proof. apply (lock_create_spec ex_state "l"); [simpl; lia | reflexivity]. Defined.

Lemma cv_create_spec_witness :
  match kfree_left ex_state with
  | O =>
      exists s', run 2 (cv_create "c") ex_state = Done NULL s'
        /\ heap s' = heap ex_state /\ kfree_left s' = O
  | S O =>
      exists s', run 6 (cv_create "c") ex_state = Done NULL s'
        /\ heap s' = heap ex_state /\ kfree_left s' = S O
  | S (S n) =>
      exists s', run 5 (cv_create "c") ex_state = Done (brk ex_state) s'
        /\ brk ex_state <> NULL
        /\ heap s' !! brk ex_state = Some (OCv (brk ex_state + 1))
        /\ heap s' !! (brk ex_state + 1) = Some (OStr "c")
        /\ (forall p, p <> brk ex_state -> p <> brk ex_state + 1 ->
            heap s' !! p = heap ex_state !! p)
        /\ kfree_left s' = n
        /\ curspl s' = curspl ex_state /\ sleepers s' = sleepers ex_state
  end.
Proof. apply (cv_create_spec ex_state "c"); [simpl; lia | reflexivity]. Defined.

(** The lock at 20 is held by thread 7 and thread 2 sleeps on it. *)
Lemma lock_destroy_spec_witness :
  exists s', run 5 (lock_destroy 20) ex_state = Done 0 s'
    /\ heap s' = delete 20 (delete 21 (heap ex_state))
    /\ sleepers s' = sleepers ex_state
    /\ curspl s' = curspl ex_state
    /\ kfree_left s' = S (S (kfree_left ex_state))
    /\ klog s' = klog ex_state ++
         [(curthread ex_state, EvKfree 21); (curthread ex_state, EvKfree 20)].
Proof.
  apply (lock_destroy_spec ex_state 20 21 7 "lock");
    [unfold NULL; lia | reflexivity | reflexivity].
Defined.

(** Threads 4 and 5 sleep on the condition variable at 30. *)
Lemma cv_destroy_spec_witness :
  exists s', run 5 (cv_destroy 30) ex_state = Done 0 s'
    /\ heap s' = delete 30 (delete 31 (heap ex_state))
    /\ sleepers s' = sleepers ex_state
    /\ curspl s' = curspl ex_state
    /\ kfree_left s' = S (S (kfree_left ex_state))
    /\ klog s' = klog ex_state ++
         [(curthread ex_state, EvKfree 31); (curthread ex_state, EvKfree 30)].
Proof.
  apply (cv_destroy_spec ex_state 30 31 "cv");
    [unfold NULL; lia | reflexivity | reflexivity].
Defined.

Lemma sem_create_destroy_witness :
  exists s1 s2,
    run 6 (sem_create "s" 3) ex_quiet = Done (brk ex_quiet) s1
    /\ run 9 (sem_destroy (brk ex_quiet)) s1 = Done 0 s2
    /\ heap s2 = heap ex_quiet
    /\ kfree_left s2 = kfree_left ex_quiet
    /\ curspl s2 = curspl ex_quiet
    /\ sleepers s2 = sleepers ex_quiet.
Proof.
  apply (sem_create_destroy ex_quiet "s" 3 3);
    [simpl; lia | reflexivity | reflexivity | reflexivity | reflexivity].
Defined.

Lemma lock_create_destroy_witness :
  exists s1 s2,
    run 6 (lock_create "l") ex_state = Done (brk ex_state) s1
    /\ run 5 (lock_destroy (brk ex_state)) s1 = Done 0 s2
    /\ heap s2 = heap ex_state
    /\ kfree_left s2 = kfree_left ex_state
    /\ curspl s2 = curspl ex_state
    /\ sleepers s2 = sleepers ex_state.
Proof.
  apply (lock_create_destroy ex_state "l" 3);
    [simpl; lia | reflexivity | reflexivity | reflexivity].
Defined.

Lemma cv_create_destroy_witness :
  exists s1 s2,
    run 5 (cv_create "c") ex_state = Done (brk ex_state) s1
    /\ run 5 (cv_destroy (brk ex_state)) s1 = Done 0 s2
    /\ heap s2 = heap ex_state
    /\ kfree_left s2 = kfree_left ex_state
    /\ curspl s2 = curspl ex_state
    /\ sleepers s2 = sleepers ex_state.
Proof.
  apply (cv_create_destroy ex_state "c" 3);
    [simpl; lia | reflexivity | reflexivity | reflexivity].
Defined.

(** Thread 1 passes a lock that thread 7 holds. *)
Lemma cv_needs_the_lock_witness :
  run 5 (cv_wait 30 20) ex_state = Panic ex_state
  /\ run 5 (cv_signal 30 20) ex_state = Panic ex_state
  /\ run 5 (cv_broadcast 30 20) ex_state = Panic ex_state.
Proof.
  apply (cv_needs_the_lock ex_state 30 20 21 7);
    [unfold NULL; lia | unfold NULL; lia | reflexivity | simpl; lia].
Defined.

Lemma P_takes_witness :
  exists s', run 12 (P 10) ex_state = Done 0 s'
    /\ heap s' = <[10 := OSem 11 (1 - 1)]> (heap ex_state)
    /\ sleepers s' = sleepers ex_state
    /\ curspl s' = curspl ex_state
    /\ klog s' = klog ex_state ++
         [(curthread ex_state, EvSplhigh);
          (curthread ex_state, EvStore (10 ->> sem_count) (1 - 1));
          (curthread ex_state, EvSplx (curspl ex_state))].
Proof.
  apply (P_takes ex_state 10 11 1);
    [unfold NULL; lia | reflexivity | reflexivity | unfold INT_MAX; lia].
Defined.

Lemma P_wakeup_rechecks_witness :
  exists s',
    run 7 (P 10) ex_empty = Blocked s' (P_loop 10 (curspl ex_empty))
    /\ heap s' = heap ex_empty
    /\ sleepers s' = sleepers ex_empty ++ [(curthread ex_empty, 10)]
    /\ curspl s' = SPL_HIGH
    /\ (forall s2 nm2, heap s2 !! 10 = Some (OSem nm2 0) ->
        exists s3, run 3 (P_loop 10 (curspl ex_empty)) s2
                     = Blocked s3 (P_loop 10 (curspl ex_empty))
          /\ heap s3 = heap s2
          /\ sleepers s3 = sleepers s2 ++ [(curthread s2, 10)])
    /\ (forall s2 nm2 c, heap s2 !! 10 = Some (OSem nm2 c) -> 0 < c <= INT_MAX ->
        exists s3, run 8 (P_loop 10 (curspl ex_empty)) s2 = Done 0 s3
          /\ heap s3 = <[10 := OSem nm2 (c - 1)]> (heap s2)
          /\ curspl s3 = curspl ex_empty).
Proof.
  apply (P_wakeup_rechecks ex_empty 10 11);
    [unfold NULL; lia | reflexivity | reflexivity].
Defined.

Lemma V_then_P_witness :
  exists s1 s2,
    run 9 (V 10) ex_empty = Done 0 s1
    /\ heap s1 !! 10 = Some (OSem 11 (0 + 1))
    /\ run 12 (P 10) s1 = Done 0 s2
    /\ heap s2 = heap ex_empty
    /\ curspl s2 = curspl ex_empty
    /\ sleepers s2 = filter (fun e => negb (on_chan 10 e)) (sleepers ex_empty).
Proof.
  apply (V_then_P ex_empty 10 11 0);
    [unfold NULL; lia | reflexivity | reflexivity | unfold INT_MAX; lia].
Defined.

(** Thread 1 asks for the lock it already holds. *)
Lemma lock_acquire_blocks_witness :
  exists s', run 5 (lock_acquire 20) ex_held
               = Blocked s' (acq_loop 20 (curspl ex_held))
    /\ heap s' = heap ex_held
    /\ sleepers s' = sleepers ex_held ++ [(curthread ex_held, 20)]
    /\ curspl s' = SPL_HIGH.
Proof.
  apply (lock_acquire_blocks ex_held 20 21 1);
    [unfold NULL; lia | reflexivity | unfold NULL; lia].
Defined.

Lemma lock_acquire_wakeup_rechecks_witness :
  if 7 =? NULL then
    exists s', run 6 (acq_loop 20 0) ex_state = Done 0 s'
      /\ heap s' = <[20 := OLock 21 (curthread ex_state)]> (heap ex_state)
      /\ curspl s' = 0
      /\ sleepers s' = sleepers ex_state
  else
    exists s', run 3 (acq_loop 20 0) ex_state = Blocked s' (acq_loop 20 0)
      /\ heap s' = heap ex_state
      /\ sleepers s' = sleepers ex_state ++ [(curthread ex_state, 20)]
      /\ curspl s' = curspl ex_state.
Proof. apply (lock_acquire_wakeup_rechecks 0 ex_state 20 21 7). reflexivity. Defined.

Lemma cv_wait_release_sleep_atomic_witness :
  exists s',
    run 12 (cv_wait 30 20) ex_held =
      Blocked s' (splx (curspl ex_held) ;; lock_acquire 20)
    /\ heap s' = <[20 := OLock 21 NULL]> (heap ex_held)
    /\ sleepers s' =
         filter (fun e => negb (on_chan 20 e)) (sleepers ex_held)
         ++ [(curthread ex_held, 30)]
    /\ curspl s' = SPL_HIGH
    /\ klog s' = klog ex_held ++
         [(curthread ex_held, EvSplhigh);
          (curthread ex_held, EvSplhigh);
          (curthread ex_held, EvStore (20 ->> lk_holder) NULL);
          (curthread ex_held, EvWakeup 20);
          (curthread ex_held, EvSplx SPL_HIGH);
          (curthread ex_held, EvSleep 30)].
Proof.
  apply (cv_wait_release_sleep_atomic ex_held 30 20 21);
    [unfold NULL; lia | unfold NULL; lia | reflexivity].
Defined.

Lemma cv_wait_wakeup_reacquires_witness :
  if NULL =? NULL then
    exists s', run 9 (splx 0 ;; lock_acquire 20) ex_quiet = Done 0 s'
      /\ heap s' = <[20 := OLock 21 (curthread ex_quiet)]> (heap ex_quiet)
      /\ curspl s' = 0
      /\ sleepers s' = sleepers ex_quiet
  else
    exists s', run 6 (splx 0 ;; lock_acquire 20) ex_quiet
                 = Blocked s' (acq_loop 20 0)
      /\ heap s' = heap ex_quiet
      /\ sleepers s' = sleepers ex_quiet ++ [(curthread ex_quiet, 20)]
      /\ curspl s' = SPL_HIGH.
Proof.
  apply (cv_wait_wakeup_reacquires 0 ex_quiet 20 21 NULL);
    [unfold NULL; lia | reflexivity].
Defined.

Lemma cv_signal_wakes_one_witness :
  exists s', run 7 (cv_signal 30 20) ex_held = Done 0 s'
    /\ heap s' = heap ex_held
    /\ (existsb (on_chan 30) (sleepers ex_held) = false ->
        sleepers s' = sleepers ex_held)
    /\ (forall q1 t q2,
          sleepers ex_held = q1 ++ (t, 30) :: q2 ->
          existsb (on_chan 30) q1 = false ->
          sleepers s' = q1 ++ q2).
Proof.
  apply (cv_signal_wakes_one ex_held 30 20 21);
    [unfold NULL; lia | unfold NULL; lia | reflexivity].
Defined.

Lemma cv_broadcast_spec_witness :
  exists s', run 9 (cv_broadcast 30 20) ex_held = Done 0 s'
    /\ heap s' = heap ex_held
    /\ (forall t, (t, 30) ∉ sleepers s')
    /\ (forall t chan, chan <> 30 -> (t, chan) ∈ sleepers ex_held ->
        (t, chan) ∈ sleepers s')
    /\ (forall e, e ∈ sleepers s' -> e ∈ sleepers ex_held)
    /\ curspl s' = curspl ex_held
    /\ klog s' = klog ex_held ++
         [(curthread ex_held, EvSplhigh); (curthread ex_held, EvWakeup 30);
          (curthread ex_held, EvSplx (curspl ex_held))].
Proof.
  apply (cv_broadcast_spec ex_held 30 20 21);
    [unfold NULL; lia | unfold NULL; lia | reflexivity].
Defined.

Lemma only_three_can_block_witness :
  run 9 (call_prog (CV 10)) ex_state <> Blocked ex_state (Ret 0).
Proof. apply (only_three_can_block (CV 10) 9 ex_state ex_state (Ret 0)). reflexivity. Defined.

(** Scenario C, once thread 1 is back from [cv_wait]. *)
Lemma calls_restore_ipl_witness :
  exists m th0 th,
    mrun (schedule_C ++ [Run]) scenario_C = MOk m
    /\ m_pool scenario_C !! 1 = Some th0
    /\ m_pool m !! 1 = Some th
    /\ eff_spl (m_k m) 1 th = eff_spl (m_k scenario_C) 1 th0.
Proof.
  do 3 eexists.
  split; [vm_compute; reflexivity|].
  split; [vm_compute; reflexivity|].
  split; [vm_compute; reflexivity|].
  eapply (calls_restore_ipl scenario_C _ (schedule_C ++ [Run]) 1);
    [vm_compute; reflexivity | reflexivity | vm_compute; reflexivity
    | vm_compute; reflexivity | reflexivity].
Defined.

(** Scenario B, once thread 1 has the lock. *)
Lemma lock_mutual_exclusion_witness :
  exists m th,
    mrun (repeat Run 8) scenario_B = MOk m
    /\ m_pool m !! 1 = Some th
    /\ (1 = 1 /\ exists nm, heap (m_k m) !! 20 = Some (OLock nm 1)).
Proof.
  do 2 eexists.
  split; [vm_compute; reflexivity|].
  split; [vm_compute; reflexivity|].
  eapply (lock_mutual_exclusion 20 scenario_B _ (repeat Run 8) 1 1);
    [vm_compute; reflexivity | vm_compute; reflexivity
    | vm_compute; reflexivity | vm_compute; reflexivity
    | split; reflexivity | split; reflexivity].
Defined.

Lemma lock_acquire_returns_holding_witness :
  exists m m' th th',
    mrun (repeat Run 7) scenario_B = MOk m
    /\ mstep Run m = MOk m'
    /\ m_pool m !! 1 = Some th
    /\ m_pool m' !! 1 = Some th'
    /\ curthread (m_k m') = 1
    /\ exists nm, heap (m_k m') !! 20 = Some (OLock nm 1).
Proof.
  do 4 eexists.
  split; [vm_compute; reflexivity|].
  split; [vm_compute; reflexivity|].
  split; [vm_compute; reflexivity|].
  split; [vm_compute; reflexivity|].
  eapply (lock_acquire_returns_holding scenario_B _ _ (repeat Run 7) Run 1 20);
    [reflexivity | vm_compute; reflexivity | vm_compute; reflexivity
    | vm_compute; reflexivity | reflexivity | reflexivity
    | vm_compute; reflexivity | reflexivity].
Defined.

(** Scenario A, once thread 1 is back from [P]. *)
Lemma binary_semaphore_excludes_witness :
  exists m th,
    mrun (repeat Run 12) scenario_A = MOk m
    /\ m_pool m !! 1 = Some th
    /\ (1 = 1 /\ heap (m_k m) !! 10 = Some (OSem 11 0)).
Proof.
  do 2 eexists.
  split; [vm_compute; reflexivity|].
  split; [vm_compute; reflexivity|].
  eapply (binary_semaphore_excludes 10 11 scenario_A _ (repeat Run 12) 1 1);
    [vm_compute; reflexivity | reflexivity | vm_compute; reflexivity
    | vm_compute; reflexivity | vm_compute; reflexivity
    | split; reflexivity | split; reflexivity].
Defined.
